(** * Elemental: the DOM helpers of [utils.js], the root-element setup of [el],
      and the reactive core (Reactor / Observer) the library is built on.

    The development has six parts.

    - [Dom]: a pointer-level model of sibling chains and the source function
      [getNodesBetween] of utils.js.
    - [El]: the descriptor handling of [el] (elementary.js) together with
      [isTreatedAsQuerySelector] and [VALID_HTML_TAGS] (utils.js).
    - [Reactor]: the dependency-tracking engine.  Its implementation
      (reactor.js) is not part of the source tree, only its test-suite is, so
      the engine is modelled from the design specification.
    - [Selector]: [isQuerySelector] of utils.js, with its regular expressions,
      and the revision of [el] that dispatches on it.
    - [Siblings]: the order of the arguments of [getNodesBetween].
    - [Children]: the function [append] of [el], [el] with children, [attr],
      and the re-rendering of an observer child (elementary.js). *)

From Stdlib Require Import List String Ascii Bool Arith ZArith Lia.
Import ListNotations.

(* ================================================================== *)
(** * Part I: sibling chains and [getNodesBetween]                     *)
(* ================================================================== *)

Module Dom.

(** DOM nodes are identified by a number.  A document gives, for every node,
    the two links the function follows.  [None] is JavaScript's [null]. *)
Definition node := nat.

Record document : Type := {
  parentNode : node -> option node;
  nextSibling : node -> option node
}.

(** A JavaScript argument is either a DOM [Node] or something else. *)
Inductive jsval : Type :=
| JNode (n : node)
| JOther.

(** The two kinds of exceptions the function raises. *)
Inductive exn : Type :=
| TypeError (msg : string)
| Error (msg : string).

Inductive completion (A : Type) : Type :=
| Return (a : A)
| Throw (e : exn).
Arguments Return {A} a.
Arguments Throw {A} e.

Definition unreachable_msg : string :=
  "endNode could not be reached from startNode"%string.

(** The [while (currentNode !== endNode)] loop.  [endNode] is a node, hence
    never [null]; [result.push] appends at the end.  The loop is bounded by
    [fuel]; [None] means the bound was too small. *)
Fixpoint walk (fuel : nat) (d : document) (currentNode : option node)
    (endNode : node) (result : list node) : option (completion (list node)) :=
  match fuel with
  | O => None
  | S fuel' =>
      match currentNode with
      | Some c =>
          if Nat.eqb c endNode then Some (Return result)
          else walk fuel' d (nextSibling d c) endNode (result ++ [c])
      | None => Some (Throw (Error unreachable_msg))
      end
  end.

Definition getNodesBetween (fuel : nat) (d : document)
    (startNode endNode : jsval) : option (completion (list node)) :=
  match startNode, endNode with
  | JNode s, JNode e =>
      match parentNode d s, parentNode d e with
      | None, _ => Some (Throw (Error unreachable_msg))
      | _, None => Some (Throw (Error unreachable_msg))
      | Some ps, Some pe =>
          if negb (Nat.eqb ps pe) then Some (Throw (Error unreachable_msg))
          else walk fuel d (nextSibling d s) e []
      end
  | _, _ =>
      Some (Throw (TypeError
        "getNodesBetween requires a valid DOM Node for startNode and endNode"%string))
  end.

(** ** Specification vocabulary *)

(** [sib_path d s l t]: following [nextSibling] from [s] visits exactly the
    nodes of [l], in that order, and the link leaving the last visited node
    (or [s] itself when [l] is empty) is [t]. *)
Inductive sib_path (d : document) : node -> list node -> option node -> Prop :=
| sib_here s t : nextSibling d s = t -> sib_path d s [] t
| sib_step s c l t :
    nextSibling d s = Some c -> sib_path d c l t -> sib_path d s (c :: l) t.

(** [endNode] is reached from [startNode] by one or more [nextSibling] links,
    [mid] being the nodes strictly in between. *)
Definition between (d : document) (s : node) (mid : list node) (e : node) : Prop :=
  sib_path d s mid (Some e) /\ ~ In e mid.

(** The walk from [startNode] falls off the end of the sibling list without
    meeting [endNode]. *)
Definition runs_out (d : document) (s : node) (visited : list node) (e : node) : Prop :=
  sib_path d s visited None /\ ~ In e visited.

Definition same_parent (d : document) (s e : node) : Prop :=
  exists p, parentNode d s = Some p /\ parentNode d e = Some p.

(** [kids] is the list of children of [p], in document order: the list has
    no repetition, each child has parent [p] and its [nextSibling] is the next
    child of the list ([null] for the last one). *)
Definition child_list (d : document) (p : node) (kids : list node) : Prop :=
  NoDup kids /\
  forall i n, nth_error kids i = Some n ->
              parentNode d n = Some p /\ nextSibling d n = nth_error kids (S i).

(** A small document used to exercise the function: node 0 is the parent of
    the children 1, 2, 3, 4 (in document order); node 9 is detached. *)
Definition sample : document := {|
  parentNode := fun n => if Nat.leb 1 n && Nat.leb n 4 then Some 0 else None;
  nextSibling := fun n => if Nat.leb 1 n && Nat.leb n 3 then Some (S n) else None
|}.

(** ** Properties of the loop *)

Lemma walk_reaches d e : forall s mid,
  sib_path d s mid (Some e) -> ~ In e mid ->
  forall acc fuel, List.length mid < fuel ->
  walk fuel d (nextSibling d s) e acc = Some (Return (acc ++ mid)).
Proof.
  intros s mid Hp. remember (Some e) as t eqn:Ht.
  induction Hp as [s t Hn|s c l t Hn Hp IH]; intros Hnot acc fuel Hfuel;
    (destruct fuel as [|fuel]; [simpl in Hfuel; lia|]); subst t; rewrite Hn; simpl.
  - rewrite Nat.eqb_refl, app_nil_r. reflexivity.
  - assert (Hne : Nat.eqb c e = false).
    { apply Nat.eqb_neq. intros ->. apply Hnot. left. reflexivity. }
    rewrite Hne, IH.
    + rewrite <- app_assoc. reflexivity.
    + reflexivity.
    + intros Hin. apply Hnot. right. exact Hin.
    + simpl in Hfuel. lia.
Qed.

Lemma walk_runs_out d e : forall s visited,
  sib_path d s visited None -> ~ In e visited ->
  forall acc fuel, List.length visited < fuel ->
  walk fuel d (nextSibling d s) e acc = Some (Throw (Error unreachable_msg)).
Proof.
  intros s visited Hp. remember (@None node) as t eqn:Ht.
  induction Hp as [s t Hn|s c l t Hn Hp IH]; intros Hnot acc fuel Hfuel;
    (destruct fuel as [|fuel]; [simpl in Hfuel; lia|]); subst t; rewrite Hn; simpl.
  - reflexivity.
  - assert (Hne : Nat.eqb c e = false).
    { apply Nat.eqb_neq. intros ->. apply Hnot. left. reflexivity. }
    rewrite Hne. apply IH.
    + reflexivity.
    + intros Hin. apply Hnot. right. exact Hin.
    + simpl in Hfuel. lia.
Qed.

Lemma walk_sound d e : forall fuel s acc r,
  walk fuel d (nextSibling d s) e acc = Some (Return r) ->
  exists mid, r = acc ++ mid /\ between d s mid e.
Proof.
  induction fuel as [|fuel IH]; intros s acc r H; [discriminate|].
  simpl in H. destruct (nextSibling d s) as [c|] eqn:Hn; [|discriminate].
  destruct (Nat.eqb c e) eqn:Hce.
  - injection H as <-. apply Nat.eqb_eq in Hce. subst c. exists [].
    rewrite app_nil_r. split; [reflexivity|]. split; [|intros []].
    apply sib_here. exact Hn.
  - apply Nat.eqb_neq in Hce. apply IH in H.
    destruct H as [mid [-> [Hp Hnot]]].
    exists (c :: mid). rewrite <- app_assoc. split; [reflexivity|]. split.
    + apply sib_step with (1 := Hn). exact Hp.
    + intros [Heq|Hin]; [congruence|contradiction].
Qed.

Lemma same_parent_dispatch fuel d s e :
  same_parent d s e ->
  getNodesBetween fuel d (JNode s) (JNode e) = walk fuel d (nextSibling d s) e [].
Proof.
  intros [p [Hs He]]. unfold getNodesBetween. rewrite Hs, He, Nat.eqb_refl.
  reflexivity.
Qed.

Lemma children_between d p : forall mid pre s e post,
  child_list d p (pre ++ s :: mid ++ e :: post) ->
  same_parent d s e /\ between d s mid e.
Proof.
  intros mid pre s e post [Hnd Hlinks].
  assert (Hat : forall (l1 : list node) x l2, nth_error (l1 ++ x :: l2) (List.length l1) = Some x).
  { intros l1 x l2. rewrite nth_error_app2 by lia. rewrite Nat.sub_diag.
    reflexivity. }
  split.
  - exists p. split.
    + exact (proj1 (Hlinks _ _ (Hat pre s (mid ++ e :: post)))).
    + assert (He : nth_error (pre ++ s :: mid ++ e :: post)
                     (List.length (pre ++ s :: mid)) = Some e).
      { replace (pre ++ s :: mid ++ e :: post)
          with ((pre ++ s :: mid) ++ e :: post)
          by (rewrite <- app_assoc; reflexivity).
        apply Hat. }
      exact (proj1 (Hlinks _ _ He)).
  - split.
    + clear Hnd. revert pre s Hlinks.
      induction mid as [|m mid IH]; intros pre s Hlinks.
      * apply sib_here.
        rewrite (proj2 (Hlinks _ _ (Hat pre s ([] ++ e :: post)))).
        replace (pre ++ s :: [] ++ e :: post) with ((pre ++ [s]) ++ e :: post)
          by (rewrite <- app_assoc; reflexivity).
        replace (S (List.length pre)) with (List.length (pre ++ [s]))
          by (rewrite length_app; simpl; lia).
        apply Hat.
      * apply sib_step with (c := m).
        -- rewrite (proj2 (Hlinks _ _ (Hat pre s ((m :: mid) ++ e :: post)))).
           replace (pre ++ s :: (m :: mid) ++ e :: post)
             with ((pre ++ [s]) ++ m :: mid ++ e :: post)
             by (rewrite <- app_assoc; reflexivity).
           replace (S (List.length pre)) with (List.length (pre ++ [s]))
             by (rewrite length_app; simpl; lia).
           apply Hat.
        -- apply (IH (pre ++ [s]) m).
           replace ((pre ++ [s]) ++ m :: mid ++ e :: post)
             with (pre ++ s :: (m :: mid) ++ e :: post)
             by (rewrite <- app_assoc; reflexivity).
           exact Hlinks.
    + intros Hin. apply NoDup_remove_2 with (l := pre ++ s :: mid) (l' := post) (a := e).
      * rewrite <- app_assoc. exact Hnd.
      * apply in_or_app. left. apply in_or_app. right. right. exact Hin.
Qed.

(** C9.  Under a common non-null parent, [getNodesBetween] returns exactly the
    nodes that the [nextSibling] chain visits strictly between [startNode] and
    [endNode], in document order (and whatever it returns is such a chain); it
    throws [Error 'endNode could not be reached from startNode'] when either
    parent is null, when the parents differ, and when the sibling walk from
    [startNode] reaches null before [endNode].  In terms of the list of
    children of the parent: if [startNode] comes before [endNode] in it, the
    result is the part of the list strictly between them. *)
Theorem getNodesBetween_spec (d : document) (s e : node) :
  (forall mid, same_parent d s e -> between d s mid e ->
     forall fuel, List.length mid < fuel ->
       getNodesBetween fuel d (JNode s) (JNode e) = Some (Return mid))
  /\ (forall fuel r, getNodesBetween fuel d (JNode s) (JNode e) = Some (Return r) ->
       same_parent d s e /\ between d s r e)
  /\ (parentNode d s = None \/ parentNode d e = None \/
      parentNode d s <> parentNode d e ->
     forall fuel,
       getNodesBetween fuel d (JNode s) (JNode e)
       = Some (Throw (Error unreachable_msg)))
  /\ (forall visited, runs_out d s visited e ->
     forall fuel, List.length visited < fuel ->
       getNodesBetween fuel d (JNode s) (JNode e)
       = Some (Throw (Error unreachable_msg)))
  /\ (forall p pre mid post,
       child_list d p (pre ++ s :: mid ++ e :: post) ->
       forall fuel, List.length mid < fuel ->
         getNodesBetween fuel d (JNode s) (JNode e) = Some (Return mid)).
Proof.
  assert (Hreach : forall mid, same_parent d s e -> between d s mid e ->
     forall fuel, List.length mid < fuel ->
       getNodesBetween fuel d (JNode s) (JNode e) = Some (Return mid)).
  { intros mid Hsame [Hp Hnot] fuel Hfuel.
    rewrite same_parent_dispatch by assumption.
    apply (walk_reaches d e s mid Hp Hnot [] fuel Hfuel). }
  split; [exact Hreach|].
  split; [|split; [|split]];
    [| | |intros p pre mid post Hkids fuel Hfuel;
          destruct (children_between d p mid pre s e post Hkids) as [Hsp Hb];
          exact (Hreach mid Hsp Hb fuel Hfuel)].
  - intros fuel r H. unfold getNodesBetween in H.
    destruct (parentNode d s) as [ps|] eqn:Hs; [|discriminate].
    destruct (parentNode d e) as [pe|] eqn:He; [|discriminate].
    destruct (Nat.eqb ps pe) eqn:Hpp; [|discriminate].
    apply Nat.eqb_eq in Hpp. subst pe. split.
    + exists ps. split; assumption.
    + simpl in H. apply walk_sound in H. destruct H as [mid [-> Hb]]. exact Hb.
  - intros H fuel. unfold getNodesBetween.
    destruct (parentNode d s) as [ps|]; [|reflexivity].
    destruct (parentNode d e) as [pe|]; [|reflexivity].
    destruct (Nat.eqb ps pe) eqn:Hpp; [|reflexivity].
    apply Nat.eqb_eq in Hpp. subst pe.
    destruct H as [H|[H|H]]; try discriminate. congruence.
  - intros visited [Hp Hnot] fuel Hfuel. unfold getNodesBetween.
    destruct (parentNode d s) as [ps|]; [|reflexivity].
    destruct (parentNode d e) as [pe|]; [|reflexivity].
    destruct (Nat.eqb ps pe); [|reflexivity].
    simpl. apply (walk_runs_out d e s visited Hp Hnot [] fuel Hfuel).
Qed.

(** The function at work on [sample]: between the children 1 and 4 lie 2 and
    3; walking from 3 never meets 2; node 9 has no parent. *)
Lemma getNodesBetween_spec_witness :
  getNodesBetween 3 sample (JNode 1) (JNode 4) = Some (Return [2; 3])
  /\ getNodesBetween 3 sample (JNode 3) (JNode 2)
     = Some (Throw (Error unreachable_msg))
  /\ getNodesBetween 0 sample (JNode 9) (JNode 2)
     = Some (Throw (Error unreachable_msg))
  /\ (child_list sample 0 [1; 2; 3; 4]
      /\ getNodesBetween 2 sample (JNode 2) (JNode 4) = Some (Return [3])).
Proof.
  destruct (getNodesBetween_spec sample 1 4) as [Hok _].
  destruct (getNodesBetween_spec sample 3 2) as [_ [_ [_ [Hout _]]]].
  destruct (getNodesBetween_spec sample 9 2) as [_ [_ [Hnull _]]].
  destruct (getNodesBetween_spec sample 2 4) as [_ [_ [_ [_ Hkids]]]].
  assert (Hsample : child_list sample 0 [1; 2; 3; 4]).
  { split.
    - repeat constructor; simpl; intuition discriminate.
    - intros i n.
      do 4 (destruct i as [|i]; [intros [= <-]; split; reflexivity|]).
      destruct i; discriminate. }
  split; [|split; [|split; [|split; [exact Hsample|]]]];
    [| | |apply (Hkids 0 [1] [3] []); [exact Hsample|simpl; lia]].
  - apply Hok.
    + exists 0. split; reflexivity.
    + split.
      * apply sib_step with (c := 2); [reflexivity|].
        apply sib_step with (c := 3); [reflexivity|].
        apply sib_here. reflexivity.
      * simpl. intros [H|[H|[]]]; discriminate.
    + simpl. lia.
  - apply (Hout [4]).
    + split.
      * apply sib_step with (c := 4); [reflexivity|]. apply sib_here. reflexivity.
      * simpl. intros [H|[]]. discriminate.
    + simpl. lia.
  - apply Hnull. left. reflexivity.
Defined.

End Dom.

(* ================================================================== *)
(** * Part II: the descriptor handling of [el]                         *)
(* ================================================================== *)

Module El.

(** What a call can throw: the two errors that [el] makes itself, and the
    [DOMException] of the browser (its [name] is 'SyntaxError' when
    [document.querySelector] is handed a string that is no valid selector). *)
Inductive exn : Type :=
| TypeError (msg : string)
| Error (msg : string)
| DOMException (name : string).

Inductive completion (A : Type) : Type :=
| Return (a : A)
| Throw (e : exn).
Arguments Return {A} a.
Arguments Throw {A} e.

(** The manually compiled list of valid HTML tags of utils.js. *)
Definition VALID_HTML_TAGS : list string := [
  "a"; "abbr"; "acronym"; "address"; "applet"; "area"; "article"; "aside";
  "audio"; "b"; "base"; "basefont"; "bdi"; "bdo"; "bgsound"; "big";
  "blockquote"; "body"; "br"; "button"; "canvas"; "caption"; "center";
  "cite"; "code"; "col"; "colgroup"; "command"; "data"; "datagrid";
  "datalist"; "dd"; "del"; "details"; "dfn"; "dialog"; "dir"; "div"; "dl";
  "dt"; "em"; "embed"; "eventsource"; "fieldset"; "figcaption"; "figure";
  "font"; "footer"; "form"; "frame"; "frameset"; "h1"; "h2"; "h3"; "h4";
  "h5"; "h6"; "head"; "header"; "hgroup"; "hr"; "html"; "i"; "iframe";
  "img"; "input"; "ins"; "isindex"; "kbd"; "keygen"; "label"; "legend";
  "li"; "link"; "listing"; "main"; "map"; "mark"; "menu"; "menuitem";
  "meta"; "meter"; "nav"; "noframes"; "noscript"; "object"; "ol";
  "optgroup"; "option"; "output"; "p"; "param"; "plaintext"; "pre";
  "progress"; "q"; "ruby"; "rp"; "rt"; "s"; "samp"; "script"; "section";
  "select"; "small"; "source"; "span"; "strike"; "strong"; "style"; "sub";
  "summary"; "sup"; "table"; "tbody"; "td"; "textarea"; "tfoot"; "th";
  "thead"; "time"; "title"; "tr"; "track"; "tt"; "u"; "ul"; "var"; "video";
  "wbr"; "xmp"
]%string.

(** An element: its identity, the tag it was created with and its class
    attribute. *)
Record element : Type := {
  node_id : nat;
  tag : string;
  className : string
}.

(** The part of the browser's [document] that [el] talks to: the selector
    lookup, and the supply of identities for elements that
    [document.createElement] makes.  [document.querySelector] returns the
    first matching element, returns [null] when nothing matches, and throws
    when the string is not a valid selector. *)
Record document : Type := {
  querySelector : string -> completion (option element);
  next_id : nat
}.

Definition createElement (d : document) (t : string) : element * document :=
  ({| node_id := next_id d; tag := t; className := EmptyString |},
   {| querySelector := querySelector d; next_id := S (next_id d) |}).

(** The values a descriptor can be: an [Element], a string, anything else. *)
Inductive jsval : Type :=
| JElement (e : element)
| JString (s : string)
| JOther.

(** [/^[.#]/.test(testString)] on a non-empty string. *)
Definition isTreatedAsQuerySelector (testString : jsval) : bool :=
  match testString with
  | JString EmptyString => false
  | JString (String c _) => Ascii.eqb c "."%char || Ascii.eqb c "#"%char
  | _ => false
  end.

(** [s.split(' ')]: the pieces of [s] between single spaces; never empty. *)
Fixpoint split_space (s : string) : list string :=
  match s with
  | EmptyString => [EmptyString]
  | String c rest =>
      if Ascii.eqb c " "%char then EmptyString :: split_space rest
      else match split_space rest with
           | w :: ws => String c w :: ws
           | [] => [String c EmptyString]
           end
  end.

Definition includes (l : list string) (x : string) : bool :=
  existsb (String.eqb x) l.

Definition dquote : string := String (ascii_of_nat 34) EmptyString.

Definition not_found_msg (descriptor : string) : string :=
  ("el descriptor selector " ++ dquote ++ descriptor ++ dquote ++ " not found")%string.

(** The set-up of the root element [self] in [el], for a call without
    children ([append] of an empty argument list does nothing, and observing
    [self] with the bookmark observer does not change it).  The function
    returns the completion together with the document after the call. *)
Definition el (d : document) (descriptor : jsval) : completion element * document :=
  match descriptor with
  | JElement e => (Return e, d)
  | JString s =>
      if isTreatedAsQuerySelector descriptor then
        match querySelector d s with
        | Return (Some self) => (Return self, d)
        | Return None => (Throw (Error (not_found_msg s)), d)
        | Throw e => (Throw e, d)
        end
      else
        let firstWord := hd EmptyString (split_space s) in
        let t := if includes VALID_HTML_TAGS firstWord then firstWord
                 else "div"%string in
        let '(newElement, d') := createElement d t in
        (Return {| node_id := node_id newElement; tag := tag newElement;
                   className := s |}, d')
  | JOther => (Throw (TypeError "el descriptor expects a String or an Element"%string), d)
  end.

(** ** Specification vocabulary *)

Definition fmap_tag (c : completion element) : option string :=
  match c with
  | Return e => Some (tag e)
  | Throw _ => None
  end.

Fixpoint has_space (s : string) : bool :=
  match s with
  | EmptyString => false
  | String c rest => Ascii.eqb c " "%char || has_space rest
  end.

(** [w] is the first space-separated word of [s]: [s] is [w] followed by
    nothing, or by a space and the remainder, and [w] has no space. *)
Definition first_word_of (s w : string) : Prop :=
  has_space w = false /\
  (s = w \/ exists rest, s = (w ++ String " "%char rest)%string).

(** A document in which no selector matches; the next element gets the
    identity 7. *)
Definition empty_document : document :=
  {| querySelector := fun _ => Return None; next_id := 7 |}.

(** A document with one element, [<div id="app">]: the selector '#app'
    finds it, a lone '#' or '.' and '#1a' are no selectors, and every other
    string matches nothing. *)
Definition app : element :=
  {| node_id := 0; tag := "div"; className := EmptyString |}.

Definition app_document : document :=
  {| querySelector := fun s =>
       if String.eqb s "#app" then Return (Some app)
       else if String.eqb s "#" || String.eqb s "." || String.eqb s "#1a"
            then Throw (DOMException "SyntaxError")
            else Return None;
     next_id := 7 |}.

Lemma split_space_nonempty s : split_space s <> [].
Proof.
  destruct s as [|c rest]; simpl; [discriminate|].
  destruct (Ascii.eqb c " "); [discriminate|].
  destruct (split_space rest); discriminate.
Qed.

Lemma split_space_first s : first_word_of s (hd EmptyString (split_space s)).
Proof.
  induction s as [|c rest IH]; simpl.
  - split; [reflexivity|left; reflexivity].
  - destruct (Ascii.eqb c " ") eqn:Hc.
    + apply Ascii.eqb_eq in Hc. subst c. simpl. split; [reflexivity|].
      right. exists rest. reflexivity.
    + destruct (split_space rest) as [|w ws] eqn:Hs.
      * exfalso. exact (split_space_nonempty rest Hs).
      * destruct IH as [Hw Hrest]. split.
        -- change (Ascii.eqb c " " || has_space w = false).
           rewrite Hc. exact Hw.
        -- change (hd EmptyString (w :: ws)) with w in Hrest.
           change (hd EmptyString (String c w :: ws)) with (String c w).
           destruct Hrest as [->|[r ->]]; [left; reflexivity|].
           right. exists r. reflexivity.
Qed.

Lemma includes_In l x : includes l x = true <-> In x l.
Proof.
  unfold includes. rewrite existsb_exists. split.
  - intros [y [Hin Heq]]. apply String.eqb_eq in Heq. subst. exact Hin.
  - intros Hin. exists x. split; [exact Hin|apply String.eqb_refl].
Qed.

Lemma prefix_char a s :
  String.prefix (String a EmptyString) s
  = match s with
    | EmptyString => false
    | String c _ => Ascii.eqb c a
    end.
Proof.
  destruct s as [|c rest]; [reflexivity|].
  cbn [String.prefix].
  destruct (ascii_dec a c) as [E|E].
  - subst c. rewrite Ascii.eqb_refl. destruct rest; reflexivity.
  - destruct (Ascii.eqb_spec c a) as [E'|E']; [congruence|reflexivity].
Qed.

Lemma selector_prefix s :
  s <> EmptyString ->
  isTreatedAsQuerySelector (JString s)
  = String.prefix "." s || String.prefix "#" s.
Proof.
  intros Hne. rewrite !prefix_char.
  destruct s as [|c rest]; [congruence|]. reflexivity.
Qed.

(** C10.  A non-empty descriptor string that starts with neither '.' nor '#'
    makes [el] create a new element, whatever the document's selector lookup
    would answer: its identity is the fresh one, its tag is the first
    space-separated word of the descriptor when that word is one of
    [VALID_HTML_TAGS] and 'div' otherwise, and its class name is the whole
    descriptor.  A descriptor starting with '.' or '#' is handed to
    [querySelector] instead: [el] returns the element found, throws the
    [Error] 'not found' when the lookup returns no element, and when the
    lookup itself throws (the string is no valid selector) that exception
    leaves [el]; in no case is the document changed. *)
Theorem el_descriptor (d : document) (s : string) (Hne : s <> EmptyString) :
  (String.prefix "." s = false -> String.prefix "#" s = false ->
     exists w,
       first_word_of s w /\
       el d (JString s)
       = (Return {| node_id := next_id d;
                    tag := if includes VALID_HTML_TAGS w then w else "div"%string;
                    className := s |},
          {| querySelector := querySelector d; next_id := S (next_id d) |}) /\
       (In w VALID_HTML_TAGS ->
          fmap_tag (fst (el d (JString s))) = Some w) /\
       (~ In w VALID_HTML_TAGS ->
          fmap_tag (fst (el d (JString s))) = Some "div"%string))
  /\ (String.prefix "." s = true \/ String.prefix "#" s = true ->
       el d (JString s)
       = match querySelector d s with
         | Return (Some self) => (Return self, d)
         | Return None => (Throw (Error (not_found_msg s)), d)
         | Throw e => (Throw e, d)
         end).
Proof.
  pose proof (selector_prefix s Hne) as Hsel. split.
  - intros Hdot Hhash. rewrite Hdot, Hhash in Hsel.
    change (false || false) with false in Hsel.
    exists (hd EmptyString (split_space s)).
    split; [apply split_space_first|].
    unfold el. rewrite Hsel. cbn [createElement node_id tag fst fmap_tag].
    split; [reflexivity|]. split.
    + intros Hin. apply includes_In in Hin. rewrite Hin. reflexivity.
    + intros Hnin. destruct (includes VALID_HTML_TAGS _) eqn:Hi; [|reflexivity].
      apply includes_In in Hi. contradiction.
  - intros Hpre. unfold el. rewrite Hsel.
    destruct Hpre as [-> | ->]; [reflexivity|].
    rewrite orb_true_r. reflexivity.
Qed.

(** Five descriptors: a tag with classes, a class-only descriptor, a
    selector that matches nothing, one that matches, and a string that
    starts with '#' but is no selector. *)
Example el_h1 :
  fst (el empty_document (JString "h1 foo bar"))
  = Return {| node_id := 7; tag := "h1"; className := "h1 foo bar" |}.
Proof. reflexivity. Qed.

Example el_class_only :
  fst (el empty_document (JString "foo bar"))
  = Return {| node_id := 7; tag := "div"; className := "foo bar" |}.
Proof. reflexivity. Qed.

Example el_selector_missing :
  fst (el empty_document (JString "#app"))
  = Throw (Error (not_found_msg "#app")).
Proof. reflexivity. Qed.

Example el_selector_found :
  el app_document (JString "#app") = (Return app, app_document).
Proof. reflexivity. Qed.

Example el_selector_invalid :
  el app_document (JString "#")
  = (Throw (DOMException "SyntaxError"), app_document).
Proof. reflexivity. Qed.

Lemma el_descriptor_witness :
  "h1 foo bar"%string <> EmptyString /\
  exists w, first_word_of "h1 foo bar" w /\
    fmap_tag (fst (el empty_document (JString "h1 foo bar"))) = Some "h1"%string.
Proof.
  split; [discriminate|].
  destruct (el_descriptor empty_document "h1 foo bar"%string) as [Hnew _];
    [discriminate|].
  destruct (Hnew eq_refl eq_refl) as [w [Hw [Hel _]]].
  exists w. split; [exact Hw|]. reflexivity.
Defined.

End El.

(* ================================================================== *)
(** * Part III: the reactive core                                      *)
(* ================================================================== *)

(** The engine (Reactor proxy, cell registry, current-observer stack, observer
    runtime, batching) is modelled from the design specification: the test
    suite of the engine is in the source tree, its implementation is not.

    User code (the body of an observer, the argument of [hide] and [batch], a
    test script) is a value of type [prog]: a tree of engine calls in
    continuation-passing style.  The interpreter [exec] runs a program against
    the engine state.

    Sources are plain data objects.  Accessor properties, non-writable
    properties, [defineProperty], host objects with internal slots (Map,
    Array) and the weak ownership of the registry are outside the model. *)

Module Reactor.

Abbreviation addr := nat (only parsing).   (* a source object *)
Abbreviation wid := nat (only parsing).    (* a Reactor wrapper *)
Abbreviation oid := nat (only parsing).    (* an observer *)
Abbreviation key := string (only parsing).

(** Modelled from the spec: the values that reach the engine (reactor.js).
    JavaScript values.  [VObj a] is a reference to the plain object at
    address [a]; [VProxy w] is a reference to the wrapper [w]. *)
Inductive value : Type :=
| VUndef
| VBool (b : bool)
| VNum (z : Z)
| VStr (s : string)
| VObj (a : addr)
| VProxy (w : wid).

(** Strict equality [===]. *)
Definition value_eqb (x y : value) : bool :=
  match x, y with
  | VUndef, VUndef => true
  | VBool a, VBool b => Bool.eqb a b
  | VNum a, VNum b => Z.eqb a b
  | VStr a, VStr b => String.eqb a b
  | VObj a, VObj b => Nat.eqb a b
  | VProxy a, VProxy b => Nat.eqb a b
  | _, _ => false
  end.

(** Modelled from the spec: the errors the engine raises (reactor.js).
    Errors.  A composite error carries the list of its causes. *)
#[warnings="-register-all"]
Inductive error : Type :=
| Error (msg : string)
| TypeError (msg : string)
| CompoundError (cause : list error).

(** Modelled from the spec: the access keys of the cell registry (reactor.js).
    Access keys: a property name, the existence of a property, the set of own
    keys.  A cell is a source together with an access key. *)
Inductive access : Type :=
| Value (k : key)
| HAS (k : key)
| OWN_KEYS.

Definition cell : Type := addr * access.

Definition access_eqb (x y : access) : bool :=
  match x, y with
  | Value a, Value b => String.eqb a b
  | HAS a, HAS b => String.eqb a b
  | OWN_KEYS, OWN_KEYS => true
  | _, _ => false
  end.

Definition cell_eqb (x y : cell) : bool :=
  Nat.eqb (fst x) (fst y) && access_eqb (snd x) (snd y).

(** ** Programs *)

(** User code as a tree of engine calls.  A continuation receives what the
    call returned; [Hide] and [Batch] take the program they run. *)
Inductive prog : Type :=
| Ret (v : value)                                        (* return v *)
| Throw (e : error)                                      (* throw e *)
| Get (w : wid) (k : key) (cont : value -> prog)         (* w[k] *)
| Has (w : wid) (k : key) (cont : bool -> prog)          (* k in w *)
| OwnKeys (w : wid) (cont : list key -> prog)            (* Object.keys(w) *)
| Put (w : wid) (k : key) (v : value) (cont : prog)      (* w[k] = v *)
| Delete (w : wid) (k : key) (cont : prog)               (* delete w[k] *)
| Hide (f : prog) (cont : value -> prog)                 (* hide(f) *)
| Batch (f : prog) (cont : value -> prog)                (* batch(f) *)
| Invoke (o : oid) (this : value) (args : list value)
         (cont : value -> prog)                          (* o.apply(this, args) *)
| Start (o : oid) (cont : prog)                          (* o.start() *)
| Stop (o : oid) (cont : prog)                           (* o.stop() *)
| SetExecute (o : oid) (f : value -> list value -> prog)
             (cont : prog).                              (* o.execute = f *)

(** ** The data model (section 3 of the design) *)

(** Modelled from the spec: the states of an observer (reactor.js). *)
Inductive status : Type := idle | running | stopped.

(** Modelled from the spec: the observer record (reactor.js).
    The observer record: the bound body, the last returned value, the state,
    and the [this] and arguments of the most recent invocation.  The
    dependency set of an observer is kept in the subscription relation
    [edges] below. *)
Record observer : Type := {
  execute : value -> list value -> prog;
  last_value : value;
  ostatus : status;
  this_arg : value;
  call_args : list value
}.

(** Modelled from the spec: the current-observer stack (reactor.js).
    A frame of the current-observer stack: an executing observer, or the mark
    left by [hide] under which reads do not subscribe. *)
Inductive frame : Type :=
| Active (o : oid)
| Hidden.

(** Instrumentation.  An entry of the run log: observer [o] was run with this
    [this] and these arguments.  The log plays the part of the counters that
    the bodies of the test-suite increment. *)
Inductive event : Type :=
| Ran (o : oid) (this : value) (args : list value).

(** A plain object: its own properties in creation order. *)
Definition object : Type := list (key * value).

(** Modelled from the spec: the process-wide state (reactor.js). *)
Record state : Type := {
  heap : list object;              (* source objects, by address *)
  wrappers : list addr;            (* canonical mapping: wrapper [w] <-> source [nth w] *)
  observers : list observer;       (* observer records, by identity *)
  edges : list (cell * oid);       (* subscriptions, in insertion order *)
  pending : list oid;              (* the pending queue *)
  depth : nat;                     (* the batch depth *)
  stack : list frame;              (* the current-observer stack, top first *)
  log : list event
}.

Definition with_heap (h : list object) (s : state) : state :=
  {| heap := h; wrappers := wrappers s; observers := observers s;
     edges := edges s; pending := pending s; depth := depth s;
     stack := stack s; log := log s |}.
Definition with_wrappers (x : list addr) (s : state) : state :=
  {| heap := heap s; wrappers := x; observers := observers s;
     edges := edges s; pending := pending s; depth := depth s;
     stack := stack s; log := log s |}.
Definition with_observers (x : list observer) (s : state) : state :=
  {| heap := heap s; wrappers := wrappers s; observers := x;
     edges := edges s; pending := pending s; depth := depth s;
     stack := stack s; log := log s |}.
Definition with_edges (x : list (cell * oid)) (s : state) : state :=
  {| heap := heap s; wrappers := wrappers s; observers := observers s;
     edges := x; pending := pending s; depth := depth s;
     stack := stack s; log := log s |}.
Definition with_pending (x : list oid) (s : state) : state :=
  {| heap := heap s; wrappers := wrappers s; observers := observers s;
     edges := edges s; pending := x; depth := depth s;
     stack := stack s; log := log s |}.
Definition with_depth (x : nat) (s : state) : state :=
  {| heap := heap s; wrappers := wrappers s; observers := observers s;
     edges := edges s; pending := pending s; depth := x;
     stack := stack s; log := log s |}.
Definition with_stack (x : list frame) (s : state) : state :=
  {| heap := heap s; wrappers := wrappers s; observers := observers s;
     edges := edges s; pending := pending s; depth := depth s;
     stack := x; log := log s |}.
Definition with_log (x : list event) (s : state) : state :=
  {| heap := heap s; wrappers := wrappers s; observers := observers s;
     edges := edges s; pending := pending s; depth := depth s;
     stack := stack s; log := x |}.

Definition empty_state : state :=
  {| heap := []; wrappers := []; observers := []; edges := [];
     pending := []; depth := 0; stack := []; log := [] |}.

(** The result of running engine code: normal completion with a value, a
    thrown error, or exhaustion of the step bound. *)
Inductive outcome (A : Type) : Type :=
| Done (a : A) (s : state)
| Raise (e : error) (s : state)
| OutOfFuel.
Arguments Done {A} a s.
Arguments Raise {A} e s.
Arguments OutOfFuel {A}.

Definition bind {A B : Type} (m : outcome A) (k : A -> state -> outcome B)
  : outcome B :=
  match m with
  | Done a s => k a s
  | Raise e s => Raise e s
  | OutOfFuel => OutOfFuel
  end.

(** ** Plain objects *)

Fixpoint lookup (o : object) (k : key) : option value :=
  match o with
  | [] => None
  | (k', v) :: rest => if String.eqb k' k then Some v else lookup rest k
  end.

Definition read (o : object) (k : key) : value :=
  match lookup o k with Some v => v | None => VUndef end.

Definition has_key (o : object) (k : key) : bool :=
  match lookup o k with Some _ => true | None => false end.

Definition own_keys (o : object) : list key := map fst o.

(** [o[k] = v] on a plain object: an existing property keeps its place, a new
    one is added last. *)
Fixpoint assign (o : object) (k : key) (v : value) : object :=
  match o with
  | [] => [(k, v)]
  | (k', v') :: rest =>
      if String.eqb k' k then (k', v) :: rest else (k', v') :: assign rest k v
  end.

Definition remove (o : object) (k : key) : object :=
  filter (fun kv => negb (String.eqb (fst kv) k)) o.

Definition mem_key (k : key) (l : list key) : bool := existsb (String.eqb k) l.

(** Equality of key lists as sets, order irrelevant. *)
Definition same_key_set (l1 l2 : list key) : bool :=
  forallb (fun k => mem_key k l2) l1 && forallb (fun k => mem_key k l1) l2.

Fixpoint update_nth {A : Type} (n : nat) (x : A) (l : list A) : list A :=
  match l, n with
  | [], _ => []
  | _ :: t, O => x :: t
  | h :: t, S n' => h :: update_nth n' x t
  end.

Definition object_at (s : state) (a : addr) : object := nth a (heap s) [].

(** Allocation of a fresh plain object. *)
Definition alloc (o : object) (s : state) : addr * state :=
  (List.length (heap s), with_heap (heap s ++ [o]) s).

(** ** The canonical mapping between sources and wrappers

    "The core stores a canonical bidirectional mapping source <-> wrapper:
    constructing a Reactor over a source already wrapped returns the existing
    wrapper.  Non-object inputs are rejected."  A wrapper is identified by its
    position in [wrappers]; the source at that position is the one it
    mediates. *)

Fixpoint index_of (a : addr) (l : list addr) : option nat :=
  match l with
  | [] => None
  | x :: rest =>
      if Nat.eqb x a then Some 0
      else match index_of a rest with
           | Some i => Some (S i)
           | None => None
           end
  end.

(** Modelled from the spec: the source side of the canonical mapping (reactor.js).
    The source that wrapper [w] mediates. *)
Definition source_of (s : state) (w : wid) : option addr :=
  nth_error (wrappers s) w.

(** Modelled from the spec: the canonical mapping, wrapper side (reactor.js).
    The wrapper of source [a], made on first use. *)
Definition wrap (a : addr) (s : state) : wid * state :=
  match index_of a (wrappers s) with
  | Some w => (w, s)
  | None => (List.length (wrappers s), with_wrappers (wrappers s ++ [a]) s)
  end.

Definition non_object_msg : string :=
  "Cannot create proxy with a non-object as target or handler"%string.

(** Modelled from the spec: the Reactor constructor (reactor.js).
    [new Reactor(x)]: [None] is the call without argument, which wraps a fresh
    empty object.  A wrapper handed to the constructor is returned as it is. *)
Definition Reactor (x : option value) (s : state) : outcome value :=
  match x with
  | None =>
      let '(a, s1) := alloc [] s in
      let '(w, s2) := wrap a s1 in Done (VProxy w) s2
  | Some (VObj a) => let '(w, s1) := wrap a s in Done (VProxy w) s1
  | Some (VProxy w) => Done (VProxy w) s
  | Some _ => Raise (TypeError non_object_msg) s
  end.

(** Modelled from the spec: shuck (reactor.js).
    [shuck(x)]: the source beneath a wrapper, else [x] unchanged. *)
Definition shuck (x : value) (s : state) : value :=
  match x with
  | VProxy w => match source_of s w with Some a => VObj a | None => x end
  | _ => x
  end.

(** ** The cell registry (section 4.3)

    One relation [edges] between cells and observers stands for the two
    indexes of the design (cell to subscribers, observer to cells);
    "subscribe adds bidirectional edges" adds a pair to it. *)

Definition edge_eqb (x y : cell * oid) : bool :=
  cell_eqb (fst x) (fst y) && Nat.eqb (snd x) (snd y).

(** Modelled from the spec: subscribe of the cell registry (reactor.js).
    "subscribe(observer, source, key): adds bidirectional edges"; an edge
    that exists is not added twice. *)
Definition subscribe (o : oid) (c : cell) (s : state) : state :=
  if existsb (edge_eqb (c, o)) (edges s) then s
  else with_edges (edges s ++ [(c, o)]) s.

(** Modelled from the spec: unsubscribeAll of the cell registry (reactor.js).
    "unsubscribeAll(observer): removes the observer from every cell it was
    subscribed to". *)
Definition unsubscribe_all (o : oid) (s : state) : state :=
  with_edges (filter (fun e => negb (Nat.eqb (snd e) o)) (edges s)) s.

(** Modelled from the spec: collect of the cell registry (reactor.js).
    [collect]: a snapshot of the subscribers of a cell, in subscription
    order. *)
Definition collect (c : cell) (s : state) : list oid :=
  map snd (filter (fun e => cell_eqb (fst e) c) (edges s)).

(** Modelled from the spec: the inverse index of the cell registry (reactor.js).
    The cells an observer is subscribed to. *)
Definition dependencies (o : oid) (s : state) : list cell :=
  map fst (filter (fun e => Nat.eqb (snd e) o) (edges s)).

(** ** Observer records *)

Definition status_of (s : state) (o : oid) : option status :=
  option_map ostatus (nth_error (observers s) o).

(** Modelled from the spec: updates of the observer record (reactor.js).
    Updating the record of observer [o]. *)
Definition modify (o : oid) (g : observer -> observer) (s : state) : state :=
  match nth_error (observers s) o with
  | Some ob => with_observers (update_nth o (g ob) (observers s)) s
  | None => s
  end.

Definition put_status (st : status) (ob : observer) : observer :=
  {| execute := execute ob; last_value := last_value ob; ostatus := st;
     this_arg := this_arg ob; call_args := call_args ob |}.

Definition put_value (v : value) (ob : observer) : observer :=
  {| execute := execute ob; last_value := v; ostatus := ostatus ob;
     this_arg := this_arg ob; call_args := call_args ob |}.

Definition put_body (f : value -> list value -> prog) (ob : observer)
  : observer :=
  {| execute := f; last_value := last_value ob; ostatus := ostatus ob;
     this_arg := this_arg ob; call_args := call_args ob |}.

Definition put_call (this : value) (args : list value) (ob : observer)
  : observer :=
  {| execute := execute ob; last_value := last_value ob; ostatus := ostatus ob;
     this_arg := this; call_args := args |}.

Definition set_status (o : oid) (st : status) : state -> state :=
  modify o (put_status st).

Definition set_last_value (o : oid) (v : value) : state -> state :=
  modify o (put_value v).

Definition set_body (o : oid) (f : value -> list value -> prog)
  : state -> state :=
  modify o (put_body f).

(** An invocation captures [this] and the arguments. *)
Definition capture (o : oid) (this : value) (args : list value)
  : state -> state :=
  modify o (put_call this args).

(** Modelled from the spec: the Observer constructor (reactor.js).
    [new Observer(f)]: the record of a fresh observer.  It has not run yet and
    owns no subscription; the first call or [start()] runs it (elementary.js
    kicks off its [metaObserver] with [start()] right after constructing
    it). *)
Definition new_observer (f : value -> list value -> prog) (s : state)
  : oid * state :=
  (List.length (observers s),
   with_observers
     (observers s ++ [{| execute := f; last_value := VUndef; ostatus := stopped;
                         this_arg := VUndef; call_args := [] |}]) s).

(** ** The current-observer stack (section 4.2) *)

Definition push (f : frame) (s : state) : state := with_stack (f :: stack s) s.
Definition pop (s : state) : state := with_stack (tl (stack s)) s.

(** Modelled from the spec: the top of the current-observer stack (reactor.js).
    The observer that a read subscribes: "the current stack top [if it] is an
    active, non-hidden observer". *)
Definition current_observer (s : state) : option oid :=
  match stack s with
  | Active o :: _ =>
      match status_of s o with
      | Some stopped | None => None
      | Some _ => Some o
      end
  | _ => None
  end.

(** Modelled from the spec: the registration made by a read trap (reactor.js).
    A read subscribes the current observer, if any, to the cell it reads. *)
Definition track (c : cell) (s : state) : state :=
  match current_observer s with
  | Some o => subscribe o c s
  | None => s
  end.

(** ** The pending queue and the batch depth *)

Definition mem_oid (o : oid) (l : list oid) : bool := existsb (Nat.eqb o) l.

(** Modelled from the spec: the de-duplicating pending queue (reactor.js).
    "enqueue it on the pending queue (deduplicated)": an observer that is
    already waiting keeps its place. *)
Definition enqueue (o : oid) (s : state) : state :=
  if mem_oid o (pending s) then s else with_pending (pending s ++ [o]) s.

(** Modelled from the spec: the notification of a cell (reactor.js).
    Scheduling the subscribers of one cell. *)
Definition schedule (c : cell) (s : state) : state :=
  fold_left (fun s' o => enqueue o s') (collect c s) s.

(** Modelled from the spec: the batch-depth counter (reactor.js).
    [enter] increments the depth, [leave] decrements it. *)
Definition enter (s : state) : state := with_depth (S (depth s)) s.
Definition leave (s : state) : state := with_depth (Nat.pred (depth s)) s.

Definition log_run (o : oid) (ob : observer) (s : state) : state :=
  with_log (log s ++ [Ran o (this_arg ob) (call_args ob)]) s.

(** ** Read traps (section 4.1) *)

(** Modelled from the spec: the get trap (reactor.js).
    get: register against the value cell, resolve the raw value, and return
    the wrapper of a raw object ("constructing one lazily and caching it under
    the canonical mapping"); everything else is returned as it is. *)
Definition get_trap (a : addr) (k : key) (s : state) : value * state :=
  let s1 := track (a, Value k) s in
  match read (object_at s1 a) k with
  | VObj b => let '(w, s2) := wrap b s1 in (VProxy w, s2)
  | v => (v, s1)
  end.

(** Modelled from the spec: the has trap (reactor.js).
    has: "register against (source, HAS(key)) and return the raw result". *)
Definition has_trap (a : addr) (k : key) (s : state) : bool * state :=
  (has_key (object_at s a) k, track (a, HAS k) s).

(** Modelled from the spec: the ownKeys trap (reactor.js).
    ownKeys: "register against (source, OWN_KEYS) and return the raw list". *)
Definition ownKeys_trap (a : addr) (s : state) : list key * state :=
  (own_keys (object_at s a), track (a, OWN_KEYS) s).

(** ** Error aggregation (section 7) *)

(** Modelled from the spec: the flattening of composite errors (reactor.js).
    "Composites inside causes are flattened one level." *)
Definition flatten (errs : list error) : list error :=
  flat_map (fun e => match e with
                     | CompoundError cause => cause
                     | _ => [e]
                     end) errs.

(** Modelled from the spec: the error policy of a drain (reactor.js).
    "At the end, if any occurred, one error is raised: single errors raise
    as-is, multiples raise as a composite." *)
Definition settle (errs : list error) (s : state) : outcome unit :=
  match errs with
  | [] => Done tt s
  | [e] => Raise e s
  | _ => Raise (CompoundError (flatten errs)) s
  end.

(** ** The observer runtime (section 4.4), the write traps and batching

    Running an observer body may write, a write may drain the queue, and a
    drain runs observer bodies.  The knot is tied by [exec] below; until then
    [run_body] stands for "run this body", and [bound] bounds the number of
    observers one drain may pop. *)

Section Engine.

Variable run_body : prog -> state -> outcome value.
Variable bound : nat.

(** Modelled from the spec: the run procedure (reactor.js).
    The run procedure: mark running, clear all prior subscriptions, push self,
    invoke the body with the saved [this] and arguments, pop self, mark idle
    and update the value.  "If the body throws, restore stack and state, clear
    subscriptions, and propagate the error to the run's caller." *)
Definition run_procedure (o : oid) (s : state) : outcome value :=
  match nth_error (observers s) o with
  | None => Raise (TypeError "not an observer") s
  | Some ob =>
      let s1 :=
        log_run o ob
          (push (Active o) (unsubscribe_all o (set_status o running s))) in
      match run_body (execute ob (this_arg ob) (call_args ob)) s1 with
      | Done v s2 => Done v (set_last_value o v (set_status o idle (pop s2)))
      | Raise e s2 =>
          Raise e (unsubscribe_all o
                     (set_status o (ostatus ob) (with_stack (stack s) s2)))
      | OutOfFuel => OutOfFuel
      end
  end.

(** Modelled from the spec: the drain of the pending queue (reactor.js).
    Draining: "pop front, if state is idle call the run procedure; if stopped
    skip".  "A drain that produces any error still runs every enqueued
    observer": the errors are collected in order. *)
Fixpoint drain_loop (n : nat) (errs : list error) (s : state)
  : outcome (list error) :=
  match n with
  | O => OutOfFuel
  | S n' =>
      match pending s with
      | [] => Done errs s
      | o :: rest =>
          let s1 := with_pending rest s in
          match status_of s1 o with
          | Some idle =>
              match run_procedure o s1 with
              | Done _ s2 => drain_loop n' errs s2
              | Raise e s2 => drain_loop n' (errs ++ [e]) s2
              | OutOfFuel => OutOfFuel
              end
          | _ => drain_loop n' errs s1
          end
      end
  end.

(** Modelled from the spec: the drain, with its deferral (reactor.js).
    A drain holds the depth while it runs observers, so that their writes are
    "added to the pending queue and drained after the current observer
    finishes"; it then raises what was collected. *)
Definition drain (s : state) : outcome unit :=
  match drain_loop bound [] (enter s) with
  | Done errs s1 => settle errs (leave s1)
  | Raise e s1 => Raise e (leave s1)
  | OutOfFuel => OutOfFuel
  end.

(** Modelled from the spec: the drain condition (reactor.js).
    "If batch-depth is zero, drain the queue." *)
Definition flush (s : state) : outcome unit :=
  if Nat.eqb (depth s) 0 then drain s else Done tt s.

(** Modelled from the spec: the set trap (reactor.js).
    The set trap: compute the old value, perform the assignment, and compare.
    "If, after the assignment, the effective value is strictly equal to the
    old value AND the set of own keys of the source is unchanged AND the
    existence of key is unchanged, emit no notifications.  Otherwise, notify:
    the value cell, the HAS(key) cell only if existence changed, and the
    OWN_KEYS cell only if the own-key set changed."  The subscribers of the
    notified cells are scheduled, then the queue is drained unless a batch is
    open ("a write ... schedules them on the pending queue, and (outside a
    batch) drains that queue"). *)
Definition set_trap (a : addr) (k : key) (v : value) (s : state)
  : outcome unit :=
  let old := object_at s a in
  let s1 := with_heap (update_nth a (assign old k v) (heap s)) s in
  let new := object_at s1 a in
  let same_value := value_eqb (read new k) (read old k) in
  let same_has := Bool.eqb (has_key new k) (has_key old k) in
  let same_keys := same_key_set (own_keys new) (own_keys old) in
  if same_value && same_keys && same_has then Done tt s1
  else
    let s2 := schedule (a, Value k) s1 in
    let s3 := if same_has then s2 else schedule (a, HAS k) s2 in
    let s4 := if same_keys then s3 else schedule (a, OWN_KEYS) s3 in
    flush s4.

(** Modelled from the spec: the deleteProperty trap (reactor.js).
    deleteProperty "must notify exactly the cells whose observable projection
    changed". *)
Definition delete_trap (a : addr) (k : key) (s : state) : outcome unit :=
  let old := object_at s a in
  let s1 := with_heap (update_nth a (remove old k) (heap s)) s in
  let new := object_at s1 a in
  let same_value := value_eqb (read new k) (read old k) in
  let same_has := Bool.eqb (has_key new k) (has_key old k) in
  let same_keys := same_key_set (own_keys new) (own_keys old) in
  if same_value && same_keys && same_has then Done tt s1
  else
    let s2 := if same_value then s1 else schedule (a, Value k) s1 in
    let s3 := if same_has then s2 else schedule (a, HAS k) s2 in
    let s4 := if same_keys then s3 else schedule (a, OWN_KEYS) s3 in
    flush s4.

(** Modelled from the spec: runs that no drain started (reactor.js).
    A run that is not started by a drain (an invocation, [start()]).  The run
    procedure is "atomic from the pending queue's point of view": the depth is
    held for its duration and the queue is drained when the depth is back to
    zero.  On a thrown error the depth is restored and the error propagates. *)
Definition run_now (o : oid) (s : state) : outcome value :=
  match run_procedure o (enter s) with
  | Done v s1 => bind (flush (leave s1)) (fun _ s2 => Done v s2)
  | Raise e s1 => Raise e (leave s1)
  | OutOfFuel => OutOfFuel
  end.

(** Modelled from the spec: the invocation of an observer (reactor.js).
    Invoking an observer "captures this and args, runs f, returns f's return
    value". *)
Definition invoke (o : oid) (this : value) (args : list value) (s : state)
  : outcome value :=
  run_now o (capture o this args s).

(** Modelled from the spec: start() (reactor.js).
    start(): "transition stopped -> idle, then trigger one run using the most
    recent this and arguments.  Idempotent if already idle/running."  The run
    is made in a hidden scope. *)
Definition start (o : oid) (s : state) : outcome unit :=
  match status_of s o with
  | Some stopped =>
      match run_now o (push Hidden (set_status o idle s)) with
      | Done _ s1 => Done tt (pop s1)
      | Raise e s1 => Raise e (pop s1)
      | OutOfFuel => OutOfFuel
      end
  | Some _ => Done tt s
  | None => Raise (TypeError "not an observer") s
  end.

(** Modelled from the spec: stop() (reactor.js).
    stop(): "transition to stopped, clear subscriptions.  Idempotent." *)
Definition stop (o : oid) (s : state) : state :=
  unsubscribe_all o (set_status o stopped s).

(** Modelled from the spec: the execute setter (reactor.js).
    Assigning [execute]: "equivalent to atomically stop() -> replace body ->
    start()". *)
Definition set_execute (o : oid) (f : value -> list value -> prog) (s : state)
  : outcome unit :=
  start o (set_body o f (stop o s)).

Definition not_a_reactor : error := TypeError "not a Reactor".

(** Modelled from the spec: the traps, hide and batch as seen by user code (reactor.js).
    The interpreter of programs, by recursion on the program. *)
Fixpoint go (p : prog) (s : state) {struct p} : outcome value :=
  match p with
  | Ret v => Done v s
  | Throw e => Raise e s
  | Get w k cont =>
      match source_of s w with
      | None => Raise not_a_reactor s
      | Some a => let '(v, s1) := get_trap a k s in go (cont v) s1
      end
  | Has w k cont =>
      match source_of s w with
      | None => Raise not_a_reactor s
      | Some a => let '(b, s1) := has_trap a k s in go (cont b) s1
      end
  | OwnKeys w cont =>
      match source_of s w with
      | None => Raise not_a_reactor s
      | Some a => let '(ks, s1) := ownKeys_trap a s in go (cont ks) s1
      end
  | Put w k v cont =>
      match source_of s w with
      | None => Raise not_a_reactor s
      | Some a =>
          match set_trap a k v s with
          | Done _ s1 => go cont s1
          | Raise e s1 => Raise e s1
          | OutOfFuel => OutOfFuel
          end
      end
  | Delete w k cont =>
      match source_of s w with
      | None => Raise not_a_reactor s
      | Some a =>
          match delete_trap a k s with
          | Done _ s1 => go cont s1
          | Raise e s1 => Raise e s1
          | OutOfFuel => OutOfFuel
          end
      end
  | Hide f cont =>
      (* "restored on exit even if fn throws; hide returns fn's result" *)
      match go f (push Hidden s) with
      | Done v s1 => go (cont v) (pop s1)
      | Raise e s1 => Raise e (pop s1)
      | OutOfFuel => OutOfFuel
      end
  | Batch f cont =>
      (* "increments batch-depth, runs fn, decrements batch-depth, and if
         depth reaches zero drains the pending queue; returns fn's result and
         restores depth on thrown errors" *)
      match go f (enter s) with
      | Done v s1 =>
          match flush (leave s1) with
          | Done _ s2 => go (cont v) s2
          | Raise e s2 => Raise e s2
          | OutOfFuel => OutOfFuel
          end
      | Raise e s1 => Raise e (leave s1)
      | OutOfFuel => OutOfFuel
      end
  | Invoke o this args cont =>
      match invoke o this args s with
      | Done v s1 => go (cont v) s1
      | Raise e s1 => Raise e s1
      | OutOfFuel => OutOfFuel
      end
  | Start o cont =>
      match start o s with
      | Done _ s1 => go cont s1
      | Raise e s1 => Raise e s1
      | OutOfFuel => OutOfFuel
      end
  | Stop o cont => go cont (stop o s)
  | SetExecute o f cont =>
      match set_execute o f s with
      | Done _ s1 => go cont s1
      | Raise e s1 => Raise e s1
      | OutOfFuel => OutOfFuel
      end
  end.

End Engine.

(** Modelled from the spec: the engine as a whole (reactor.js).
    [exec fuel p s] runs program [p] from state [s].  [fuel] bounds the
    nesting of observer runs and the length of a drain. *)
Fixpoint exec (fuel : nat) : prog -> state -> outcome value :=
  match fuel with
  | O => fun _ _ => OutOfFuel
  | S fuel' => go (exec fuel') fuel'
  end.

(** Modelled from the spec: the execute and value getters (reactor.js).
    Reading [observer.execute] and [observer.value]. *)
Definition get_execute (o : oid) (s : state)
  : option (value -> list value -> prog) :=
  option_map execute (nth_error (observers s) o).

Definition get_value (o : oid) (s : state) : option value :=
  option_map last_value (nth_error (observers s) o).

(** How many times observer [o] has run. *)
Definition runs_of (o : oid) (l : list event) : nat :=
  List.length (filter (fun ev => match ev with Ran o' _ _ => Nat.eqb o' o end) l).

(** ** Classes of programs *)

(** Programs that only read Reactors (possibly under [hide]). *)
Inductive readonly : prog -> Prop :=
| ro_ret v : readonly (Ret v)
| ro_throw e : readonly (Throw e)
| ro_get w k cont : (forall v, readonly (cont v)) -> readonly (Get w k cont)
| ro_has w k cont : (forall b, readonly (cont b)) -> readonly (Has w k cont)
| ro_keys w cont : (forall ks, readonly (cont ks)) -> readonly (OwnKeys w cont)
| ro_hide f cont :
    readonly f -> (forall v, readonly (cont v)) -> readonly (Hide f cont).

(** Programs made of Reactor accesses only: reads, writes, deletions, [hide]
    and [batch]; they do not call, start, stop or redefine observers. *)
Inductive quiet : prog -> Prop :=
| q_ret v : quiet (Ret v)
| q_throw e : quiet (Throw e)
| q_get w k cont : (forall v, quiet (cont v)) -> quiet (Get w k cont)
| q_has w k cont : (forall b, quiet (cont b)) -> quiet (Has w k cont)
| q_keys w cont : (forall ks, quiet (cont ks)) -> quiet (OwnKeys w cont)
| q_put w k v cont : quiet cont -> quiet (Put w k v cont)
| q_delete w k cont : quiet cont -> quiet (Delete w k cont)
| q_hide f cont :
    quiet f -> (forall v, quiet (cont v)) -> quiet (Hide f cont)
| q_batch f cont :
    quiet f -> (forall v, quiet (cont v)) -> quiet (Batch f cont).

(** ** Vocabulary of the properties, and the scenarios of the test-suite *)

(** The bodies bound to the observers of a state. *)
Definition bodies (s : state) : list (value -> list value -> prog) :=
  map execute (observers s).

Definition all_readonly (s : state) : Prop :=
  Forall (fun f => forall this args, readonly (f this args)) (bodies s).

(** What holds of the state in which a computation ends, whether it returned
    or threw; running out of fuel is excluded. *)
Definition ends {A : Type} (P : state -> Prop) (r : outcome A) : Prop :=
  match r with
  | Done _ s' => P s'
  | Raise _ s' => P s'
  | OutOfFuel => False
  end.

Ltac unfold_updates :=
  unfold push, pop, enter, leave in *;
  unfold with_heap, with_wrappers, with_observers, with_edges, with_pending,
    with_depth, with_stack, with_log in *;
  cbn [heap wrappers observers edges pending depth stack log] in *.

(** [quiet_step s s']: nothing ran, the depth, the stack and the observer
    records are as before, the queue gained no duplicate, and the only
    subscriptions that changed are those of the observer on top of the stack
    (none when the top is hidden or absent). *)
Record quiet_step (s s' : state) : Prop := {
  qs_log : log s' = log s;
  qs_depth : depth s' = depth s;
  qs_stack : stack s' = stack s;
  qs_observers : observers s' = observers s;
  qs_nodup : NoDup (pending s) -> NoDup (pending s');
  qs_edges_none : current_observer s = None -> edges s' = edges s;
  qs_edges_other :
    forall o, current_observer s <> Some o ->
              dependencies o s' = dependencies o s
}.

(** [read_step s s']: as [quiet_step], and moreover the heap and the queue
    are untouched. *)
Record read_step (s s' : state) : Prop := {
  rs_heap : heap s' = heap s;
  rs_pending : pending s' = pending s;
  rs_log : log s' = log s;
  rs_depth : depth s' = depth s;
  rs_stack : stack s' = stack s;
  rs_observers : observers s' = observers s;
  rs_edges_none : current_observer s = None -> edges s' = edges s;
  rs_edges_other :
    forall o, current_observer s <> Some o ->
              dependencies o s' = dependencies o s
}.

(** What a drain or a [start()] must not change in an observer record: the
    body, the state, and the captured [this] and arguments. *)
Definition shape (ob : observer)
  : (value -> list value -> prog) * status * value * list value :=
  (execute ob, ostatus ob, this_arg ob, call_args ob).

Definition shapes (s : state) := map shape (observers s).

Definition resolve (h : list object) (ws : list nat) (a : addr) (k : key)
  : value * list nat :=
  match read (nth a h []) k with
  | VObj b =>
      match index_of b ws with
      | Some w => (VProxy w, ws)
      | None => (VProxy (List.length ws), ws ++ [b])
      end
  | v => (v, ws)
  end.

Fixpoint observe (p : prog) (h : list object) (ws : list nat)
  : list cell * option value * list nat :=
  match p with
  | Ret v => ([], Some v, ws)
  | Get w k cont =>
      match nth_error ws w with
      | None => ([], None, ws)
      | Some a =>
          let '(v, ws1) := resolve h ws a k in
          let '(cs, r, ws2) := observe (cont v) h ws1 in
          ((a, Value k) :: cs, r, ws2)
      end
  | Has w k cont =>
      match nth_error ws w with
      | None => ([], None, ws)
      | Some a =>
          let '(cs, r, ws2) := observe (cont (has_key (nth a h []) k)) h ws in
          ((a, HAS k) :: cs, r, ws2)
      end
  | OwnKeys w cont =>
      match nth_error ws w with
      | None => ([], None, ws)
      | Some a =>
          let '(cs, r, ws2) := observe (cont (own_keys (nth a h []))) h ws in
          ((a, OWN_KEYS) :: cs, r, ws2)
      end
  | Hide f cont =>
      let '(_, r, ws1) := observe f h ws in
      match r with
      | Some v => observe (cont v) h ws1
      | None => ([], None, ws1)
      end
  | _ => ([], None, ws)
  end.

(** The cells that the body bound to an observer record reads in a state. *)
Definition cells_read (f : value -> list value -> prog) (ob : observer)
    (s : state) : list cell :=
  fst (fst (observe (f (this_arg ob) (call_args ob)) (heap s) (wrappers s))).

(** [ran o ob s s']: observer [o], whose record was [ob], ran once between [s]
    and [s']; nothing else happened, and only the subscriptions of [o] were
    replaced. *)
Record ran (o : oid) (ob : observer) (s s' : state) : Prop := {
  ran_log : log s' = log s ++ [Ran o (this_arg ob) (call_args ob)];
  ran_heap : heap s' = heap s;
  ran_pending : pending s' = pending s;
  ran_depth : depth s' = depth s;
  ran_stack : stack s' = stack s;
  ran_shapes : shapes s' = shapes s;
  ran_deps : forall o', o' <> o -> dependencies o' s' = dependencies o' s
}.

Definition is_idle (s : state) (o : oid) : bool :=
  match status_of s o with
  | Some idle => true
  | _ => false
  end.

(** [drained q s s']: the drain of queue [q] from [s] ended in [s']: the
    queue is empty, every idle observer of [q] ran exactly once and no other
    observer ran; the subscriptions of the observers that did not run are
    as before. *)
Record drained (q : list oid) (s s' : state) : Prop := {
  dr_pending : pending s' = [];
  dr_heap : heap s' = heap s;
  dr_depth : depth s' = depth s;
  dr_stack : stack s' = stack s;
  dr_shapes : shapes s' = shapes s;
  dr_runs :
    forall o, runs_of o (log s')
              = runs_of o (log s) + (if mem_oid o q && is_idle s o then 1 else 0);
  dr_deps :
    forall o, mem_oid o q && is_idle s o = false ->
              dependencies o s' = dependencies o s
}.

Local Open Scope string_scope.
Local Open Scope list_scope.

(** A state with the given plain objects, each wrapped by the Reactor of the
    same number, and with one fresh observer per body. *)
Definition setup (objs : list object)
    (fs : list (value -> list value -> prog)) : state :=
  {| heap := objs; wrappers := seq 0 (List.length objs);
     observers :=
       map (fun f => {| execute := f; last_value := VUndef; ostatus := stopped;
                        this_arg := VUndef; call_args := [] |}) fs;
     edges := []; pending := []; depth := 0; stack := []; log := [] |}.

(** [o1(); o2(); ...; k]: the first call of each observer. *)
Fixpoint call_all (os : list oid) (k : prog) : prog :=
  match os with
  | [] => k
  | o :: rest => Invoke o VUndef [] (fun _ => call_all rest k)
  end.

(** The state a finished script leaves behind. *)
Definition final_state {A : Type} (r : outcome A) (default : state) : state :=
  match r with
  | Done _ s => s
  | Raise _ s => s
  | OutOfFuel => default
  end.

(** An observer that reads [w[k]] and returns it. *)
Definition reader (w : wid) (k : key) : value -> list value -> prog :=
  fun _ _ => Get w k Ret.

(** An observer that throws [Error msg] when [w[k]] is [bad]. *)
Definition thrower (w : wid) (k : key) (bad : value) (msg : string)
  : value -> list value -> prog :=
  fun _ _ => Get w k (fun v => if value_eqb v bad then Throw (Error msg)
                               else Ret VUndef).

(** 'does not redundantly trigger on setting identical values': a reactor
    [{foo: 'bar'}] and an observer of [foo], after its first run. *)
Definition identical_values : state :=
  final_state
    (exec 2 (call_all [0] (Ret VUndef)) (setup [[("foo", VStr "bar")]] [reader 0 "foo"]))
    empty_state.

(** 'throws an error on a write if there is an Observer error'. *)
Definition one_thrower : state :=
  final_state
    (exec 2 (call_all [0] (Ret VUndef))
       (setup [[("value", VStr "foo")]]
          [thrower 0 "value" (VNum 2) "dummy error"]))
    empty_state.

(** 'throws a CompoundError if there are multiple Observer errors'. *)
Definition two_throwers : state :=
  final_state
    (exec 2 (call_all [0; 1] (Ret VUndef))
       (setup [[("value", VNum 1)]]
          [thrower 0 "value" (VNum 2) "dummy error 1";
           thrower 0 "value" (VNum 2) "dummy error 2"]))
    empty_state.

(** The same state once [value = 2] has been assigned and the subscribers of
    the value cell scheduled, before the drain. *)
Definition two_throwers_scheduled : state :=
  schedule (0, Value "value")
    (with_heap [[("value", VNum 2)]] two_throwers).

(** 'throws a flattened compound error with chained observers': observer 0
    copies [foo] to [passthrough]; observers 1 and 2 throw on [foo], observers
    3 and 4 on [passthrough]. *)
Definition chained_throwers : state :=
  final_state
    (exec 2 (call_all [0; 1; 2; 3; 4] (Ret VUndef))
       (setup [[("foo", VStr "Bar")]]
          [(fun _ _ => Get 0 "foo" (fun v => Put 0 "passthrough" v (Ret VUndef)));
           thrower 0 "foo" (VStr "error") "BIG ERROR 1";
           thrower 0 "foo" (VStr "error") "BIG ERROR 2";
           thrower 0 "passthrough" (VStr "error") "small error 1";
           thrower 0 "passthrough" (VStr "error") "small error 2"]))
    empty_state.

(** The error a script ends with, if any. *)
Definition raised (r : outcome value) : option error :=
  match r with
  | Raise e _ => Some e
  | _ => None
  end.

(** The state right after the underlying assignment [a[k] = v]. *)
Definition assigned (s : state) (a : addr) (k : key) (v : value) : state :=
  with_heap (update_nth a (assign (object_at s a) k v) (heap s)) s.

Definition is_composite (e : error) : bool :=
  match e with
  | CompoundError _ => true
  | _ => false
  end.

(** 'does not subscribe in hide block' / 'returns output of hide block': a
    reactor [{outer: 'foo', inner: 'bar'}]; the observer reads [outer], and
    [inner] inside [hide], and returns what [hide] returned. *)
Definition hide_body : value -> list value -> prog :=
  fun _ _ => Get 0 "outer" (fun _ => Hide (Get 0 "inner" Ret) Ret).

Definition hide_scenario : state :=
  final_state
    (exec 2 (call_all [0] (Ret VUndef))
       (setup [[("outer", VStr "foo"); ("inner", VStr "bar")]] [hide_body]))
    empty_state.

(** The state in which the body of observer 0 is about to call [hide]: the
    observer is running, on top of the stack, and the depth is held. *)
Definition inside_observer : state :=
  log_run 0 {| execute := hide_body; last_value := VUndef; ostatus := idle;
               this_arg := VUndef; call_args := [] |}
    (push (Active 0) (set_status 0 running (enter hide_scenario))).

(** [restarted o ob s s']: between [s] and [s'] the stopped observer [o],
    whose record was [ob], was made idle and ran once with the [this] and the
    arguments of its record; nothing else ran, and no other observer's
    subscriptions or state changed. *)
Record restarted (o : oid) (ob : observer) (s s' : state) : Prop := {
  rst_log : log s' = log s ++ [Ran o (this_arg ob) (call_args ob)];
  rst_status : status_of s' o = Some idle;
  rst_execute : get_execute o s' = Some (execute ob);
  rst_heap : heap s' = heap s;
  rst_pending : pending s' = pending s;
  rst_depth : depth s' = depth s;
  rst_stack : stack s' = stack s;
  rst_bodies : bodies s' = bodies s;
  rst_other_status : forall o', o' <> o -> status_of s' o' = status_of s o';
  rst_other_deps :
    forall o', o' <> o -> dependencies o' s' = dependencies o' s
}.

(** 'has no effect with repeated starts': an observer of [value] that ran
    once and was stopped, after which [value] was written. *)
Definition stopped_observer : state :=
  final_state
    (exec 3 (call_all [0] (Stop 0 (Put 0 "value" (VStr "moo") (Ret VUndef))))
       (setup [[("value", VStr "foo")]] [reader 0 "value"]))
    empty_state.

(** 'does not read an observer when calling start': the inner observer 0
    reads [foo]; the outer observer 1 starts it. *)
Definition start_inside : state :=
  final_state
    (exec 3 (call_all [1] (Ret VUndef))
       (setup [[("foo", VStr "bar")]]
          [reader 0 "foo"; (fun _ _ => Start 0 (Ret VUndef))]))
    empty_state.

(** 'can redefine an observer': a reactor [{first: 'foo', second: 'bar'}] and
    an observer of [first], after its first run. *)
Definition redefine_scenario : state :=
  final_state
    (exec 2 (call_all [0] (Ret VUndef))
       (setup [[("first", VStr "foo"); ("second", VStr "bar")]]
          [reader 0 "first"]))
    empty_state.

(** Whether the observable projection of a cell differs between two
    states: the value of the property, its existence, the set of own keys. *)
Definition projection_changed (s s' : state) (c : cell) : bool :=
  match c with
  | (a, Value k) =>
      negb (value_eqb (read (object_at s' a) k) (read (object_at s a) k))
  | (a, HAS k) =>
      negb (Bool.eqb (has_key (object_at s' a) k) (has_key (object_at s a) k))
  | (a, OWN_KEYS) =>
      negb (same_key_set (own_keys (object_at s' a)) (own_keys (object_at s a)))
  end.

(** The cells whose subscribers the set trap schedules. *)
Definition notified (s : state) (a : addr) (k : key) (v : value) : list cell :=
  let old := object_at s a in
  let new := object_at (assigned s a k v) a in
  let same_value := value_eqb (read new k) (read old k) in
  let same_has := Bool.eqb (has_key new k) (has_key old k) in
  let same_keys := same_key_set (own_keys new) (own_keys old) in
  if same_value && same_keys && same_has then []
  else (a, Value k)
       :: (if same_has then [] else [(a, HAS k)])
       ++ (if same_keys then [] else [(a, OWN_KEYS)]).

Definition schedule_all (cs : list cell) (s : state) : state :=
  fold_left (fun t c => schedule c t) cs s.

(** An observer that asks ['foo' in r], reads [r.foo] and lists the keys of
    [r], over a reactor that has no [foo] yet: one write of [foo] changes the
    three cells it is subscribed to. *)
Definition three_cells : state :=
  final_state
    (exec 2 (call_all [0] (Ret VUndef))
       (setup [[("bar", VNum 1)]]
          [fun _ _ => Has 0 "foo" (fun _ => Get 0 "foo" (fun _ =>
                        OwnKeys 0 (fun _ => Ret VUndef)))]))
    empty_state.

(** A chain: observer 0 reads [x] and [y]; observer 1 reads [x] and copies
    it to [y].  Both have run once; [x] and [y] are 0. *)
Definition chain : state :=
  final_state
    (exec 3 (call_all [0; 1] (Ret VUndef))
       (setup [[("x", VNum 0); ("y", VNum 0)]]
          [(fun _ _ => Get 0 "x" (fun _ => Get 0 "y" Ret));
           (fun _ _ => Get 0 "x" (fun v => Put 0 "y" v (Ret VUndef)))]))
    empty_state.

(** The unrestricted reading of C6: after any top-level write-and-drain
    cycle, every idle observer subscribed to a cell whose projection changed
    has run exactly once more. *)
Definition exactly_once_after_write : Prop :=
  forall fuel s w a k v s',
    source_of s w = Some a ->
    depth s = 0 -> pending s = [] -> stack s = [] ->
    exec fuel (Put w k v (Ret VUndef)) s = Done VUndef s' ->
    forall o c,
      is_idle s o = true -> In o (collect c s) ->
      projection_changed s s' c = true ->
      runs_of o (log s') = runs_of o (log s) + 1.

(** 'delays and combines observer triggers when using batch': a reactor
    [{value: 'foo'}] and an observer of [value], after its first run. *)
Definition batch_scenario : state :=
  final_state
    (exec 2 (call_all [0] (Ret VUndef))
       (setup [[("value", VStr "foo")]] [reader 0 "value"]))
    empty_state.

Definition three_writes : prog :=
  Put 0 "value" (VStr "bleep")
    (Put 0 "value" (VStr "bloop")
       (Put 0 "value" (VStr "blarp") (Ret (VNum 7)))).

(** The unrestricted reading of C3: an observer subscribed to a cell that the
    writes of [f] changed runs at most once in the course of [batch(f)]. *)
Definition at_most_once_per_batch : Prop :=
  forall fuel f s v s',
    quiet f ->
    depth s = 0 -> pending s = [] -> stack s = [] ->
    exec fuel (Batch f Ret) s = Done v s' ->
    forall o c,
      is_idle s o = true -> In o (collect c s) ->
      projection_changed s s' c = true ->
      runs_of o (log s') <= runs_of o (log s) + 1.

(** * Properties of the engine *)

Lemma readonly_quiet p : readonly p -> quiet p.
Proof. induction 1; constructor; auto. Qed.

Lemma ends_impl {A : Type} (P Q : state -> Prop) (r : outcome A) :
  (forall s, P s -> Q s) -> ends P r -> ends Q r.
Proof. destruct r; simpl; auto. Qed.

(** ** Basic facts about the queue and the registry *)

Lemma mem_oid_In o l : mem_oid o l = true <-> In o l.
Proof.
  unfold mem_oid. rewrite existsb_exists. split.
  - intros [x [Hin Heq]]. apply Nat.eqb_eq in Heq. subst. exact Hin.
  - intros Hin. exists o. split; [exact Hin|apply Nat.eqb_refl].
Qed.

Lemma mem_oid_app o l1 l2 : mem_oid o (l1 ++ l2) = mem_oid o l1 || mem_oid o l2.
Proof. unfold mem_oid. apply existsb_app. Qed.

Lemma enqueue_fields o s :
  heap (enqueue o s) = heap s /\ wrappers (enqueue o s) = wrappers s /\
  observers (enqueue o s) = observers s /\ edges (enqueue o s) = edges s /\
  depth (enqueue o s) = depth s /\ stack (enqueue o s) = stack s /\
  log (enqueue o s) = log s.
Proof. unfold enqueue. destruct (mem_oid o (pending s)); repeat split. Qed.

Lemma enqueue_nodup o s : NoDup (pending s) -> NoDup (pending (enqueue o s)).
Proof.
  intros H. unfold enqueue. destruct (mem_oid o (pending s)) eqn:Hm; [exact H|].
  unfold_updates. apply NoDup_app; [exact H|repeat constructor; intros []|].
  intros x Hin [<-|[]]. apply mem_oid_In in Hin. congruence.
Qed.

Lemma enqueue_mem o o' s :
  mem_oid o' (pending (enqueue o s)) = mem_oid o' (pending s) || Nat.eqb o' o.
Proof.
  unfold enqueue. destruct (mem_oid o (pending s)) eqn:Hm.
  - destruct (Nat.eqb_spec o' o) as [->|Hne].
    + rewrite Hm. reflexivity.
    + rewrite orb_false_r. reflexivity.
  - unfold_updates. rewrite mem_oid_app. simpl. rewrite orb_false_r. reflexivity.
Qed.

Lemma enqueue_all_fields l : forall s s',
  s' = fold_left (fun s0 o => enqueue o s0) l s ->
  heap s' = heap s /\ wrappers s' = wrappers s /\
  observers s' = observers s /\ edges s' = edges s /\
  depth s' = depth s /\ stack s' = stack s /\ log s' = log s /\
  (NoDup (pending s) -> NoDup (pending s')) /\
  (forall o, mem_oid o (pending s') = mem_oid o (pending s) || mem_oid o l).
Proof.
  induction l as [|x l IH]; intros s s' Hs'; simpl in Hs'.
  - subst s'. repeat (split; [reflexivity|]). split; [auto|].
    intros o. rewrite orb_false_r. reflexivity.
  - destruct (IH (enqueue x s) s' Hs')
      as (H1 & H2 & H3 & H4 & H5 & H6 & H7 & H8 & H9).
    destruct (enqueue_fields x s) as (E1 & E2 & E3 & E4 & E5 & E6 & E7).
    repeat (split; [congruence|]). split.
    + intros Hnd. apply H8, enqueue_nodup, Hnd.
    + intros o. rewrite H9, enqueue_mem, <- orb_assoc. f_equal.
Qed.

Lemma schedule_fields c s :
  heap (schedule c s) = heap s /\ wrappers (schedule c s) = wrappers s /\
  observers (schedule c s) = observers s /\ edges (schedule c s) = edges s /\
  depth (schedule c s) = depth s /\ stack (schedule c s) = stack s /\
  log (schedule c s) = log s /\
  (NoDup (pending s) -> NoDup (pending (schedule c s))) /\
  (forall o, mem_oid o (pending (schedule c s))
             = mem_oid o (pending s) || mem_oid o (collect c s)).
Proof. apply enqueue_all_fields with (l := collect c s). reflexivity. Qed.

Lemma current_observer_frame s s' :
  stack s' = stack s -> observers s' = observers s ->
  current_observer s' = current_observer s.
Proof.
  intros Hs Ho. unfold current_observer, status_of. rewrite Hs, Ho. reflexivity.
Qed.

Lemma subscribe_other o o' c s :
  o' <> o -> dependencies o' (subscribe o c s) = dependencies o' s.
Proof.
  intros Hne. unfold subscribe.
  destruct (existsb (edge_eqb (c, o)) (edges s)); [reflexivity|].
  unfold dependencies. unfold_updates. rewrite filter_app, map_app. simpl.
  apply Nat.eqb_neq in Hne. rewrite Nat.eqb_sym, Hne. simpl.
  apply app_nil_r.
Qed.

Lemma subscribe_fields o c s :
  heap (subscribe o c s) = heap s /\ wrappers (subscribe o c s) = wrappers s /\
  observers (subscribe o c s) = observers s /\
  pending (subscribe o c s) = pending s /\
  depth (subscribe o c s) = depth s /\ stack (subscribe o c s) = stack s /\
  log (subscribe o c s) = log s.
Proof.
  unfold subscribe. destruct (existsb (edge_eqb (c, o)) (edges s)); repeat split.
Qed.

Lemma track_fields c s :
  heap (track c s) = heap s /\ wrappers (track c s) = wrappers s /\
  observers (track c s) = observers s /\ pending (track c s) = pending s /\
  depth (track c s) = depth s /\ stack (track c s) = stack s /\
  log (track c s) = log s.
Proof.
  unfold track. destruct (current_observer s); [apply subscribe_fields|].
  repeat split.
Qed.

Lemma track_none c s : current_observer s = None -> track c s = s.
Proof. intros H. unfold track. rewrite H. reflexivity. Qed.

Lemma track_other c o s :
  current_observer s <> Some o -> dependencies o (track c s) = dependencies o s.
Proof.
  intros H. unfold track. destruct (current_observer s) as [o'|]; [|reflexivity].
  apply subscribe_other. congruence.
Qed.

Lemma wrap_fields a s :
  heap (snd (wrap a s)) = heap s /\ observers (snd (wrap a s)) = observers s /\
  edges (snd (wrap a s)) = edges s /\ pending (snd (wrap a s)) = pending s /\
  depth (snd (wrap a s)) = depth s /\ stack (snd (wrap a s)) = stack s /\
  log (snd (wrap a s)) = log s.
Proof. unfold wrap. destruct (index_of a (wrappers s)); repeat split. Qed.

(** ** The effect of quiet programs while the depth is held *)

Lemma quiet_step_refl s : quiet_step s s.
Proof. constructor; auto. Qed.

Lemma quiet_step_trans s1 s2 s3 :
  quiet_step s1 s2 -> quiet_step s2 s3 -> quiet_step s1 s3.
Proof.
  intros [L1 D1 S1 O1 N1 E1 F1] [L2 D2 S2 O2 N2 E2 F2].
  pose proof (current_observer_frame s1 s2 S1 O1) as Hc.
  constructor; try congruence.
  - auto.
  - intros H. rewrite E2, E1; congruence.
  - intros o H. rewrite F2, F1; congruence.
Qed.

Lemma quiet_step_track c s : quiet_step s (track c s).
Proof.
  destruct (track_fields c s) as (_ & _ & H3 & H4 & H5 & H6 & H7).
  constructor; auto.
  - rewrite H4. auto.
  - intros H. rewrite track_none by exact H. reflexivity.
  - intros o H. apply track_other. exact H.
Qed.

Lemma quiet_step_wrap a s : quiet_step s (snd (wrap a s)).
Proof.
  destruct (wrap_fields a s) as (_ & H2 & H3 & H4 & H5 & H6 & H7).
  constructor; auto.
  - rewrite H4. auto.
  - intros o _. unfold dependencies. rewrite H3. reflexivity.
Qed.

Lemma quiet_step_heap h s : quiet_step s (with_heap h s).
Proof. constructor; auto. Qed.

Lemma quiet_step_schedule c s : quiet_step s (schedule c s).
Proof.
  destruct (schedule_fields c s) as (_ & _ & H3 & H4 & H5 & H6 & H7 & H8 & _).
  constructor; auto. intros o _. unfold dependencies. rewrite H4. reflexivity.
Qed.

Lemma quiet_step_get a k s : quiet_step s (snd (get_trap a k s)).
Proof.
  unfold get_trap.
  destruct (read (object_at (track (a, Value k) s) a) k) eqn:Hr;
    try apply quiet_step_track.
  destruct (wrap a0 (track (a, Value k) s)) as [w s2] eqn:Hw.
  apply quiet_step_trans with (1 := quiet_step_track (a, Value k) s).
  change s2 with (snd (w, s2)). rewrite <- Hw. apply quiet_step_wrap.
Qed.

Lemma quiet_step_hide s s1 : quiet_step (push Hidden s) s1 -> quiet_step s (pop s1).
Proof.
  intros [L D S O N E F].
  assert (Hc : current_observer (push Hidden s) = None) by reflexivity.
  specialize (E Hc). unfold_updates.
  constructor; unfold_updates; auto.
  - rewrite S. reflexivity.
  - intros o _. unfold dependencies in *. unfold_updates. rewrite E. reflexivity.
Qed.

Lemma quiet_step_batch s s1 : quiet_step (enter s) s1 -> quiet_step s (leave s1).
Proof.
  intros [L D S O N E F].
  assert (Hc : current_observer (enter s) = current_observer s) by reflexivity.
  rewrite Hc in *. unfold_updates.
  constructor; unfold_updates; auto.
  rewrite D. reflexivity.
Qed.

Lemma ends_step {A : Type} s s1 (r : outcome A) :
  quiet_step s s1 -> ends (quiet_step s1) r -> ends (quiet_step s) r.
Proof.
  intros H. apply ends_impl. intros s2. apply quiet_step_trans. exact H.
Qed.

Section QuietPrograms.

Variable rb : prog -> state -> outcome value.
Variable n : nat.

Lemma flush_held s : 0 < depth s -> flush rb n s = Done tt s.
Proof.
  intros H. unfold flush. destruct (Nat.eqb_spec (depth s) 0); [lia|reflexivity].
Qed.

Lemma set_trap_quiet a k v s :
  0 < depth s -> ends (quiet_step s) (set_trap rb n a k v s).
Proof.
  intros Hd. unfold set_trap.
  set (s1 := with_heap _ s).
  assert (H1 : quiet_step s s1) by apply quiet_step_heap.
  destruct (_ && _ && _); [exact H1|].
  set (s2 := schedule (a, Value k) s1).
  assert (H2 : quiet_step s s2)
    by (apply quiet_step_trans with (1 := H1); apply quiet_step_schedule).
  set (s3 := if Bool.eqb _ _ then s2 else _).
  assert (H3 : quiet_step s s3).
  { subst s3. destruct (Bool.eqb _ _); [exact H2|].
    apply quiet_step_trans with (1 := H2). apply quiet_step_schedule. }
  set (s4 := if same_key_set _ _ then s3 else _).
  assert (H4 : quiet_step s s4).
  { subst s4. destruct (same_key_set _ _); [exact H3|].
    apply quiet_step_trans with (1 := H3). apply quiet_step_schedule. }
  rewrite flush_held; [exact H4|]. rewrite (qs_depth _ _ H4). exact Hd.
Qed.

Lemma delete_trap_quiet a k s :
  0 < depth s -> ends (quiet_step s) (delete_trap rb n a k s).
Proof.
  intros Hd. unfold delete_trap.
  set (s1 := with_heap _ s).
  assert (H1 : quiet_step s s1) by apply quiet_step_heap.
  destruct (_ && _ && _); [exact H1|].
  set (s2 := if value_eqb _ _ then s1 else _).
  assert (H2 : quiet_step s s2).
  { subst s2. destruct (value_eqb _ _); [exact H1|].
    apply quiet_step_trans with (1 := H1). apply quiet_step_schedule. }
  set (s3 := if Bool.eqb _ _ then s2 else _).
  assert (H3 : quiet_step s s3).
  { subst s3. destruct (Bool.eqb _ _); [exact H2|].
    apply quiet_step_trans with (1 := H2). apply quiet_step_schedule. }
  set (s4 := if same_key_set _ _ then s3 else _).
  assert (H4 : quiet_step s s4).
  { subst s4. destruct (same_key_set _ _); [exact H3|].
    apply quiet_step_trans with (1 := H3). apply quiet_step_schedule. }
  rewrite flush_held; [exact H4|]. rewrite (qs_depth _ _ H4). exact Hd.
Qed.

(** While the depth is held, a quiet program runs to completion without
    running any observer. *)
Lemma go_quiet p :
  quiet p -> forall s, 0 < depth s -> ends (quiet_step s) (go rb n p s).
Proof.
  induction 1 as [v|e|w k cont _ IH|w k cont _ IH|w cont _ IH
                  |w k v cont _ IH|w k cont _ IH
                  |f cont _ IHf _ IH|f cont _ IHf _ IH];
    intros s Hd; simpl.
  - apply quiet_step_refl.
  - apply quiet_step_refl.
  - destruct (source_of s w) as [a|]; [|apply quiet_step_refl].
    pose proof (quiet_step_get a k s) as Hg.
    destruct (get_trap a k s) as [v s1]. simpl in Hg.
    apply ends_step with (1 := Hg). apply IH.
    rewrite (qs_depth _ _ Hg). exact Hd.
  - destruct (source_of s w) as [a|]; [|apply quiet_step_refl].
    unfold has_trap.
    pose proof (quiet_step_track (a, HAS k) s) as Hg.
    apply ends_step with (1 := Hg). apply IH.
    rewrite (qs_depth _ _ Hg). exact Hd.
  - destruct (source_of s w) as [a|]; [|apply quiet_step_refl].
    unfold ownKeys_trap.
    pose proof (quiet_step_track (a, OWN_KEYS) s) as Hg.
    apply ends_step with (1 := Hg). apply IH.
    rewrite (qs_depth _ _ Hg). exact Hd.
  - destruct (source_of s w) as [a|]; [|apply quiet_step_refl].
    pose proof (set_trap_quiet a k v s Hd) as Hs.
    destruct (set_trap rb n a k v s) as [[] s1|e s1|]; simpl in Hs;
      [|exact Hs|exact Hs].
    apply ends_step with (1 := Hs). apply IH.
    rewrite (qs_depth _ _ Hs). exact Hd.
  - destruct (source_of s w) as [a|]; [|apply quiet_step_refl].
    pose proof (delete_trap_quiet a k s Hd) as Hs.
    destruct (delete_trap rb n a k s) as [[] s1|e s1|]; simpl in Hs;
      [|exact Hs|exact Hs].
    apply ends_step with (1 := Hs). apply IH.
    rewrite (qs_depth _ _ Hs). exact Hd.
  - pose proof (IHf (push Hidden s) Hd) as Hf.
    destruct (go rb n f (push Hidden s)) as [v s1|e s1|]; simpl in Hf;
      [| apply quiet_step_hide, Hf | exact Hf].
    apply quiet_step_hide in Hf.
    apply ends_step with (1 := Hf). apply IH.
    rewrite (qs_depth _ _ Hf). exact Hd.
  - assert (Hd' : 0 < depth (enter s)) by (simpl; lia).
    pose proof (IHf (enter s) Hd') as Hf.
    destruct (go rb n f (enter s)) as [v s1|e s1|]; simpl in Hf;
      [| apply quiet_step_batch, Hf | exact Hf].
    apply quiet_step_batch in Hf.
    rewrite flush_held by (rewrite (qs_depth _ _ Hf); exact Hd).
    apply ends_step with (1 := Hf). apply IH.
    rewrite (qs_depth _ _ Hf). exact Hd.
Qed.

End QuietPrograms.

(** ** The effect of read-only programs *)

Lemma read_step_refl s : read_step s s.
Proof. constructor; auto. Qed.

Lemma read_step_trans s1 s2 s3 :
  read_step s1 s2 -> read_step s2 s3 -> read_step s1 s3.
Proof.
  intros [H1 P1 L1 D1 S1 O1 E1 F1] [H2 P2 L2 D2 S2 O2 E2 F2].
  pose proof (current_observer_frame s1 s2 S1 O1) as Hc.
  constructor; try congruence.
  - intros H. rewrite E2, E1; congruence.
  - intros o H. rewrite F2, F1; congruence.
Qed.

Lemma read_step_track c s : read_step s (track c s).
Proof.
  destruct (track_fields c s) as (H1 & _ & H3 & H4 & H5 & H6 & H7).
  constructor; auto.
  - intros H. rewrite track_none by exact H. reflexivity.
  - intros o H. apply track_other. exact H.
Qed.

Lemma read_step_wrap a s : read_step s (snd (wrap a s)).
Proof.
  destruct (wrap_fields a s) as (H1 & H2 & H3 & H4 & H5 & H6 & H7).
  constructor; auto.
  intros o _. unfold dependencies. rewrite H3. reflexivity.
Qed.

Lemma read_step_get a k s : read_step s (snd (get_trap a k s)).
Proof.
  unfold get_trap.
  destruct (read (object_at (track (a, Value k) s) a) k) eqn:Hr;
    try apply read_step_track.
  destruct (wrap a0 (track (a, Value k) s)) as [w s2] eqn:Hw.
  apply read_step_trans with (1 := read_step_track (a, Value k) s).
  change s2 with (snd (w, s2)). rewrite <- Hw. apply read_step_wrap.
Qed.

Lemma read_step_hide s s1 : read_step (push Hidden s) s1 -> read_step s (pop s1).
Proof.
  intros [H P L D S O E F].
  assert (Hc : current_observer (push Hidden s) = None) by reflexivity.
  specialize (E Hc). unfold_updates.
  constructor; unfold_updates; auto.
  - rewrite S. reflexivity.
  - intros o _. unfold dependencies in *. unfold_updates. rewrite E. reflexivity.
Qed.

Lemma ends_read {A : Type} s s1 (r : outcome A) :
  read_step s s1 -> ends (read_step s1) r -> ends (read_step s) r.
Proof.
  intros H. apply ends_impl. intros s2. apply read_step_trans. exact H.
Qed.

(** A read-only program runs to completion whatever the fuel, and touches
    nothing but subscriptions (and the lazily made wrappers). *)
Lemma go_readonly rb n p :
  readonly p -> forall s, ends (read_step s) (go rb n p s).
Proof.
  induction 1 as [v|e|w k cont _ IH|w k cont _ IH|w cont _ IH
                  |f cont _ IHf _ IH];
    intros s; simpl.
  - apply read_step_refl.
  - apply read_step_refl.
  - destruct (source_of s w) as [a|]; [|apply read_step_refl].
    pose proof (read_step_get a k s) as Hg.
    destruct (get_trap a k s) as [v s1]. simpl in Hg.
    apply ends_read with (1 := Hg). apply IH.
  - destruct (source_of s w) as [a|]; [|apply read_step_refl].
    unfold has_trap.
    apply ends_read with (1 := read_step_track (a, HAS k) s). apply IH.
  - destruct (source_of s w) as [a|]; [|apply read_step_refl].
    unfold ownKeys_trap.
    apply ends_read with (1 := read_step_track (a, OWN_KEYS) s). apply IH.
  - pose proof (IHf (push Hidden s)) as Hf.
    destruct (go rb n f (push Hidden s)) as [v s1|e s1|]; simpl in Hf;
      [| apply read_step_hide, Hf | exact Hf].
    apply read_step_hide in Hf.
    apply ends_read with (1 := Hf). apply IH.
Qed.

(** ** Updating one observer record *)

Lemma nth_error_update_nth {A : Type} (l : list A) : forall i x y,
  nth_error l i = Some y -> nth_error (update_nth i x l) i = Some x.
Proof.
  induction l as [|h t IH]; intros [|i] x y H; simpl in *; try discriminate.
  - reflexivity.
  - eapply IH. exact H.
Qed.

Lemma nth_error_update_nth_other {A : Type} (l : list A) : forall i j x,
  i <> j -> nth_error (update_nth i x l) j = nth_error l j.
Proof.
  induction l as [|h t IH]; intros [|i] [|j] x H; simpl; try reflexivity.
  - congruence.
  - apply IH. congruence.
Qed.

Lemma update_nth_twice {A : Type} (l : list A) : forall i x y,
  update_nth i x (update_nth i y l) = update_nth i x l.
Proof.
  induction l as [|h t IH]; intros [|i] x y; simpl; try reflexivity.
  rewrite IH. reflexivity.
Qed.

Lemma update_nth_self {A : Type} (l : list A) : forall i x,
  nth_error l i = Some x -> update_nth i x l = l.
Proof.
  induction l as [|h t IH]; intros [|i] x H; simpl in *; try discriminate.
  - congruence.
  - rewrite IH by exact H. reflexivity.
Qed.

Lemma map_update_nth {A B : Type} (g : A -> B) (l : list A) : forall i x,
  map g (update_nth i x l) = update_nth i (g x) (map g l).
Proof.
  induction l as [|h t IH]; intros [|i] x; simpl; try reflexivity.
  rewrite IH. reflexivity.
Qed.

Lemma shapes_bodies s s' : shapes s' = shapes s -> bodies s' = bodies s.
Proof.
  unfold shapes, bodies. intros H.
  assert (E : forall l, map execute l = map (fun x => fst (fst (fst x))) (map shape l)).
  { intros l. rewrite map_map. reflexivity. }
  rewrite !E, H. reflexivity.
Qed.

Lemma shapes_status s s' o :
  shapes s' = shapes s -> status_of s' o = status_of s o.
Proof.
  unfold shapes, status_of. intros H.
  assert (E : forall l, option_map ostatus (nth_error l o)
                        = option_map (fun x => snd (fst (fst x)))
                            (nth_error (map shape l) o)).
  { intros l. rewrite nth_error_map. destruct (nth_error l o); reflexivity. }
  rewrite !E, H. reflexivity.
Qed.

Lemma dependencies_unsubscribe_other o o' s :
  o' <> o -> dependencies o' (unsubscribe_all o s) = dependencies o' s.
Proof.
  intros Hne. unfold dependencies, unsubscribe_all. unfold_updates.
  f_equal. induction (edges s) as [|e l IH]; simpl; [reflexivity|].
  destruct (Nat.eqb (snd e) o) eqn:E; simpl.
  - apply Nat.eqb_eq in E.
    destruct (Nat.eqb_spec (snd e) o'); [congruence|exact IH].
  - destruct (Nat.eqb (snd e) o'); [rewrite IH|]; auto.
Qed.

Lemma dependencies_unsubscribe_self o s :
  dependencies o (unsubscribe_all o s) = [].
Proof.
  unfold dependencies, unsubscribe_all. unfold_updates.
  induction (edges s) as [|e l IH]; simpl; [reflexivity|].
  destruct (Nat.eqb (snd e) o) eqn:E; simpl; [exact IH|].
  rewrite E. exact IH.
Qed.

Lemma modify_fields o g s :
  heap (modify o g s) = heap s /\ wrappers (modify o g s) = wrappers s /\
  edges (modify o g s) = edges s /\ pending (modify o g s) = pending s /\
  depth (modify o g s) = depth s /\ stack (modify o g s) = stack s /\
  log (modify o g s) = log s.
Proof. unfold modify. destruct (nth_error (observers s) o); repeat split. Qed.

Lemma modify_observers o g s ob :
  nth_error (observers s) o = Some ob ->
  observers (modify o g s) = update_nth o (g ob) (observers s).
Proof. intros H. unfold modify. rewrite H. reflexivity. Qed.

Lemma modify_lookup o g s ob :
  nth_error (observers s) o = Some ob ->
  nth_error (observers (modify o g s)) o = Some (g ob).
Proof.
  intros H. rewrite (modify_observers o g s ob H).
  apply nth_error_update_nth with (y := ob). exact H.
Qed.

Lemma modify_dependencies o g o' s :
  dependencies o' (modify o g s) = dependencies o' s.
Proof.
  unfold dependencies.
  destruct (modify_fields o g s) as (_ & _ & -> & _). reflexivity.
Qed.

(** ** The cells a read-only program reads

    [observe p h ws] follows a read-only program over the heap [h] and the
    wrapper table [ws], outside of any engine state: it gives the cells read
    outside [hide], in order, the value returned ([None] when the program
    throws), and the wrapper table at the end. *)

Lemma cell_eqb_eq c1 c2 : cell_eqb c1 c2 = true <-> c1 = c2.
Proof.
  destruct c1 as [a1 x1], c2 as [a2 x2]. unfold cell_eqb. simpl.
  rewrite andb_true_iff, Nat.eqb_eq. split.
  - intros [-> H]. f_equal.
    destruct x1, x2; simpl in H; try discriminate; try reflexivity;
      apply String.eqb_eq in H; congruence.
  - intros H. injection H as -> ->. split; [reflexivity|].
    destruct x2; simpl; try reflexivity; apply String.eqb_refl.
Qed.

Lemma dependencies_subscribe o c s c' :
  In c' (dependencies o (subscribe o c s)) <-> c' = c \/ In c' (dependencies o s).
Proof.
  unfold subscribe.
  destruct (existsb (edge_eqb (c, o)) (edges s)) eqn:Hex.
  - split; [auto|]. intros [->|H]; [|exact H].
    apply existsb_exists in Hex. destruct Hex as [[c0 o0] [Hin Heq]].
    unfold edge_eqb in Heq. simpl in Heq. apply andb_true_iff in Heq.
    destruct Heq as [Hc Ho]. apply cell_eqb_eq in Hc. apply Nat.eqb_eq in Ho.
    subst c0 o0. unfold dependencies.
    apply in_map_iff. exists (c, o). split; [reflexivity|].
    apply filter_In. split; [exact Hin|]. simpl. apply Nat.eqb_refl.
  - unfold dependencies. unfold_updates.
    rewrite filter_app, map_app, in_app_iff. simpl. rewrite Nat.eqb_refl. simpl.
    intuition congruence.
Qed.

Lemma get_trap_resolve a k s :
  fst (get_trap a k s) = fst (resolve (heap s) (wrappers s) a k)
  /\ wrappers (snd (get_trap a k s)) = snd (resolve (heap s) (wrappers s) a k)
  /\ edges (snd (get_trap a k s)) = edges (track (a, Value k) s).
Proof.
  unfold get_trap, resolve, object_at.
  destruct (track_fields (a, Value k) s) as (Hh & Hw & _).
  rewrite Hh. destruct (read (nth a (heap s) []) k); simpl; auto.
  unfold wrap. rewrite Hw. destruct (index_of a0 (wrappers s)); simpl; auto.
Qed.

(** The engine and [observe] agree on read-only programs: same result, same
    wrappers, and the observer on top of the stack gains exactly the cells
    that [observe] lists. *)
Lemma go_observe rb n p :
  readonly p ->
  forall s,
    let cs := fst (fst (observe p (heap s) (wrappers s))) in
    let r := snd (fst (observe p (heap s) (wrappers s))) in
    let ws := snd (observe p (heap s) (wrappers s)) in
    match go rb n p s with
    | Done v s' =>
        r = Some v /\ wrappers s' = ws /\
        forall o, current_observer s = Some o ->
          forall c, In c (dependencies o s') <-> In c (dependencies o s) \/ In c cs
    | Raise e s' =>
        r = None /\ wrappers s' = ws /\
        forall o, current_observer s = Some o ->
          forall c, In c (dependencies o s') <-> In c (dependencies o s) \/ In c cs
    | OutOfFuel => False
    end.
Proof.
  induction 1 as [v|e|w k cont Hc IH|w k cont Hc IH|w cont Hc IH
                  |f cont Hf IHf Hc IH];
    intros s; cbn zeta.
  - simpl. split; [reflexivity|]. split; [reflexivity|]. intros o _ c. simpl. tauto.
  - simpl. split; [reflexivity|]. split; [reflexivity|]. intros o _ c. simpl. tauto.
  - simpl. unfold source_of. destruct (nth_error (wrappers s) w) as [a|].
    2: { simpl. split; [reflexivity|]. split; [reflexivity|]. intros o _ c. simpl. tauto. }
    destruct (get_trap_resolve a k s) as (Hv & Hw & He).
    pose proof (read_step_get a k s) as Hstep.
    destruct (get_trap a k s) as [v s1]. simpl in Hv, Hw, He, Hstep.
    destruct (resolve (heap s) (wrappers s) a k) as [v' ws1]. simpl in Hv, Hw.
    subst v' ws1.
    specialize (IH v s1). cbn zeta in IH.
    rewrite (rs_heap _ _ Hstep) in IH.
    destruct (observe (cont v) (heap s) (wrappers s1)) as [[cs r] ws2].
    simpl in IH |- *.
    assert (Hdep : forall o, current_observer s = Some o ->
              forall c, In c (dependencies o s1)
                        <-> c = (a, Value k) \/ In c (dependencies o s)).
    { intros o Ho c. unfold dependencies at 1. rewrite He.
      unfold track. rewrite Ho. apply dependencies_subscribe. }
    assert (Hcur : current_observer s1 = current_observer s)
      by (apply current_observer_frame;
          [exact (rs_stack _ _ Hstep)|exact (rs_observers _ _ Hstep)]).
    destruct (go rb n (cont v) s1) as [v2 s2|e2 s2|]; [| |exact IH];
      destruct IH as (Hr & Hws & Hd); (split; [exact Hr|]);
      (split; [exact Hws|]); intros o Ho c;
      rewrite (Hd o) by (rewrite Hcur; exact Ho);
      rewrite (Hdep o Ho); simpl; intuition auto.
  - simpl. unfold source_of. destruct (nth_error (wrappers s) w) as [a|].
    2: { simpl. split; [reflexivity|]. split; [reflexivity|]. intros o _ c. simpl. tauto. }
    unfold has_trap. set (s1 := track (a, HAS k) s).
    pose proof (read_step_track (a, HAS k) s) as Hstep. fold s1 in Hstep.
    destruct (track_fields (a, HAS k) s) as (Hh & Hw & _). fold s1 in Hh, Hw.
    specialize (IH (has_key (object_at s a) k) s1). cbn zeta in IH.
    rewrite Hh, Hw in IH. unfold object_at in *.
    destruct (observe (cont (has_key (nth a (heap s) []) k)) (heap s) (wrappers s))
      as [[cs r] ws2].
    simpl in IH |- *.
    assert (Hdep : forall o, current_observer s = Some o ->
              forall c, In c (dependencies o s1)
                        <-> c = (a, HAS k) \/ In c (dependencies o s)).
    { intros o Ho c. subst s1. unfold track. rewrite Ho.
      apply dependencies_subscribe. }
    assert (Hcur : current_observer s1 = current_observer s)
      by (apply current_observer_frame;
          [exact (rs_stack _ _ Hstep)|exact (rs_observers _ _ Hstep)]).
    destruct (go rb n (cont _) s1) as [v2 s2|e2 s2|]; [| |exact IH];
      destruct IH as (Hr & Hws & Hd); (split; [exact Hr|]);
      (split; [exact Hws|]); intros o Ho c;
      rewrite (Hd o) by (rewrite Hcur; exact Ho);
      rewrite (Hdep o Ho); simpl; intuition auto.
  - simpl. unfold source_of. destruct (nth_error (wrappers s) w) as [a|].
    2: { simpl. split; [reflexivity|]. split; [reflexivity|]. intros o _ c. simpl. tauto. }
    unfold ownKeys_trap. set (s1 := track (a, OWN_KEYS) s).
    pose proof (read_step_track (a, OWN_KEYS) s) as Hstep. fold s1 in Hstep.
    destruct (track_fields (a, OWN_KEYS) s) as (Hh & Hw & _). fold s1 in Hh, Hw.
    specialize (IH (own_keys (object_at s a)) s1). cbn zeta in IH.
    rewrite Hh, Hw in IH. unfold object_at in *.
    destruct (observe (cont (own_keys (nth a (heap s) []))) (heap s) (wrappers s))
      as [[cs r] ws2].
    simpl in IH |- *.
    assert (Hdep : forall o, current_observer s = Some o ->
              forall c, In c (dependencies o s1)
                        <-> c = (a, OWN_KEYS) \/ In c (dependencies o s)).
    { intros o Ho c. subst s1. unfold track. rewrite Ho.
      apply dependencies_subscribe. }
    assert (Hcur : current_observer s1 = current_observer s)
      by (apply current_observer_frame;
          [exact (rs_stack _ _ Hstep)|exact (rs_observers _ _ Hstep)]).
    destruct (go rb n (cont _) s1) as [v2 s2|e2 s2|]; [| |exact IH];
      destruct IH as (Hr & Hws & Hd); (split; [exact Hr|]);
      (split; [exact Hws|]); intros o Ho c;
      rewrite (Hd o) by (rewrite Hcur; exact Ho);
      rewrite (Hdep o Ho); simpl; intuition auto.
  - simpl.
    specialize (IHf (push Hidden s)). cbn zeta in IHf.
    change (heap (push Hidden s)) with (heap s) in IHf.
    change (wrappers (push Hidden s)) with (wrappers s) in IHf.
    pose proof (go_readonly rb n f Hf (push Hidden s)) as Hstep0.
    destruct (observe f (heap s) (wrappers s)) as [[csf rf] ws1].
    simpl in IHf.
    destruct (go rb n f (push Hidden s)) as [v s1|e s1|]; [| |exact IHf];
      destruct IHf as (-> & Hws1 & _); simpl in Hstep0;
      pose proof (rs_edges_none _ _ Hstep0 eq_refl) as He;
      pose proof (read_step_hide s s1 Hstep0) as Hstep;
      assert (Hdep : forall o, dependencies o (pop s1) = dependencies o s)
        by (intros o; unfold dependencies;
            change (edges (pop s1)) with (edges s1); rewrite He; reflexivity).
    + specialize (IH v (pop s1)). cbn zeta in IH.
      rewrite (rs_heap _ _ Hstep) in IH.
      change (wrappers (pop s1)) with (wrappers s1) in IH. rewrite Hws1 in IH.
      assert (Hcur : current_observer (pop s1) = current_observer s)
        by (apply current_observer_frame;
            [exact (rs_stack _ _ Hstep)|exact (rs_observers _ _ Hstep)]).
      destruct (go rb n (cont v) (pop s1)) as [v2 s2|e2 s2|]; [| |exact IH];
        destruct IH as (Hr & Hws & Hd); (split; [exact Hr|]);
        (split; [exact Hws|]); intros o Ho c;
        rewrite (Hd o) by (rewrite Hcur; exact Ho);
        rewrite (Hdep o); tauto.
    + split; [reflexivity|]. split; [exact Hws1|].
      intros o Ho c. rewrite (Hdep o). simpl. tauto.
Qed.

(** ** One run of an observer with a read-only body *)

Section ReadOnlyRuns.

Variable run_body : prog -> state -> outcome value.
Hypothesis run_body_readonly :
  forall p s, readonly p -> ends (read_step s) (run_body p s).

Lemma run_procedure_readonly o ob s :
  nth_error (observers s) o = Some ob ->
  ostatus ob = idle ->
  readonly (execute ob (this_arg ob) (call_args ob)) ->
  ends (ran o ob s) (run_procedure run_body o s).
Proof.
  intros Hob Hidle Hro. unfold run_procedure. rewrite Hob.
  set (s1 := log_run o ob _).
  assert (Hobs1 : observers s1 = update_nth o (put_status running ob) (observers s)).
  { subst s1. unfold log_run, push, unsubscribe_all, set_status. unfold_updates.
    apply modify_observers. exact Hob. }
  assert (Hcur : current_observer s1 = Some o).
  { unfold current_observer, status_of. subst s1.
    unfold log_run, push. unfold_updates.
    change (observers (unsubscribe_all o (set_status o running s)))
      with (observers (set_status o running s)).
    unfold set_status. rewrite (modify_lookup o _ s ob Hob). reflexivity. }
  assert (Hf1 : heap s1 = heap s /\ pending s1 = pending s /\
                depth s1 = depth s /\ stack s1 = Active o :: stack s /\
                log s1 = log s ++ [Ran o (this_arg ob) (call_args ob)]).
  { subst s1. unfold log_run, push, unsubscribe_all, set_status. unfold_updates.
    destruct (modify_fields o (put_status running) s)
      as (H1 & _ & _ & H4 & H5 & H6 & H7).
    rewrite H1, H4, H5, H6, H7. repeat split. }
  destruct Hf1 as (Fh & Fp & Fd & Fs & Fl).
  assert (Hd1 : forall o', o' <> o -> dependencies o' s1 = dependencies o' s).
  { intros o' Hne. subst s1.
    change (dependencies o' (unsubscribe_all o (set_status o running s))
            = dependencies o' s).
    rewrite dependencies_unsubscribe_other by exact Hne.
    apply modify_dependencies. }
  pose proof (run_body_readonly _ s1 Hro) as Hrun.
  assert (Hshape : forall l,
             nth_error l o = Some ob ->
             forall x, shape x = shape ob ->
             map shape (update_nth o x l) = map shape l).
  { intros l Hl x Hx. rewrite map_update_nth, Hx. apply update_nth_self.
    rewrite nth_error_map, Hl. reflexivity. }
  destruct (run_body _ s1) as [v s2|e s2|]; simpl in Hrun; [| |exact Hrun].
  - destruct Hrun as [Rh Rp Rl Rd Rs Ro _ Rf]. simpl.
    assert (Hl2 : nth_error (observers (pop s2)) o = Some (put_status running ob)).
    { unfold_updates. rewrite Ro, Hobs1.
      apply nth_error_update_nth with (y := ob). exact Hob. }
    pose proof (modify_lookup o (put_status idle) _ _ Hl2) as Hl3.
    fold (set_status o idle (pop s2)) in Hl3.
    destruct (modify_fields o (put_value v) (set_status o idle (pop s2)))
      as (M1 & _ & M3 & M4 & M5 & M6 & M7).
    destruct (modify_fields o (put_status idle) (pop s2))
      as (N1 & _ & N3 & N4 & N5 & N6 & N7).
    unfold set_last_value, set_status in *.
    constructor.
    + rewrite M7, N7. unfold_updates. congruence.
    + rewrite M1, N1. unfold_updates. congruence.
    + rewrite M4, N4. unfold_updates. congruence.
    + rewrite M5, N5. unfold_updates. congruence.
    + rewrite M6, N6. unfold_updates. rewrite Rs, Fs. reflexivity.
    + unfold shapes.
      rewrite (modify_observers o _ _ _ Hl3), (modify_observers o _ _ _ Hl2).
      unfold_updates. rewrite Ro, Hobs1, !update_nth_twice.
      apply Hshape; [exact Hob|].
      unfold shape. simpl. rewrite Hidle. reflexivity.
    + intros o' Hne. rewrite !modify_dependencies.
      change (dependencies o' (pop s2)) with (dependencies o' s2).
      rewrite Rf by (rewrite Hcur; congruence). apply Hd1. exact Hne.
  - destruct Hrun as [Rh Rp Rl Rd Rs Ro _ Rf]. simpl.
    set (s3 := with_stack (stack s) s2).
    assert (Hl2 : nth_error (observers s3) o = Some (put_status running ob)).
    { subst s3. unfold_updates. rewrite Ro, Hobs1.
      apply nth_error_update_nth with (y := ob). exact Hob. }
    destruct (modify_fields o (put_status (ostatus ob)) s3)
      as (N1 & _ & N3 & N4 & N5 & N6 & N7).
    unfold set_status.
    constructor; unfold unsubscribe_all; unfold_updates.
    + rewrite N7. subst s3. unfold_updates. congruence.
    + rewrite N1. subst s3. unfold_updates. congruence.
    + rewrite N4. subst s3. unfold_updates. congruence.
    + rewrite N5. subst s3. unfold_updates. congruence.
    + rewrite N6. subst s3. unfold_updates. reflexivity.
    + unfold shapes. unfold_updates.
      rewrite (modify_observers o _ _ _ Hl2).
      subst s3. unfold_updates. rewrite Ro, Hobs1, !update_nth_twice.
      apply Hshape; [exact Hob|]. reflexivity.
    + intros o' Hne.
      change (dependencies o'
                (unsubscribe_all o (modify o (put_status (ostatus ob)) s3))
              = dependencies o' s).
      rewrite dependencies_unsubscribe_other by exact Hne.
      rewrite modify_dependencies.
      change (dependencies o' s3) with (dependencies o' s2).
      rewrite Rf by (rewrite Hcur; congruence). apply Hd1. exact Hne.
Qed.

Hypothesis run_body_observe :
  forall p s, readonly p ->
    let cs := fst (fst (observe p (heap s) (wrappers s))) in
    let r := snd (fst (observe p (heap s) (wrappers s))) in
    match run_body p s with
    | Done v s' =>
        r = Some v /\
        forall o, current_observer s = Some o ->
          forall c, In c (dependencies o s') <-> In c (dependencies o s) \/ In c cs
    | Raise e s' => r = None
    | OutOfFuel => False
    end.

(** After a run that returned, the dependency set of the observer is the set
    of cells its body read, and its value is what the body returned; after a
    run that threw, the observer has no subscription. *)
Lemma run_procedure_observe o ob s :
  nth_error (observers s) o = Some ob ->
  ostatus ob = idle ->
  readonly (execute ob (this_arg ob) (call_args ob)) ->
  match run_procedure run_body o s with
  | Done v s' =>
      ran o ob s s'
      /\ (forall c, In c (dependencies o s')
                    <-> In c (cells_read (execute ob) ob s))
      /\ get_value o s' = Some v
  | Raise e s' => ran o ob s s' /\ dependencies o s' = []
  | OutOfFuel => False
  end.
Proof.
  intros Hob Hidle Hro.
  pose proof (run_procedure_readonly o ob s Hob Hidle Hro) as Hran.
  unfold run_procedure in *. rewrite Hob in *.
  set (s1 := log_run o ob _) in *.
  assert (Hcur : current_observer s1 = Some o).
  { unfold current_observer, status_of. subst s1.
    unfold log_run, push. unfold_updates.
    change (observers (unsubscribe_all o (set_status o running s)))
      with (observers (set_status o running s)).
    unfold set_status. rewrite (modify_lookup o _ s ob Hob). reflexivity. }
  assert (Hd1 : dependencies o s1 = []).
  { subst s1.
    change (dependencies o (unsubscribe_all o (set_status o running s)) = []).
    apply dependencies_unsubscribe_self. }
  assert (Hh1 : heap s1 = heap s /\ wrappers s1 = wrappers s).
  { subst s1. unfold log_run, push, unsubscribe_all, set_status. unfold_updates.
    destruct (modify_fields o (put_status running) s) as (H1 & H2 & _).
    rewrite H1, H2. split; reflexivity. }
  destruct Hh1 as (Hh1 & Hw1).
  pose proof (run_body_observe _ s1 Hro) as Hobs. cbn zeta in Hobs.
  rewrite Hh1, Hw1 in Hobs.
  pose proof (run_body_readonly _ s1 Hro) as Hstep.
  destruct (run_body _ s1) as [v s2|e s2|]; simpl in Hran; [| |exact Hran].
  - destruct Hobs as (Hr & Hd). simpl in Hstep.
    split; [exact Hran|]. split.
    + intros c. unfold set_last_value, set_status.
      rewrite !modify_dependencies.
      change (dependencies o (pop s2)) with (dependencies o s2).
      rewrite (Hd o Hcur c), Hd1. unfold cells_read. simpl. tauto.
    + unfold get_value, set_last_value, set_status.
      assert (Hl : exists ob', nth_error (observers (modify o (put_status idle) (pop s2))) o
                               = Some ob').
      { assert (Hl0 : nth_error (observers (pop s2)) o
                      = Some (put_status running ob)).
        { unfold_updates. rewrite (rs_observers _ _ Hstep). subst s1.
          unfold log_run, push, unsubscribe_all, set_status. unfold_updates.
          apply modify_lookup. exact Hob. }
        eexists. apply modify_lookup. exact Hl0. }
      destruct Hl as [ob' Hl]. rewrite (modify_lookup o _ _ _ Hl). reflexivity.
  - split; [exact Hran|]. apply dependencies_unsubscribe_self.
Qed.

Lemma runs_of_snoc o o' this args l :
  runs_of o' (l ++ [Ran o this args])
  = runs_of o' l + (if Nat.eqb o o' then 1 else 0).
Proof.
  unfold runs_of. rewrite filter_app, length_app. simpl.
  destruct (Nat.eqb o o'); reflexivity.
Qed.

Lemma all_readonly_lookup s o ob :
  all_readonly s -> nth_error (observers s) o = Some ob ->
  forall this args, readonly (execute ob this args).
Proof.
  unfold all_readonly, bodies. intros H Hob.
  rewrite Forall_forall in H. apply H.
  apply in_map. eapply nth_error_In. exact Hob.
Qed.

Lemma all_readonly_shapes s s' :
  shapes s' = shapes s -> all_readonly s -> all_readonly s'.
Proof.
  intros H. unfold all_readonly. rewrite (shapes_bodies s s' H). auto.
Qed.

Lemma is_idle_shapes s s' o : shapes s' = shapes s -> is_idle s' o = is_idle s o.
Proof. intros H. unfold is_idle. rewrite (shapes_status s s' o H). reflexivity. Qed.

Lemma drain_loop_readonly : forall q n errs s,
  pending s = q -> List.length q < n -> all_readonly s -> NoDup q ->
  exists errs' s',
    drain_loop run_body n errs s = Done errs' s' /\ drained q s s' /\
    exists more, errs' = errs ++ more /\ List.length more <= List.length q.
Proof.
  induction q as [|o rest IH]; intros n errs s Hq Hn Hro Hnd;
    (destruct n as [|n]; [simpl in Hn; lia|]); simpl; rewrite Hq.
  - exists errs, s. split; [reflexivity|]. split.
    + constructor; auto.
    + exists []. rewrite app_nil_r. split; [reflexivity|simpl; lia].
  - set (s1 := with_pending rest s).
    assert (Hst : status_of s1 o = status_of s o) by reflexivity.
    assert (Hro1 : all_readonly s1) by exact Hro.
    inversion Hnd as [|x l Hnotin Hnd']; subst x l.
    assert (Hmem : mem_oid o rest = false).
    { destruct (mem_oid o rest) eqn:E; [|reflexivity].
      apply mem_oid_In in E. contradiction. }
    assert (Hskip :
      is_idle s o = false ->
      forall errs0, exists errs' s',
        drain_loop run_body n errs0 s1 = Done errs' s' /\
        drained (o :: rest) s s' /\
        exists more, errs' = errs0 ++ more /\
                     List.length more <= List.length (o :: rest)).
    { intros Hni errs0.
      destruct (IH n errs0 s1 eq_refl ltac:(simpl in Hn; lia) Hro1 Hnd')
        as (errs' & s' & Hd & [D1 D2 D3 D4 D5 D6 D7] & more & Hm & Hlen).
      exists errs', s'. split; [exact Hd|]. split.
      - constructor; auto.
        + intros o'. rewrite D6. change (log s1) with (log s).
          change (is_idle s1 o') with (is_idle s o'). simpl.
          destruct (Nat.eqb_spec o' o) as [->|Hne]; [|reflexivity].
          rewrite Hmem, Hni. reflexivity.
        + intros o' Ho'. rewrite D7; [reflexivity|].
          change (is_idle s1 o') with (is_idle s o').
          simpl in Ho'. destruct (Nat.eqb o' o); simpl in Ho'.
          * destruct (mem_oid o' rest); [exact Ho'|reflexivity].
          * exact Ho'.
      - exists more. split; [exact Hm|simpl; lia]. }
    destruct (nth_error (observers s) o) as [ob|] eqn:Hob0.
    2: { assert (Hs : status_of s o = None)
           by (unfold status_of; rewrite Hob0; reflexivity).
         rewrite Hst, Hs. apply Hskip. unfold is_idle. rewrite Hs. reflexivity. }
    assert (Hs : status_of s o = Some (ostatus ob))
      by (unfold status_of; rewrite Hob0; reflexivity).
    rewrite Hst, Hs.
    destruct (ostatus ob) eqn:Hidle;
      try (apply Hskip; unfold is_idle; rewrite Hs; reflexivity).
    assert (Hob : nth_error (observers s1) o = Some ob) by exact Hob0.
    pose proof (run_procedure_readonly o ob s1 Hob Hidle
                  (all_readonly_lookup s1 o ob Hro1 Hob _ _)) as Hrun.
    assert (Hio : is_idle s o = true).
    { unfold is_idle. rewrite Hs. reflexivity. }
    assert (Hnext :
      forall s2 errs0, ran o ob s1 s2 ->
        exists errs' s',
          drain_loop run_body n errs0 s2 = Done errs' s' /\
          drained (o :: rest) s s' /\
          exists more, errs' = errs0 ++ more /\
                       List.length more <= List.length rest).
    { intros s2 errs0 [R1 R2 R3 R4 R5 R6 R7].
      destruct (IH n errs0 s2 R3 ltac:(simpl in Hn; lia)
                  (all_readonly_shapes s1 s2 R6 Hro1) Hnd')
        as (errs' & s' & Hd & [D1 D2 D3 D4 D5 D6 D7] & more & Hm & Hlen).
      exists errs', s'. split; [exact Hd|]. split.
      - constructor.
        + exact D1.
        + rewrite D2, R2. reflexivity.
        + rewrite D3, R4. reflexivity.
        + rewrite D4, R5. reflexivity.
        + rewrite D5, R6. reflexivity.
        + intros o'. rewrite D6, R1, runs_of_snoc.
          rewrite (is_idle_shapes s1 s2 o' R6).
          change (log s1) with (log s).
          change (is_idle s1 o') with (is_idle s o'). simpl.
          rewrite (Nat.eqb_sym o o').
          destruct (Nat.eqb_spec o' o) as [->|Hne].
          * rewrite Hmem, Hio. simpl. lia.
          * simpl. lia.
        + intros o' Ho'. specialize (D7 o').
          rewrite (is_idle_shapes s1 s2 o' R6) in D7.
          change (is_idle s1 o') with (is_idle s o') in D7.
          simpl in Ho'. destruct (Nat.eqb_spec o' o) as [->|Hne].
          * simpl in Ho'. congruence.
          * simpl in Ho'. rewrite D7 by exact Ho'.
            rewrite R7 by exact Hne. reflexivity.
      - exists more. split; [exact Hm|exact Hlen]. }
    destruct (run_procedure run_body o s1) as [v s2|e s2|]; simpl in Hrun;
      [| |contradiction].
    + destruct (Hnext s2 errs Hrun) as (errs' & s' & Hd & Hdr & more & Hm & Hlen).
      exists errs', s'. split; [exact Hd|]. split; [exact Hdr|].
      exists more. split; [exact Hm|simpl; lia].
    + destruct (Hnext s2 (errs ++ [e]) Hrun)
        as (errs' & s' & Hd & Hdr & more & Hm & Hlen).
      exists errs', s'. split; [exact Hd|]. split; [exact Hdr|].
      exists (e :: more). split.
      * rewrite Hm, <- app_assoc. reflexivity.
      * simpl. lia.
Qed.

End ReadOnlyRuns.

(** ** C1: writes without observable change *)

(** C1.  A write after which the effective value is strictly equal to the
    old one, the own keys are the same set and the existence of the key is
    unchanged, returns without any notification: the queue, the subscriptions
    and the observers are untouched and no observer runs, whichever cell
    (value, HAS(key), OWN_KEYS) it is subscribed to. *)
Theorem unchanged_write_is_silent
    (rb : prog -> state -> outcome value) (n : nat)
    (s : state) (a : addr) (k : key) (v : value) :
  value_eqb (read (object_at (assigned s a k v) a) k) (read (object_at s a) k)
    = true ->
  same_key_set (own_keys (object_at (assigned s a k v) a))
               (own_keys (object_at s a)) = true ->
  has_key (object_at (assigned s a k v) a) k = has_key (object_at s a) k ->
  set_trap rb n a k v s = Done tt (assigned s a k v)
  /\ pending (assigned s a k v) = pending s
  /\ (forall c, collect c (assigned s a k v) = collect c s)
  /\ observers (assigned s a k v) = observers s
  /\ (forall o, runs_of o (log (assigned s a k v)) = runs_of o (log s))
  /\ (forall w, source_of s w = Some a ->
        go rb n (Put w k v (Ret VUndef)) s = Done VUndef (assigned s a k v)).
Proof.
  intros Hv Hk Hh.
  assert (Hset : set_trap rb n a k v s = Done tt (assigned s a k v)).
  { unfold set_trap. fold (assigned s a k v). rewrite Hv, Hk, Hh.
    rewrite Bool.eqb_reflx. reflexivity. }
  repeat split; auto.
  intros w Hw. simpl. rewrite Hw, Hset. reflexivity.
Qed.

Lemma unchanged_write_is_silent_witness :
  set_trap (exec 1) 1 0 "foo" (VStr "bar") identical_values
  = Done tt (assigned identical_values 0 "foo" (VStr "bar"))
  /\ collect (0, Value "foo") identical_values = [0]
  /\ runs_of 0 (log (assigned identical_values 0 "foo" (VStr "bar"))) = 1.
Proof.
  destruct (unchanged_write_is_silent (exec 1) 1 identical_values 0 "foo"
              (VStr "bar") eq_refl eq_refl eq_refl) as (H & _ & _ & _ & Hr & _).
  split; [exact H|]. split; [reflexivity|]. rewrite Hr. reflexivity.
Defined.

(** The three tests: writing the value that is already there runs nobody;
    changing the value of an existing property runs neither the observer of
    ['foo' in r] nor the observer of the keys of [r]; deleting an absent
    property runs nobody, deleting [foo] and adding it back runs the observer
    of the keys each time. *)
Example redundant_writes_scenario :
  let has_observer :=
    final_state
      (exec 2 (call_all [0] (Ret VUndef))
         (setup [[("foo", VStr "bar")]]
            [fun _ _ => Has 0 "foo" (fun b => Ret (VBool b))]))
      empty_state in
  let keys_observer :=
    final_state
      (exec 2 (call_all [0] (Ret VUndef))
         (setup [[("foo", VStr "bar")]]
            [fun _ _ => OwnKeys 0 (fun _ => Ret VUndef)]))
      empty_state in
  let after p s := final_state (exec 3 p s) empty_state in
  let k1 := after (Put 0 "foo" (VStr "baz") (Ret VUndef)) keys_observer in
  let k2 := after (Delete 0 "boo" (Ret VUndef)) k1 in
  let k3 := after (Delete 0 "foo" (Ret VUndef)) k2 in
  let k4 := after (Put 0 "foo" (VStr "bar") (Ret VUndef)) k3 in
  runs_of 0 (log (after (Put 0 "foo" (VStr "bar") (Ret VUndef)) identical_values))
  = 1
  /\ runs_of 0 (log (after (Put 0 "foo" (VStr "baz") (Ret VUndef)) has_observer))
     = 1
  /\ runs_of 0 (log k1) = 1 /\ runs_of 0 (log k2) = 1
  /\ runs_of 0 (log k3) = 2 /\ runs_of 0 (log k4) = 3.
Proof. vm_compute. repeat split. Qed.

(** ** C2: errors of one drain *)

Lemma flatten_plain errs :
  forallb (fun e => negb (is_composite e)) errs = true -> flatten errs = errs.
Proof.
  unfold flatten. induction errs as [|e l IH]; simpl; [reflexivity|].
  intros H. apply andb_true_iff in H. destruct H as [He Hl].
  rewrite IH by exact Hl. destruct e; simpl in *; try reflexivity. discriminate.
Qed.

Lemma flatten_app l1 l2 : flatten (l1 ++ l2) = flatten l1 ++ flatten l2.
Proof. unfold flatten. apply flat_map_app. Qed.

Lemma drain_settles rb n s errs s1 :
  drain_loop rb n [] (enter s) = Done errs s1 ->
  drain rb n s = settle errs (leave s1).
Proof. intros H. unfold drain. rewrite H. reflexivity. Qed.



(** ** C5: the canonical mapping *)

Lemma index_of_sound a l : forall i, index_of a l = Some i -> nth_error l i = Some a.
Proof.
  induction l as [|x l IH]; intros i H; simpl in H; [discriminate|].
  destruct (Nat.eqb_spec x a) as [->|Hne].
  - injection H as <-. reflexivity.
  - destruct (index_of a l) as [j|]; [|discriminate].
    injection H as <-. simpl. apply IH. reflexivity.
Qed.

Lemma index_of_app_found a l l' : forall i,
  index_of a l = Some i -> index_of a (l ++ l') = Some i.
Proof.
  induction l as [|x l IH]; intros i H; simpl in *; [discriminate|].
  destruct (Nat.eqb x a); [exact H|].
  destruct (index_of a l) as [j|]; [|discriminate].
  rewrite (IH j eq_refl). exact H.
Qed.

Lemma index_of_app_fresh a l :
  index_of a l = None -> index_of a (l ++ [a]) = Some (List.length l).
Proof.
  induction l as [|x l IH]; simpl.
  - intros _. rewrite Nat.eqb_refl. reflexivity.
  - destruct (Nat.eqb x a); [discriminate|].
    destruct (index_of a l) as [j|]; [discriminate|].
    intros _. rewrite IH by reflexivity. reflexivity.
Qed.

(** Wrapping is stable: the wrapper made for [a] is found again and leads
    back to [a]. *)
Lemma wrap_index a s :
  index_of a (wrappers (snd (wrap a s))) = Some (fst (wrap a s)).
Proof.
  unfold wrap. destruct (index_of a (wrappers s)) as [w|] eqn:H; simpl.
  - exact H.
  - apply index_of_app_fresh. exact H.
Qed.

Lemma wrap_found a s w : index_of a (wrappers s) = Some w -> wrap a s = (w, s).
Proof. intros H. unfold wrap. rewrite H. reflexivity. Qed.

Lemma get_trap_object a k s b :
  read (object_at s a) k = VObj b ->
  get_trap a k s
  = (VProxy (fst (wrap b (track (a, Value k) s))),
     snd (wrap b (track (a, Value k) s))).
Proof.
  intros H. unfold get_trap.
  assert (E : object_at (track (a, Value k) s) a = object_at s a).
  { unfold object_at. destruct (track_fields (a, Value k) s) as (-> & _).
    reflexivity. }
  rewrite E, H. destruct (wrap b _). reflexivity.
Qed.



(** 'Wraps the same object to the same Reactor': one outer object wrapped
    twice, one inner object stored under [foo] and [bar]. *)
Example same_object_same_reactor :
  let s0 := setup [[("foo", VObj 1); ("bar", VObj 1)]; []] [] in
  exists rA sA rB sB,
    Reactor (Some (VObj 0)) s0 = Done rA sA
    /\ Reactor (Some (VObj 0)) sA = Done rB sB
    /\ rA = rB
    /\ fst (get_trap 0 "foo" sB) = fst (get_trap 0 "bar" sB)
    /\ shuck rA sB = VObj 0.
Proof. simpl. repeat eexists. Qed.

(** ** C4: [hide] *)



(** The test itself: mutating [inner] does not re-run the observer, mutating
    [outer] does, and the observer's value is what [hide] returned. *)
Example hide_block_scenario :
  let after_inner := final_state (exec 3 (Put 0 "inner" (VStr "baz") (Ret VUndef))
                                    hide_scenario) empty_state in
  let after_outer := final_state (exec 3 (Put 0 "outer" (VStr "moo") (Ret VUndef))
                                    after_inner) empty_state in
  runs_of 0 (log hide_scenario) = 1
  /\ get_value 0 hide_scenario = Some (VStr "bar")
  /\ runs_of 0 (log after_inner) = 1
  /\ runs_of 0 (log after_outer) = 2
  /\ get_value 0 after_outer = Some (VStr "baz").
Proof. vm_compute. repeat split. Qed.

(** ** Runs that are not started by a drain *)

Lemma exec_readonly fuel p s :
  readonly p -> ends (read_step s) (exec (S fuel) p s).
Proof. intros H. apply go_readonly. exact H. Qed.

Lemma exec_observe fuel p s :
  readonly p ->
  let cs := fst (fst (observe p (heap s) (wrappers s))) in
  let r := snd (fst (observe p (heap s) (wrappers s))) in
  match exec (S fuel) p s with
  | Done v s' =>
      r = Some v /\
      forall o, current_observer s = Some o ->
        forall c, In c (dependencies o s') <-> In c (dependencies o s) \/ In c cs
  | Raise e s' => r = None
  | OutOfFuel => False
  end.
Proof.
  intros H. pose proof (go_observe (exec fuel) fuel p H s) as G.
  cbn zeta in *. change (exec (S fuel) p s) with (go (exec fuel) fuel p s).
  destruct (go (exec fuel) fuel p s); tauto.
Qed.

Lemma leave_enter s : leave (enter s) = s.
Proof. destruct s. reflexivity. Qed.

Lemma flush_empty rb n s : pending s = [] -> flush rb (S n) s = Done tt s.
Proof.
  intros H. unfold flush. destruct (Nat.eqb (depth s) 0); [|reflexivity].
  unfold drain. simpl. rewrite H. simpl. rewrite leave_enter. reflexivity.
Qed.

Lemma shapes_execute s s' o :
  shapes s' = shapes s -> get_execute o s' = get_execute o s.
Proof.
  unfold shapes, get_execute. intros H.
  assert (E : forall l, option_map execute (nth_error l o)
                        = option_map (fun x => fst (fst (fst x)))
                            (nth_error (map shape l) o)).
  { intros l. rewrite nth_error_map. destruct (nth_error l o); reflexivity. }
  rewrite !E, H. reflexivity.
Qed.

Lemma ran_enter o ob s s1 : ran o ob (enter s) s1 -> ran o ob s (leave s1).
Proof.
  intros [R1 R2 R3 R4 R5 R6 R7].
  constructor; unfold_updates; try assumption.
  rewrite R4. reflexivity.
Qed.

Lemma run_now_readonly fuel n o ob s :
  nth_error (observers s) o = Some ob ->
  ostatus ob = idle ->
  readonly (execute ob (this_arg ob) (call_args ob)) ->
  pending s = [] \/ 0 < depth s ->
  match run_now (exec (S fuel)) (S n) o s with
  | Done v s' =>
      ran o ob s s'
      /\ (forall c, In c (dependencies o s')
                    <-> In c (cells_read (execute ob) ob s))
      /\ get_value o s' = Some v
  | Raise e s' => ran o ob s s' /\ dependencies o s' = []
  | OutOfFuel => False
  end.
Proof.
  intros Hob Hidle Hro Hp. unfold run_now.
  pose proof (run_procedure_observe (exec (S fuel)) (exec_readonly fuel)
                (exec_observe fuel) o ob (enter s) Hob Hidle Hro) as H.
  destruct (run_procedure (exec (S fuel)) o (enter s)) as [v s1|e s1|];
    [| |exact H].
  - destruct H as (Hran & Hdeps & Hval).
    assert (Hfl : flush (exec (S fuel)) (S n) (leave s1) = Done tt (leave s1)).
    { destruct Hp as [Hp|Hp].
      - apply flush_empty. unfold_updates.
        rewrite (ran_pending _ _ _ _ Hran). exact Hp.
      - apply flush_held. unfold_updates.
        rewrite (ran_depth _ _ _ _ Hran). simpl. exact Hp. }
    rewrite Hfl. simpl.
    split; [apply ran_enter; exact Hran|]. split; [exact Hdeps|exact Hval].
  - destruct H as (Hran & Hdeps).
    split; [apply ran_enter; exact Hran|exact Hdeps].
Qed.

(** ** C7: [start()] *)

Lemma restarted_of_ran o ob s s1 :
  nth_error (observers s) o = Some ob ->
  ran o (put_status idle ob) (push Hidden (set_status o idle s)) s1 ->
  restarted o ob s (pop s1).
Proof.
  intros Hob [R1 R2 R3 R4 R5 R6 R7].
  set (s0 := push Hidden (set_status o idle s)) in *.
  assert (Hobs0 : observers s0 = update_nth o (put_status idle ob) (observers s)).
  { subst s0. unfold push, set_status. unfold_updates.
    apply modify_observers. exact Hob. }
  destruct (modify_fields o (put_status idle) s)
    as (M1 & _ & M3 & M4 & M5 & M6 & M7).
  fold (set_status o idle s) in M1, M3, M4, M5, M6, M7.
  constructor.
  - change (log (pop s1)) with (log s1). rewrite R1. subst s0.
    unfold push. unfold_updates. rewrite M7. reflexivity.
  - change (status_of (pop s1) o) with (status_of s1 o).
    rewrite (shapes_status _ _ o R6). unfold status_of. rewrite Hobs0.
    rewrite (nth_error_update_nth _ _ _ ob Hob). reflexivity.
  - change (get_execute o (pop s1)) with (get_execute o s1).
    rewrite (shapes_execute _ _ o R6). unfold get_execute. rewrite Hobs0.
    rewrite (nth_error_update_nth _ _ _ ob Hob). reflexivity.
  - change (heap (pop s1)) with (heap s1). rewrite R2. exact M1.
  - change (pending (pop s1)) with (pending s1). rewrite R3. exact M4.
  - change (depth (pop s1)) with (depth s1). rewrite R4. exact M5.
  - unfold pop. unfold_updates. rewrite R5. subst s0. unfold push.
    unfold_updates. exact M6.
  - change (bodies (pop s1)) with (bodies s1).
    rewrite (shapes_bodies _ _ R6). unfold bodies. rewrite Hobs0.
    rewrite map_update_nth. apply update_nth_self.
    rewrite nth_error_map, Hob. reflexivity.
  - intros o' Hne. change (status_of (pop s1) o') with (status_of s1 o').
    rewrite (shapes_status _ _ o' R6). unfold status_of. rewrite Hobs0.
    rewrite nth_error_update_nth_other by congruence. reflexivity.
  - intros o' Hne. change (dependencies o' (pop s1)) with (dependencies o' s1).
    rewrite (R7 o' Hne). subst s0.
    change (dependencies o' (set_status o idle s) = dependencies o' s).
    apply modify_dependencies.
Qed.

Lemma start_stopped_readonly fuel n o ob s :
  nth_error (observers s) o = Some ob ->
  ostatus ob = stopped ->
  readonly (execute ob (this_arg ob) (call_args ob)) ->
  pending s = [] \/ 0 < depth s ->
  match start (exec (S fuel)) (S n) o s with
  | Done _ s' =>
      restarted o ob s s'
      /\ (forall c, In c (dependencies o s')
                    <-> In c (cells_read (execute ob) ob s))
  | Raise e s' => restarted o ob s s' /\ dependencies o s' = []
  | OutOfFuel => False
  end.
Proof.
  intros Hob Hst Hro Hp. unfold start.
  assert (Hs : status_of s o = Some stopped)
    by (unfold status_of; rewrite Hob; simpl; rewrite Hst; reflexivity).
  rewrite Hs.
  set (s0 := push Hidden (set_status o idle s)).
  assert (Hob0 : nth_error (observers s0) o = Some (put_status idle ob)).
  { subst s0. unfold push, set_status. unfold_updates.
    apply modify_lookup. exact Hob. }
  assert (Hp0 : pending s0 = [] \/ 0 < depth s0).
  { subst s0. unfold push, set_status. unfold_updates.
    destruct (modify_fields o (put_status idle) s)
      as (_ & _ & _ & -> & -> & _).
    exact Hp. }
  assert (Hcells : cells_read (execute ob) (put_status idle ob) s0
                   = cells_read (execute ob) ob s).
  { unfold cells_read. subst s0. unfold push, set_status. unfold_updates.
    destruct (modify_fields o (put_status idle) s) as (-> & -> & _).
    reflexivity. }
  pose proof (run_now_readonly fuel n o (put_status idle ob) s0 Hob0 eq_refl
                Hro Hp0) as H.
  destruct (run_now (exec (S fuel)) (S n) o s0) as [v s1|e s1|]; [| |exact H].
  - destruct H as (Hran & Hdeps & _). split.
    + apply restarted_of_ran; assumption.
    + intros c. change (dependencies o (pop s1)) with (dependencies o s1).
      rewrite (Hdeps c). simpl. rewrite Hcells. tauto.
  - destruct H as (Hran & Hdeps). split.
    + apply restarted_of_ran; assumption.
    + exact Hdeps.
Qed.



(** The two tests: a repeated [start()] does not add a run; the outer observer
    that started the inner one is not re-run when [foo] changes, the inner
    one is. *)
Example repeated_starts_scenario :
  let s2 := final_state (exec 3 (Start 0 (Start 0 (Ret VUndef))) stopped_observer)
              empty_state in
  runs_of 0 (log stopped_observer) = 1
  /\ runs_of 0 (log s2) = 2
  /\ get_value 0 s2 = Some (VStr "moo").
Proof. vm_compute. repeat split. Qed.

Example start_inside_scenario :
  let s2 := final_state (exec 3 (Put 0 "foo" (VStr "baz") (Ret VUndef)) start_inside)
              empty_state in
  runs_of 1 (log start_inside) = 1 /\ runs_of 0 (log start_inside) = 1
  /\ dependencies 1 start_inside = []
  /\ runs_of 1 (log s2) = 1 /\ runs_of 0 (log s2) = 2.
Proof. vm_compute. repeat split. Qed.

(** 'can set context and react to it': the observer is called as a method of
    [bar] (the object at address 1) with the argument ['qux']; the re-run that
    a write triggers, and the run that [start()] triggers after a [stop()],
    use the same [this] and arguments. *)
Example context_scenario :
  let s0 := setup [[]; []] [reader 0 "foo"] in
  let s1 := final_state
              (exec 3 (Invoke 0 (VObj 1) [VStr "qux"] (fun _ => Ret VUndef)) s0)
              empty_state in
  let s2 := final_state
              (exec 3 (Put 0 "foo" (VStr "bop") (Stop 0 (Start 0 (Ret VUndef)))) s1)
              empty_state in
  log s0 = []
  /\ log s1 = [Ran 0 (VObj 1) [VStr "qux"]]
  /\ log s2 = [Ran 0 (VObj 1) [VStr "qux"]; Ran 0 (VObj 1) [VStr "qux"];
               Ran 0 (VObj 1) [VStr "qux"]]
  /\ get_value 0 s2 = Some (VStr "bop").
Proof. vm_compute. repeat split. Qed.

(** ** C8: redefinition *)

Lemma collect_dependencies o c s : In o (collect c s) <-> In c (dependencies o s).
Proof.
  unfold collect, dependencies. rewrite !in_map_iff. split.
  - intros [[c' o'] [Heq Hin]]. simpl in Heq. subst o'.
    apply filter_In in Hin. destruct Hin as [Hin Hc]. simpl in Hc.
    apply cell_eqb_eq in Hc. subst c'.
    exists (c, o). split; [reflexivity|]. apply filter_In.
    split; [exact Hin|]. simpl. apply Nat.eqb_refl.
  - intros [[c' o'] [Heq Hin]]. simpl in Heq. subst c'.
    apply filter_In in Hin. destruct Hin as [Hin Ho]. simpl in Ho.
    apply Nat.eqb_eq in Ho. subst o'.
    exists (c, o). split; [reflexivity|]. apply filter_In.
    split; [exact Hin|]. simpl. apply cell_eqb_eq. reflexivity.
Qed.



(** The test: after the redefinition, writing [first] does not run the
    observer, writing [second] does. *)
Example redefine_observer_scenario :
  let s1 := final_state
              (exec 3 (SetExecute 0 (reader 0 "second") (Ret VUndef))
                 redefine_scenario) empty_state in
  let s2 := final_state (exec 3 (Put 0 "first" (VStr "moo") (Ret VUndef)) s1)
              empty_state in
  let s3 := final_state (exec 3 (Put 0 "second" (VStr "baz") (Ret VUndef)) s2)
              empty_state in
  runs_of 0 (log redefine_scenario) = 1
  /\ runs_of 0 (log s1) = 2 /\ get_value 0 s1 = Some (VStr "bar")
  /\ runs_of 0 (log s2) = 2
  /\ runs_of 0 (log s3) = 3 /\ get_value 0 s3 = Some (VStr "baz").
Proof. vm_compute. repeat split. Qed.

(** ** C6: one write, one re-run *)

Lemma set_trap_schedules rb n a k v s :
  set_trap rb n a k v s
  = match notified s a k v with
    | [] => Done tt (assigned s a k v)
    | cs => flush rb n (schedule_all cs (assigned s a k v))
    end.
Proof.
  unfold set_trap, notified. fold (assigned s a k v).
  destruct (value_eqb _ _), (same_key_set _ _), (Bool.eqb _ _); reflexivity.
Qed.

Lemma existsb_pointwise {A : Type} (f g : A -> bool) (l : list A) :
  (forall x, f x = g x) -> existsb f l = existsb g l.
Proof.
  intros H. induction l as [|x l IH]; simpl; [reflexivity|].
  rewrite H, IH. reflexivity.
Qed.

Lemma schedule_all_fields cs : forall s,
  heap (schedule_all cs s) = heap s /\
  observers (schedule_all cs s) = observers s /\
  edges (schedule_all cs s) = edges s /\
  depth (schedule_all cs s) = depth s /\
  stack (schedule_all cs s) = stack s /\
  log (schedule_all cs s) = log s /\
  (NoDup (pending s) -> NoDup (pending (schedule_all cs s))) /\
  (forall o, mem_oid o (pending (schedule_all cs s))
             = mem_oid o (pending s)
               || existsb (fun c => mem_oid o (collect c s)) cs).
Proof.
  induction cs as [|c cs IH]; intros s; simpl.
  - repeat (split; [reflexivity|]). split; [auto|].
    intros o. rewrite orb_false_r. reflexivity.
  - destruct (IH (schedule c s)) as (H1 & H2 & H3 & H4 & H5 & H6 & H7 & H8).
    destruct (schedule_fields c s)
      as (E1 & _ & E3 & E4 & E5 & E6 & E7 & E8 & E9).
    unfold schedule_all in *. simpl.
    repeat (split; [congruence|]). split; [auto|].
    intros o. rewrite H8, E9, <- orb_assoc. f_equal. f_equal.
    apply existsb_pointwise. intros c'. unfold collect. rewrite E4. reflexivity.
Qed.

Lemma nth_update_nth {A : Type} (d : A) (l : list A) : forall i j x,
  nth j (update_nth i x l) d
  = if Nat.eqb j i && Nat.ltb i (List.length l) then x else nth j l d.
Proof.
  induction l as [|h t IH]; intros [|i] [|j] x; simpl;
    rewrite ?andb_false_r; try reflexivity.
  rewrite IH. reflexivity.
Qed.

Lemma lookup_assign_other o k v k' :
  k' <> k -> lookup (assign o k v) k' = lookup o k'.
Proof.
  intros Hne. induction o as [|[k0 v0] rest IH]; simpl.
  - destruct (String.eqb_spec k k'); [congruence|reflexivity].
  - destruct (String.eqb_spec k0 k) as [->|Hk]; simpl.
    + destruct (String.eqb_spec k k'); [congruence|reflexivity].
    + rewrite IH. reflexivity.
Qed.

(** Every cell whose projection the assignment changed is notified. *)
Lemma changed_is_notified s a k v c :
  projection_changed s (assigned s a k v) c = true -> In c (notified s a k v).
Proof.
  destruct c as [a' acc].
  assert (Hobj : object_at (assigned s a k v) a'
                 = if Nat.eqb a' a && Nat.ltb a (List.length (heap s))
                   then assign (object_at s a) k v else object_at s a').
  { unfold object_at, assigned. unfold_updates. apply nth_update_nth. }
  destruct (Nat.eqb_spec a' a) as [->|Hne].
  2: { intros H. exfalso. simpl in Hobj. unfold projection_changed in H.
       rewrite Hobj in H.
       destruct acc; simpl in H.
       - destruct (read (object_at s a') k0); simpl in H;
           rewrite ?Bool.eqb_reflx, ?Z.eqb_refl, ?String.eqb_refl, ?Nat.eqb_refl in H;
           discriminate.
       - rewrite Bool.eqb_reflx in H. discriminate.
       - unfold same_key_set in H.
         assert (E : forall l, forallb (fun k1 => mem_key k1 l) l = true).
         { intros l. apply forallb_forall. intros x Hx. unfold mem_key.
           apply existsb_exists. exists x. split; [exact Hx|apply String.eqb_refl]. }
         rewrite E in H. discriminate. }
  simpl in Hobj. intros H. unfold notified.
  set (new := object_at (assigned s a k v) a) in *.
  set (old := object_at s a) in *.
  assert (Hother : forall k', k' <> k -> lookup new k' = lookup old k').
  { intros k' Hk. rewrite Hobj.
    destruct (Nat.ltb a (List.length (heap s))); [|reflexivity].
    apply lookup_assign_other. exact Hk. }
  destruct acc as [k'|k'|]; simpl in H; fold new old in H.
  - destruct (String.eqb_spec k' k) as [->|Hk].
    + apply negb_true_iff in H. rewrite H. simpl. left. reflexivity.
    + exfalso. unfold read in H. rewrite (Hother k' Hk) in H.
      destruct (lookup old k') as [x|]; [destruct x|]; simpl in H;
        rewrite ?Bool.eqb_reflx, ?Z.eqb_refl, ?String.eqb_refl, ?Nat.eqb_refl in H;
        discriminate.
  - destruct (String.eqb_spec k' k) as [->|Hk].
    + apply negb_true_iff in H. rewrite H, andb_false_r. simpl.
      right. left. reflexivity.
    + exfalso. unfold has_key in H. rewrite (Hother k' Hk) in H.
      rewrite Bool.eqb_reflx in H. discriminate.
  - apply negb_true_iff in H. rewrite H, andb_false_r. simpl.
    right. apply in_or_app. right. left. reflexivity.
Qed.

Lemma drain_readonly fuel n q s :
  pending s = q -> List.length q < n -> all_readonly s -> NoDup q ->
  ends (drained q s) (drain (exec (S fuel)) n s).
Proof.
  intros Hq Hn Hro Hnd. unfold drain.
  destruct (drain_loop_readonly (exec (S fuel)) (exec_readonly fuel)
              q n [] (enter s) Hq Hn Hro Hnd)
    as (errs & s1 & Hloop & [D1 D2 D3 D4 D5 D6 D7] & _).
  rewrite Hloop.
  assert (Hd : drained q s (leave s1)).
  { constructor; unfold_updates; try assumption. rewrite D3. reflexivity. }
  unfold settle. destruct errs as [|e [|e' errs]]; exact Hd.
Qed.

Lemma collect_in_edges o c s : In o (collect c s) -> In o (map snd (edges s)).
Proof.
  unfold collect. rewrite !in_map_iff. intros [e [He Hin]].
  apply filter_In in Hin. exists e. tauto.
Qed.

Lemma scheduled_length cs s :
  pending s = [] ->
  NoDup (pending (schedule_all cs s))
  /\ List.length (pending (schedule_all cs s)) <= List.length (edges s).
Proof.
  intros Hp.
  destruct (schedule_all_fields cs s) as (_ & _ & _ & _ & _ & _ & Hnd & Hmem).
  assert (Hn : NoDup (pending (schedule_all cs s)))
    by (apply Hnd; rewrite Hp; constructor).
  split; [exact Hn|].
  rewrite <- (length_map snd (edges s)). apply NoDup_incl_length; [exact Hn|].
  intros o Hin. apply mem_oid_In in Hin. rewrite Hmem, Hp in Hin. simpl in Hin.
  apply existsb_exists in Hin. destruct Hin as [c [_ Hc]].
  apply mem_oid_In in Hc. apply collect_in_edges with (c := c). exact Hc.
Qed.

(** The write-and-drain cycle of a top-level write, when no observer writes:
    every idle subscriber of a notified cell runs exactly once, nobody else
    runs, and the queue is empty at the end. *)
Lemma set_trap_readonly fuel n s a k v :
  depth s = 0 -> pending s = [] -> all_readonly s ->
  List.length (edges s) < n ->
  ends (fun s' =>
          pending s' = [] /\
          forall o,
            runs_of o (log s')
            = runs_of o (log s)
              + (if existsb (fun c => mem_oid o (collect c s)) (notified s a k v)
                    && is_idle s o
                 then 1 else 0))
       (set_trap (exec (S fuel)) n a k v s).
Proof.
  intros Hd Hp Hro Hn. rewrite set_trap_schedules.
  destruct (notified s a k v) as [|c cs] eqn:Hcs.
  - simpl. split; [exact Hp|]. intros o. simpl. lia.
  - set (s1 := assigned s a k v).
    assert (Hp1 : pending s1 = []) by exact Hp.
    destruct (schedule_all_fields (c :: cs) s1)
      as (F1 & F2 & F3 & F4 & F5 & F6 & F7 & F8).
    destruct (scheduled_length (c :: cs) s1 Hp1) as (Hnd & Hlen).
    set (s2 := schedule_all (c :: cs) s1) in *.
    unfold flush. rewrite F4. change (depth s1) with (depth s). rewrite Hd.
    simpl Nat.eqb. cbv iota.
    assert (Hro2 : all_readonly s2).
    { unfold all_readonly, bodies. rewrite F2. exact Hro. }
    pose proof (drain_readonly fuel n (pending s2) s2 eq_refl
                  ltac:(change (edges s1) with (edges s) in Hlen; lia)
                  Hro2 Hnd) as Hdr.
    apply ends_impl with (2 := Hdr).
    intros s' [D1 _ _ _ _ D6 _]. split; [exact D1|].
    intros o. rewrite D6, F6. change (log s1) with (log s).
    rewrite F8, Hp1. simpl mem_oid at 1. rewrite orb_false_l.
    assert (Hi : is_idle s2 o = is_idle s o).
    { unfold is_idle, status_of. rewrite F2. reflexivity. }
    rewrite Hi. reflexivity.
Qed.



(** 'triggers only once despite multiple dependencies': the observer asks
    ['foo' in r], reads [r.foo] and lists the keys of [r]; [r.foo = 'baz']
    runs it once. *)
Example multiple_dependencies_scenario :
  let s0 :=
    final_state
      (exec 2 (call_all [0] (Ret VUndef))
         (setup [[("foo", VStr "bar")]]
            [fun _ _ => Has 0 "foo" (fun _ => Get 0 "foo" (fun v =>
                          OwnKeys 0 (fun _ => Ret v)))]))
      empty_state in
  let s1 := final_state (exec 3 (Put 0 "foo" (VStr "baz") (Ret VUndef)) s0)
              empty_state in
  runs_of 0 (log s0) = 1 /\ get_value 0 s0 = Some (VStr "bar")
  /\ runs_of 0 (log s1) = 2 /\ get_value 0 s1 = Some (VStr "baz").
Proof. vm_compute. repeat split. Qed.


Example chained_write_runs :
  let s' := final_state (exec 6 (Put 0 "x" (VNum 1) (Ret VUndef)) chain)
              empty_state in
  runs_of 0 (log chain) = 1 /\ runs_of 0 (log s') = 3
  /\ runs_of 1 (log chain) = 1 /\ runs_of 1 (log s') = 2.
Proof. vm_compute. repeat split. Qed.

(** ** C3: batching *)

Lemma go_batch rb n f cont s :
  go rb n (Batch f cont) s
  = match go rb n f (enter s) with
    | Done v s1 =>
        match flush rb n (leave s1) with
        | Done _ s2 => go rb n (cont v) s2
        | Raise e s2 => Raise e s2
        | OutOfFuel => OutOfFuel
        end
    | Raise e s1 => Raise e (leave s1)
    | OutOfFuel => OutOfFuel
    end.
Proof. reflexivity. Qed.




(** The two tests: three writes inside a batch, and three more inside a
    nested batch, make the observer run once, after the outer batch. *)
Example nested_batch_scenario :
  let nested :=
    Put 0 "value" (VStr "bleep")
      (Batch (Put 0 "value" (VStr "bink")
                (Put 0 "value" (VStr "bup") (Ret VUndef)))
         (fun _ => Ret (VNum 7))) in
  let inner :=
    final_state (exec 3 nested (enter batch_scenario)) empty_state in
  let s' :=
    final_state (exec 3 (Batch nested Ret) batch_scenario) empty_state in
  runs_of 0 (log batch_scenario) = 1
  /\ runs_of 0 (log inner) = 1 /\ pending inner = [0]
  /\ runs_of 0 (log s') = 2 /\ get_value 0 s' = Some (VStr "bup")
  /\ exists s2, exec 3 (Batch nested Ret) batch_scenario = Done (VNum 7) s2.
Proof. vm_compute. repeat split. eexists. reflexivity. Qed.

End Reactor.

(* ================================================================== *)
(** * Part IV: [isQuerySelector] and the [el] that dispatches on it    *)
(* ================================================================== *)

(** Strings are sequences of code units below 256, one [ascii] each. *)

Module Selector.
Import El.

(** ** Regular expressions *)

(** The patterns of [isQuerySelector] are all of the form [^ a1 a2 ... an]
    where an item is a character class, or a character class under [+].
    Strings are sequences of code units below 256. *)
Inductive atom : Type :=
| One (cls : ascii -> bool)      (* [...] or an escaped character *)
| Plus (cls : ascii -> bool).    (* [...]+ *)

Definition regex : Type := list atom.

(** [pattern.test(s)] for a pattern anchored at the start: the items are
    matched from the first character on, [+] trying every number of
    repetitions (one or more). *)
Fixpoint test (s : string) (p : regex) {struct s} : bool :=
  match p with
  | [] => true
  | a :: r =>
      match s with
      | EmptyString => false
      | String c s' =>
          match a with
          | One cls => cls c && test s' r
          | Plus cls => cls c && (test s' p || test s' r)
          end
      end
  end.

Definition in_range (lo hi c : ascii) : bool :=
  Nat.leb (nat_of_ascii lo) (nat_of_ascii c)
  && Nat.leb (nat_of_ascii c) (nat_of_ascii hi).

Definition one_of (l : list ascii) (c : ascii) : bool :=
  existsb (Ascii.eqb c) l.

(** [[a-zA-Z-]] *)
Definition word (c : ascii) : bool :=
  in_range "a" "z" c || in_range "A" "Z" c || Ascii.eqb c "-".

(** [\s]: tab, line feed, vertical tab, form feed, carriage return, space and
    no-break space are the white space code units below 256. *)
Definition space (c : ascii) : bool :=
  one_of (map ascii_of_nat [9; 10; 11; 12; 13; 32; 160]) c.

Definition chr (a : ascii) : ascii -> bool := fun c => Ascii.eqb c a.

Definition selectorPatterns : list regex := [
  [One (one_of ["."; "#"; "["])];           (* /^[.#[]/ *)
  [Plus word; One (chr "[")];               (* /^[a-zA-Z-]+\[/ *)
  [Plus word; One (chr ":")];               (* /^[a-zA-Z-]+:/ *)
  [Plus word; One (chr ":"); One (chr ":")]; (* /^[a-zA-Z-]+::/ *)
  [Plus word; One (chr "."); One word];     (* /^[a-zA-Z-]+\.[a-zA-Z-]/ *)
  [Plus word; One (chr "#"); One word];     (* /^[a-zA-Z-]+#[a-zA-Z-]/ *)
  [One (one_of [">"; "+"; "~"])];           (* /^[>+~]/ *)
  [Plus word; One space];                   (* /^[a-zA-Z-]+\s/ *)
  [Plus word; One (chr ">")];               (* /^[a-zA-Z-]+>/ *)
  [Plus word; One (chr "+")];               (* /^[a-zA-Z-]+\+/ *)
  [Plus word; One (chr "~")]                (* /^[a-zA-Z-]+~/ *)
]%char.

(** [isQuerySelector] of utils.js. *)
Definition isQuerySelector (testString : jsval) : bool :=
  match testString with
  | JString EmptyString => false
  | JString s => existsb (test s) selectorPatterns
  | _ => false
  end.

(** The root set-up of [el] in the revision of elementary.js that dispatches
    on [isQuerySelector], for a call without children. *)
Definition el (d : document) (descriptor : jsval) : completion element * document :=
  match descriptor with
  | JElement e => (Return e, d)
  | JString s =>
      if isQuerySelector descriptor then
        match querySelector d s with
        | Return (Some self) => (Return self, d)
        | Return None => (Throw (Error (not_found_msg s)), d)
        | Throw e => (Throw e, d)
        end
      else
        let firstWord := hd EmptyString (split_space s) in
        let t := if includes VALID_HTML_TAGS firstWord then firstWord
                 else "div"%string in
        let '(newElement, d') := createElement d t in
        (Return {| node_id := node_id newElement; tag := tag newElement;
                   className := s |}, d')
  | JOther => (Throw (TypeError "el descriptor expects a String or an Element"%string), d)
  end.


(** ** Specification vocabulary *)

Fixpoint all_chars (f : ascii -> bool) (s : string) : bool :=
  match s with
  | EmptyString => true
  | String c rest => f c && all_chars f rest
  end.

(** The longest prefix of [s] made of characters of the class, and what
    follows it. *)
Fixpoint span (f : ascii -> bool) (s : string) : string * string :=
  match s with
  | EmptyString => (EmptyString, EmptyString)
  | String c rest =>
      if f c then let '(w, r) := span f rest in (String c w, r)
      else (EmptyString, s)
  end.

Definition starts_with (f : ascii -> bool) (s : string) : bool :=
  match s with
  | EmptyString => false
  | String c _ => f c
  end.

(** The decision that the eleven patterns amount to, read off the longest
    leading run of letters and hyphens. *)
Definition selector_shape (s : string) : bool :=
  match span word s with
  | (EmptyString, rest) => starts_with (one_of ["."; "#"; "["; ">"; "+"; "~"]%char) rest
  | (_, EmptyString) => false
  | (_, String c rest) =>
      one_of ["["; ":"; ">"; "+"; "~"]%char c
      || space c
      || (one_of ["."; "#"]%char c && starts_with word rest)
  end.

(** Letters, digits, hyphen and underscore. *)
Definition plain (c : ascii) : bool :=
  word c || in_range "0" "9" c || Ascii.eqb c "_".

(** The new element that both revisions make for a descriptor [s] whose first
    word is [w]. *)
Definition created (d : document) (w s : string) : completion element * document :=
  (Return {| node_id := next_id d;
             tag := if includes VALID_HTML_TAGS w then w else "div"%string;
             className := s |},
   {| querySelector := querySelector d; next_id := S (next_id d) |}).

(** What [el] does with a descriptor [s] that it hands to
    [document.querySelector]: it returns the element found, throws the
    [Error] 'not found' when the lookup returns [null], and lets the
    exception of the lookup through when [s] is no valid selector. *)
Definition looked_up (d : document) (s : string) : completion element * document :=
  match querySelector d s with
  | Return (Some self) => (Return self, d)
  | Return None => (Throw (Error (not_found_msg s)), d)
  | Throw e => (Throw e, d)
  end.

(** A document without elements whose lookup rejects the strings 'card 2col'
    and '>li', which are no valid selectors. *)
Definition strict_document : document :=
  {| querySelector := fun s =>
       if String.eqb s "card 2col" || String.eqb s ">li"
       then Throw (DOMException "SyntaxError")
       else Return None;
     next_id := 7 |}.

(** ** Properties *)

Lemma span_spec f s :
  s = (fst (span f s) ++ snd (span f s))%string
  /\ all_chars f (fst (span f s)) = true
  /\ starts_with f (snd (span f s)) = false.
Proof.
  induction s as [|c rest IH]; simpl.
  - repeat split.
  - destruct (f c) eqn:Hc.
    + destruct (span f rest) as [w r]. simpl in *.
      destruct IH as (E & A & N). repeat split.
      * f_equal. exact E.
      * rewrite Hc. exact A.
      * exact N.
    + simpl. rewrite Hc. repeat split.
Qed.

Lemma span_app f w c rest :
  all_chars f w = true -> f c = false ->
  span f (w ++ String c rest) = (w, String c rest).
Proof.
  intros Hw Hc. induction w as [|a w IH]; simpl in *.
  - rewrite Hc. reflexivity.
  - apply andb_true_iff in Hw. destruct Hw as [Ha Hw].
    rewrite Ha, (IH Hw). reflexivity.
Qed.

Lemma span_all f s : all_chars f s = true -> span f s = (s, EmptyString).
Proof.
  induction s as [|a w IH]; simpl; [reflexivity|].
  intros H. apply andb_true_iff in H. destruct H as [Ha Hw].
  rewrite Ha, (IH Hw). reflexivity.
Qed.

(** A run under [+] followed by a character outside the class matches exactly
    when the longest run is non-empty and the rest matches what follows: no
    shorter run can be followed by a character outside the class. *)
Lemma test_plus_then f g r :
  (forall c, g c = true -> f c = false) ->
  forall s,
    test s (Plus f :: One g :: r)
    = match span f s with
      | (EmptyString, _) => false
      | (_, rest) => test rest (One g :: r)
      end.
Proof.
  intros Hdis. induction s as [|c s IH]; [reflexivity|].
  change (test (String c s) (Plus f :: One g :: r))
    with (f c && (test s (Plus f :: One g :: r) || test s (One g :: r))).
  simpl span. destruct (f c) eqn:Hc; [|reflexivity].
  rewrite IH. simpl andb.
  destruct (span f s) as [w rest] eqn:Hs.
  pose proof (span_spec f s) as (E & _ & _). rewrite Hs in E. simpl in E.
  destruct w as [|a w].
  - simpl in E. subst rest. reflexivity.
  - pose proof (span_spec f s) as (_ & A & _). rewrite Hs in A. simpl in A.
    apply andb_true_iff in A. destruct A as [Ha _].
    assert (Hno : test s (One g :: r) = false).
    { rewrite E. simpl. destruct (g a) eqn:Hg; [|reflexivity].
      apply Hdis in Hg. congruence. }
    rewrite Hno. apply orb_false_r.
Qed.

Lemma test_nil s : test s [] = true.
Proof. destruct s; reflexivity. Qed.

Lemma test_one g r s :
  test s (One g :: r)
  = match s with
    | EmptyString => false
    | String c rest => g c && test rest r
    end.
Proof. destruct s; reflexivity. Qed.

Lemma word_not c : word c = true ->
  one_of ["."; "#"; "["]%char c = false
  /\ one_of [">"; "+"; "~"]%char c = false
  /\ space c = false.
Proof.
  intros H. destruct c as [[] [] [] [] [] [] [] []]; vm_compute in H |- *;
    try discriminate; repeat split.
Qed.

Lemma isQuerySelector_shape s :
  isQuerySelector (JString s) = selector_shape s.
Proof.
  destruct s as [|c0 s0]; [reflexivity|].
  unfold isQuerySelector, selectorPatterns, existsb.
  rewrite !(test_one _ _ (String c0 s0)), !test_nil, !andb_true_r.
  set (s := String c0 s0).
  assert (D : forall a, forall c, chr a c = true -> word a = false -> word c = false).
  { intros a c H Ha. unfold chr in H. apply Ascii.eqb_eq in H. subst. exact Ha. }
  rewrite !test_plus_then;
    try (intros c H; first
      [ exact (D _ c H eq_refl)
      | destruct (word c) eqn:W; [|reflexivity];
        destruct (word_not c W) as (_ & _ & Sp); congruence ]).
  unfold selector_shape.
  destruct (span word s) as [w rest] eqn:Hs.
  unfold s in Hs. simpl in Hs.
  destruct (word c0) eqn:W0.
  - destruct (span word s0) as [w0 r0]. injection Hs as <- <-.
    destruct (word_not c0 W0) as (N1 & N2 & _). rewrite N1, N2.
    destruct r0 as [|c rest]; [reflexivity|].
    rewrite !test_one, !test_nil.
    unfold chr, one_of, existsb, starts_with.
    rewrite !andb_true_r, !orb_false_r.
    destruct rest as [|c' rest'].
    + rewrite !andb_false_r.
      destruct (Ascii.eqb c "["), (Ascii.eqb c ":"), (Ascii.eqb c ">"),
        (Ascii.eqb c "+"), (Ascii.eqb c "~"), (space c), (Ascii.eqb c "."),
        (Ascii.eqb c "#"); reflexivity.
    + rewrite !test_nil.
      destruct (Ascii.eqb c "["), (Ascii.eqb c ":"), (Ascii.eqb c ">"),
        (Ascii.eqb c "+"), (Ascii.eqb c "~"), (space c), (Ascii.eqb c "."),
        (Ascii.eqb c "#"), (word c'), (Ascii.eqb c' ":"); reflexivity.
  - injection Hs as <- <-. unfold starts_with, one_of, existsb.
    rewrite !orb_false_r.
    destruct (Ascii.eqb c0 "."), (Ascii.eqb c0 "#"), (Ascii.eqb c0 "["),
      (Ascii.eqb c0 ">"), (Ascii.eqb c0 "+"), (Ascii.eqb c0 "~"); reflexivity.
Qed.


Lemma all_chars_app f a b :
  all_chars f (a ++ b) = all_chars f a && all_chars f b.
Proof.
  induction a as [|c a IH]; simpl; [reflexivity|].
  rewrite IH. apply andb_assoc.
Qed.

Lemma plain_not c : plain c = true -> word c = false ->
  one_of ["."; "#"; "["; ">"; "+"; "~"]%char c = false
  /\ one_of ["["; ":"; ">"; "+"; "~"]%char c = false
  /\ one_of ["."; "#"]%char c = false
  /\ space c = false.
Proof.
  intros H W. destruct c as [[] [] [] [] [] [] [] []];
    vm_compute in H, W |- *; try discriminate; repeat split.
Qed.

Lemma plain_no_space s : all_chars plain s = true -> has_space s = false.
Proof.
  induction s as [|c s IH]; simpl; [reflexivity|].
  intros H. apply andb_true_iff in H. destruct H as [Hc Hs].
  rewrite (IH Hs), orb_false_r.
  destruct c as [[] [] [] [] [] [] [] []]; vm_compute in Hc |- *;
    try discriminate; reflexivity.
Qed.

Lemma word_plain s : all_chars word s = true -> all_chars plain s = true.
Proof.
  induction s as [|c s IH]; simpl; [reflexivity|].
  intros H. apply andb_true_iff in H. destruct H as [Hc Hs].
  unfold plain at 1. rewrite Hc, (IH Hs). reflexivity.
Qed.

Lemma split_space_word s : has_space s = false -> split_space s = [s].
Proof.
  induction s as [|c s IH]; simpl; [reflexivity|].
  intros H. apply orb_false_iff in H. destruct H as [Hc Hs].
  rewrite Hc, (IH Hs). reflexivity.
Qed.

Lemma split_space_app w rest :
  has_space w = false ->
  split_space (w ++ String " " rest) = w :: split_space rest.
Proof.
  induction w as [|c w IH]; simpl; [reflexivity|].
  intros H. apply orb_false_iff in H. destruct H as [Hc Hs].
  rewrite Hc, (IH Hs). reflexivity.
Qed.

Lemma plain_shape s : all_chars plain s = true -> selector_shape s = false.
Proof.
  intros H. unfold selector_shape.
  pose proof (span_spec word s) as (E & _ & N).
  destruct (span word s) as [w rest]. simpl in E, N.
  rewrite E, all_chars_app in H. apply andb_true_iff in H.
  destruct H as [_ Hrest].
  destruct rest as [|c rest].
  - destruct w; reflexivity.
  - simpl in Hrest, N. apply andb_true_iff in Hrest. destruct Hrest as [Hc _].
    destruct (plain_not c Hc N) as (N1 & N2 & N3 & N4).
    destruct w; unfold starts_with; rewrite ?N1, ?N2, ?N3, ?N4; reflexivity.
Qed.

Lemma plain_not_treated s :
  all_chars plain s = true -> isTreatedAsQuerySelector (JString s) = false.
Proof.
  destruct s as [|c s]; [reflexivity|]. simpl. intros H.
  apply andb_true_iff in H. destruct H as [Hc _].
  destruct c as [[] [] [] [] [] [] [] []]; vm_compute in Hc |- *;
    try discriminate; reflexivity.
Qed.

Lemma tags_plain : forallb (all_chars plain) VALID_HTML_TAGS = true.
Proof. vm_compute. reflexivity. Qed.

(** X1.  [isQuerySelector] accepts exactly the non-empty strings that start with
    one of [. # [ > + ~], or whose longest leading run of letters and hyphens
    is non-empty and is followed by one of [[ : > + ~], by white space, or by
    [.] or [#] and then a letter or hyphen.  Anything that is not a string is
    rejected. *)
Theorem isQuerySelector_decision (v : jsval) :
  isQuerySelector v
  = match v with
    | JString s => selector_shape s
    | _ => false
    end.
Proof.
  destruct v as [e|s|]; [reflexivity| |reflexivity].
  apply isQuerySelector_shape.
Qed.

(** X2.  A descriptor made of letters, digits, hyphens and underscores only is a
    selector for neither test, and both revisions of [el] create a new element
    for it: its tag is the descriptor when that is a valid HTML tag and [div]
    otherwise, its class name is the descriptor.  Every entry of
    [VALID_HTML_TAGS] is such a descriptor, so [el(tag)] creates an element
    with that tag. *)
Theorem plain_descriptor_creates :
  (forall d s, all_chars plain s = true ->
     isQuerySelector (JString s) = false
     /\ isTreatedAsQuerySelector (JString s) = false
     /\ el d (JString s) = created d s s
     /\ El.el d (JString s) = created d s s)
  /\ (forall d t, In t VALID_HTML_TAGS ->
        fmap_tag (fst (el d (JString t))) = Some t
        /\ fmap_tag (fst (El.el d (JString t))) = Some t).
Proof.
  assert (Hplain : forall d s, all_chars plain s = true ->
     isQuerySelector (JString s) = false
     /\ isTreatedAsQuerySelector (JString s) = false
     /\ el d (JString s) = created d s s
     /\ El.el d (JString s) = created d s s).
  { intros d s H.
    assert (Hq : isQuerySelector (JString s) = false)
      by (rewrite isQuerySelector_shape; apply plain_shape; exact H).
    pose proof (plain_not_treated s H) as Ht.
    pose proof (split_space_word s (plain_no_space s H)) as Hs.
    split; [exact Hq|]. split; [exact Ht|].
    unfold el, El.el. rewrite Hq, Ht, Hs. split; reflexivity. }
  split; [exact Hplain|].
  intros d t Hin.
  assert (Hp : all_chars plain t = true).
  { pose proof tags_plain as Hall. rewrite forallb_forall in Hall.
    apply Hall. exact Hin. }
  destruct (Hplain d t Hp) as (_ & _ & E1 & E2). rewrite E1, E2.
  unfold created. cbn [fst fmap_tag tag].
  apply includes_In in Hin. rewrite Hin. split; reflexivity.
Qed.

Lemma plain_descriptor_creates_witness :
  fmap_tag (fst (el empty_document (JString "section"))) = Some "section"%string
  /\ el empty_document (JString "card_2")
     = created empty_document "card_2" "card_2".
Proof.
  destruct plain_descriptor_creates as [Hplain Htag]. split.
  - apply (Htag empty_document "section"%string). vm_compute. tauto.
  - apply (Hplain empty_document "card_2"%string). reflexivity.
Defined.



(** X4.  Every string that [isTreatedAsQuerySelector] accepts, [isQuerySelector]
    accepts as well; and the two revisions of [el] return the same for every
    descriptor on which the two tests agree: they differ only on the strings
    that [isQuerySelector] alone takes for a selector.  Such a string the one
    revision hands to [document.querySelector] (returning the element found,
    throwing 'not found' on [null], and passing on the exception of the lookup
    when the string is no valid selector), while the other creates an
    element. *)
Theorem revisions_agree (d : document) (v : jsval) :
  (isTreatedAsQuerySelector v = true -> isQuerySelector v = true)
  /\ (isQuerySelector v = isTreatedAsQuerySelector v -> el d v = El.el d v)
  /\ (el d v <> El.el d v ->
      exists s, v = JString s /\ isQuerySelector v = true
                /\ isTreatedAsQuerySelector v = false
                /\ el d v = looked_up d s
                /\ El.el d v = created d (hd EmptyString (split_space s)) s).
Proof.
  assert (Himp : isTreatedAsQuerySelector v = true -> isQuerySelector v = true).
  { destruct v as [e|s|]; try discriminate.
    rewrite isQuerySelector_shape.
    destruct s as [|c s]; [discriminate|]. simpl. intros H.
    unfold selector_shape. simpl span.
    destruct (word c) eqn:W.
    - exfalso. destruct (word_not c W) as (N & _). unfold one_of in N.
      simpl in N. rewrite !orb_false_r in N.
      apply orb_false_iff in N. destruct N as [N1 N2].
      apply orb_false_iff in N2. destruct N2 as [N2 _].
      rewrite N1, N2 in H. discriminate.
    - simpl. apply orb_true_iff in H. destruct H as [H|H]; rewrite H;
        rewrite ?orb_true_r; reflexivity. }
  split; [exact Himp|]. split.
  - intros H. destruct v as [e|s|]; try reflexivity.
    unfold el, El.el. rewrite H. reflexivity.
  - intros Hneq. destruct v as [e|s|]; try (exfalso; apply Hneq; reflexivity).
    exists s. split; [reflexivity|].
    destruct (isQuerySelector (JString s)) eqn:Hq,
             (isTreatedAsQuerySelector (JString s)) eqn:Ht.
    + exfalso. apply Hneq. unfold el, El.el. rewrite Hq, Ht. reflexivity.
    + repeat split.
      * unfold el. rewrite Hq. reflexivity.
      * unfold El.el. rewrite Ht. reflexivity.
    + specialize (Himp eq_refl). discriminate.
    + exfalso. apply Hneq. unfold el, El.el. rewrite Hq, Ht. reflexivity.
Qed.

Lemma revisions_agree_witness :
  el empty_document (JString "#app") = El.el empty_document (JString "#app")
  /\ isQuerySelector (JString ".card") = true
  /\ (exists s, JString "ul>li" = JString s
                /\ el empty_document (JString "ul>li") = looked_up empty_document s)
  /\ (exists s, JString ">li" = JString s
                /\ el strict_document (JString ">li") = looked_up strict_document s
                /\ El.el strict_document (JString ">li")
                   = created strict_document ">li" s).
Proof.
  destruct (revisions_agree empty_document (JString "#app")) as (_ & Hag & _).
  destruct (revisions_agree empty_document (JString ".card")) as (Himp & _).
  destruct (revisions_agree empty_document (JString "ul>li")) as (_ & _ & Hdiff).
  destruct (revisions_agree strict_document (JString ">li")) as (_ & _ & Hbad).
  split; [apply Hag; reflexivity|]. split; [apply Himp; reflexivity|]. split.
  - destruct Hdiff as (s & E & _ & _ & L & _); [discriminate|].
    exists s. split; [exact E|exact L].
  - destruct Hbad as (s & E & _ & _ & L & C); [discriminate|].
    exists s. split; [exact E|]. split; [exact L|].
    injection E as <-. exact C.
Defined.

End Selector.

(* ================================================================== *)
(** * Part V: the direction of [getNodesBetween]                       *)
(* ================================================================== *)

Module Siblings.
Import Dom.

Lemma children_tail d p : forall post pre x,
  child_list d p (pre ++ x :: post) -> sib_path d x post None.
Proof.
  induction post as [|y post IH]; intros pre x [Hnd Hlinks].
  - apply sib_here.
    assert (Hx : nth_error (pre ++ [x]) (List.length pre) = Some x).
    { rewrite nth_error_app2 by lia. rewrite Nat.sub_diag. reflexivity. }
    rewrite (proj2 (Hlinks _ _ Hx)).
    apply nth_error_None. rewrite length_app. simpl. lia.
  - assert (Hx : nth_error (pre ++ x :: y :: post) (List.length pre) = Some x).
    { rewrite nth_error_app2 by lia. rewrite Nat.sub_diag. reflexivity. }
    assert (Hy : nth_error (pre ++ x :: y :: post) (S (List.length pre)) = Some y).
    { rewrite nth_error_app2 by lia.
      replace (S (List.length pre) - List.length pre) with 1 by lia. reflexivity. }
    apply sib_step with (c := y).
    + rewrite (proj2 (Hlinks _ _ Hx)). exact Hy.
    + apply (IH (pre ++ [x]) y).
      rewrite <- app_assoc. split; [exact Hnd|exact Hlinks].
Qed.

Lemma children_parent d p kids x :
  child_list d p kids -> In x kids -> parentNode d x = Some p.
Proof.
  intros [_ Hlinks] Hin. apply In_nth_error in Hin. destruct Hin as [i Hi].
  exact (proj1 (Hlinks _ _ Hi)).
Qed.

(** X5.  [getNodesBetween] is directional.  When [endNode] comes before
    [startNode] among the children of their parent, and when the two are the
    same node, the walk runs off the end of the sibling list and the function
    throws [Error('endNode could not be reached from startNode')]; it never
    returns the nodes in between in reverse, nor an empty list. *)
Theorem getNodesBetween_is_directional (d : document) (p : node) :
  (forall pre s mid e post fuel,
     child_list d p (pre ++ s :: mid ++ e :: post) ->
     List.length post < fuel ->
     getNodesBetween fuel d (JNode e) (JNode s)
     = Some (Throw (Error unreachable_msg)))
  /\ (forall pre s post fuel,
        child_list d p (pre ++ s :: post) ->
        List.length post < fuel ->
        getNodesBetween fuel d (JNode s) (JNode s)
        = Some (Throw (Error unreachable_msg))).
Proof.
  split.
  - intros pre s mid e post fuel Hkids Hfuel.
    assert (Hs : parentNode d s = Some p).
    { apply (children_parent d p _ s Hkids). apply in_or_app. right. left.
      reflexivity. }
    assert (He : parentNode d e = Some p).
    { apply (children_parent d p _ e Hkids). apply in_or_app. right. right.
      apply in_or_app. right. left. reflexivity. }
    rewrite same_parent_dispatch by (exists p; split; assumption).
    apply walk_runs_out with (visited := post); [| |exact Hfuel].
    + apply (children_tail d p post (pre ++ s :: mid) e).
      rewrite <- app_assoc. exact Hkids.
    + intros Hin. destruct Hkids as [Hnd _].
      apply NoDup_remove_2 in Hnd. apply Hnd.
      apply in_or_app. right. apply in_or_app. right. right. exact Hin.
  - intros pre s post fuel Hkids Hfuel.
    assert (Hs : parentNode d s = Some p).
    { apply (children_parent d p _ s Hkids). apply in_or_app. right. left.
      reflexivity. }
    rewrite same_parent_dispatch by (exists p; split; assumption).
    apply walk_runs_out with (visited := post); [| |exact Hfuel].
    + apply (children_tail d p post pre s). exact Hkids.
    + intros Hin. destruct Hkids as [Hnd _].
      apply NoDup_remove_2 in Hnd. apply Hnd.
      apply in_or_app. right. exact Hin.
Qed.

Lemma sample_children : child_list sample 0 [1; 2; 3; 4].
Proof.
  split.
  - repeat constructor; simpl; intuition discriminate.
  - intros i n.
    do 4 (destruct i as [|i]; [intros [= <-]; split; reflexivity|]).
    destruct i; discriminate.
Qed.

Lemma getNodesBetween_is_directional_witness :
  getNodesBetween 2 sample (JNode 3) (JNode 1)
  = Some (Throw (Error unreachable_msg))
  /\ getNodesBetween 3 sample (JNode 2) (JNode 2)
     = Some (Throw (Error unreachable_msg)).
Proof.
  destruct (getNodesBetween_is_directional sample 0) as [Hrev Hsame].
  split.
  - apply (Hrev [] 1 [2] 3 [4]); [exact sample_children|simpl; lia].
  - apply (Hsame [1] 2 [3; 4]); [exact sample_children|simpl; lia].
Defined.

Lemma sib_path_app d : forall s l1 e l2 t,
  sib_path d s l1 (Some e) -> sib_path d e l2 t ->
  sib_path d s (l1 ++ e :: l2) t.
Proof.
  intros s l1 e l2 t H1 H2. remember (Some e) as m eqn:Hm.
  induction H1 as [s m Hn|s c l m Hn Hp IH]; subst m; simpl.
  - apply sib_step with (c := e); assumption.
  - apply sib_step with (c := c); [exact Hn|]. apply IH. reflexivity.
Qed.

Lemma getNodesBetween_returns fuel d s e r :
  getNodesBetween fuel d (JNode s) (JNode e) = Some (Return r) ->
  same_parent d s e /\ between d s r e.
Proof.
  unfold getNodesBetween. intros H.
  destruct (parentNode d s) as [ps|] eqn:Hs; [|discriminate].
  destruct (parentNode d e) as [pe|] eqn:He; [|discriminate].
  destruct (Nat.eqb ps pe) eqn:Hpe; [|discriminate]. simpl in H.
  apply Nat.eqb_eq in Hpe. subst pe.
  split; [exists ps; split; assumption|].
  apply walk_sound in H. destruct H as [mid [-> Hb]]. exact Hb.
Qed.

(** X6.  Two adjoining ranges make one range.  If [getNodesBetween(a, b)] returns
    [left] and [getNodesBetween(b, c)] returns [right], and [c] is neither [b]
    nor one of [left], then [getNodesBetween(a, c)] returns [left], then [b],
    then [right]. *)
Theorem getNodesBetween_joins (d : document) (a b c : node)
    (left right : list node) (fuel1 fuel2 : nat) :
  getNodesBetween fuel1 d (JNode a) (JNode b) = Some (Return left) ->
  getNodesBetween fuel2 d (JNode b) (JNode c) = Some (Return right) ->
  c <> b -> ~ In c left ->
  forall fuel, List.length left + List.length right + 1 < fuel ->
    getNodesBetween fuel d (JNode a) (JNode c)
    = Some (Return (left ++ b :: right)).
Proof.
  intros H1 H2 Hcb Hcl fuel Hfuel.
  apply getNodesBetween_returns in H1. destruct H1 as [[p [Ha Hb]] [P1 N1]].
  apply getNodesBetween_returns in H2. destruct H2 as [[q [Hb' Hc]] [P2 N2]].
  assert (q = p) by congruence. subst q.
  rewrite same_parent_dispatch by (exists p; split; assumption).
  apply (walk_reaches d c a (left ++ b :: right)) with (acc := []).
  - apply sib_path_app; assumption.
  - intros Hin. apply in_app_or in Hin. destruct Hin as [Hin|[Heq|Hin]].
    + exact (Hcl Hin).
    + exact (Hcb (eq_sym Heq)).
    + exact (N2 Hin).
  - rewrite length_app. simpl. lia.
Qed.

Lemma getNodesBetween_joins_witness :
  getNodesBetween 3 sample (JNode 1) (JNode 4) = Some (Return ([] ++ 2 :: [3])).
Proof.
  apply (getNodesBetween_joins sample 1 2 4 [] [3] 1 2).
  - reflexivity.
  - reflexivity.
  - discriminate.
  - intros [].
  - simpl. lia.
Defined.

End Siblings.

(* ================================================================== *)
(** * Part VI: the children of [el]                                    *)
(* ================================================================== *)

(** [append] is modelled against the calls it makes on the browser and on
    reactorjs, which are the operations of the class [Browser]; what holds for
    every browser is proved for every instance of the class.  A small page is
    the instance on which the functions are run. *)

Module Children.

(** The nodes [append] handles: elements (as [el] makes them), text nodes and
    comment nodes. *)
Inductive node : Type :=
| Element (e : El.element)
| Text (id : nat)
| Comment (id : nat).

Inductive exn : Type :=
| TypeError (msg : string)
| Error (msg : string)
| DOMException (name : string).

Inductive completion (A : Type) : Type :=
| Return (a : A)
| Throw (e : exn).
Arguments Return {A} a.
Arguments Throw {A} e.

Definition of_el_exn (e : El.exn) : exn :=
  match e with
  | El.TypeError m => TypeError m
  | El.Error m => Error m
  | El.DOMException n => DOMException n
  end.

(** The values that are neither [null] nor [undefined], nor a string, an
    element, a promise, a function or an iterable: [append] rejects them with
    their [typeof]. *)
Inductive js_type : Type := TNumber | TBoolean | TObject | TSymbol | TBigint.

Definition typeof (t : js_type) : string :=
  match t with
  | TNumber => "number"
  | TBoolean => "boolean"
  | TObject => "object"
  | TSymbol => "symbol"
  | TBigint => "bigint"
  end.

(** A child argument of [el].  A function child is called with the element
    as [this] and as argument; it may change the page, and returns a child or
    throws.  A promise is known by a number; the value it settles with comes
    later, from outside.  Observers and document fragments are not among the
    children considered. *)
#[warnings="-register-all"]
Inductive child (S : Type) : Type :=
| Undefined
| Null
| Str (s : string)
| Elem (e : El.element)
| Promise (id : nat)
| Fun (f : El.element -> S -> completion (child S) * S)
| Arr (l : list (child S))
| Other (t : js_type).
Arguments Undefined {S}.
Arguments Null {S}.
Arguments Str {S} s.
Arguments Elem {S} e.
Arguments Promise {S} id.
Arguments Fun {S} f.
Arguments Arr {S} l.
Arguments Other {S} t.

(** [a === b] on elements. *)
Definition same_element (a b : El.element) : bool :=
  Nat.eqb (El.node_id a) (El.node_id b).

(** What [append] asks of the browser and of reactorjs.  [thenFinally id self
    placeholder] stands for [child.then(...).finally(...)] on the promise
    [id]: it registers the two callbacks that [on_fulfilled] and [on_finally]
    below describe. *)
Class Browser (S : Type) : Type := {
  createTextNode : string -> S -> node * S;
  createComment : string -> S -> node * S;
  insertBefore : El.element -> node -> option node -> S -> completion unit * S;
  parentElement : node -> S -> option El.element;
  remove : node -> S -> S;
  setAttribute : El.element -> string -> string -> S -> completion unit * S;
  thenFinally : nat -> El.element -> node -> S -> S;
  shuck : El.element -> El.element
}.

(** ** A small page *)

(** A page to run the functions on: the child list of every element, the
    parent of every node, the data of the text and comment nodes made so far,
    the attributes set so far (latest first) and the promise callbacks
    registered so far.  Only elements have children; the hierarchy checks of
    the DOM are not part of it. *)
Record page : Type := {
  tree : nat -> list node;
  parent : node -> option El.element;
  text : list string;
  comments : list string;
  attributes : list (nat * string * string);
  reactions : list (nat * El.element * node)
}.

Definition node_eqb (a b : node) : bool :=
  match a, b with
  | Element x, Element y => same_element x y
  | Text i, Text j => Nat.eqb i j
  | Comment i, Comment j => Nat.eqb i j
  | _, _ => false
  end.

Definition childNodes (self : El.element) (p : page) : list node :=
  tree p (El.node_id self).

Definition set_tree (e : nat) (l : list node) (t : nat -> list node)
  : nat -> list node :=
  fun x => if Nat.eqb x e then l else t x.

Definition set_parent (n : node) (v : option El.element)
    (f : node -> option El.element) : node -> option El.element :=
  fun m => if node_eqb m n then v else f m.

(** [n.remove()], also the first step of inserting [n] somewhere. *)
Definition unlink (n : node) (p : page) : page :=
  match parent p n with
  | Some old =>
      {| tree := set_tree (El.node_id old)
                   (filter (fun m => negb (node_eqb m n)) (tree p (El.node_id old)))
                   (tree p);
         parent := set_parent n None (parent p);
         text := text p; comments := comments p;
         attributes := attributes p; reactions := reactions p |}
  | None => p
  end.

(** The list [l] with [n] put before [ref]; [None] when [ref] is not in it. *)
Fixpoint put_before (n ref : node) (l : list node) : option (list node) :=
  match l with
  | [] => None
  | m :: rest =>
      if node_eqb m ref then Some (n :: m :: rest)
      else option_map (cons m) (put_before n ref rest)
  end.

Definition place (self : El.element) (n : node) (l : list node) (q : page) : page :=
  {| tree := set_tree (El.node_id self) l (tree q);
     parent := set_parent n (Some self) (parent q);
     text := text q; comments := comments q;
     attributes := attributes q; reactions := reactions q |}.

Definition page_insertBefore (self : El.element) (n : node) (ref : option node)
    (p : page) : completion unit * page :=
  match ref with
  | None =>
      let q := unlink n p in
      (Return tt, place self n (tree q (El.node_id self) ++ [n]) q)
  | Some r =>
      match parent p r with
      | Some e =>
          if negb (same_element e self) then
            (Throw (DOMException "NotFoundError"), p)
          else if node_eqb r n then (Return tt, p)
          else
            let q := unlink n p in
            match put_before n r (tree q (El.node_id self)) with
            | Some l => (Return tt, place self n l q)
            | None => (Throw (DOMException "NotFoundError"), p)
            end
      | None => (Throw (DOMException "NotFoundError"), p)
      end
  end.

#[export] Instance page_browser : Browser page := {
  createTextNode t p :=
    (Text (List.length (text p)),
     {| tree := tree p; parent := parent p; text := text p ++ [t];
        comments := comments p; attributes := attributes p;
        reactions := reactions p |});
  createComment t p :=
    (Comment (List.length (comments p)),
     {| tree := tree p; parent := parent p; text := text p;
        comments := comments p ++ [t]; attributes := attributes p;
        reactions := reactions p |});
  insertBefore := page_insertBefore;
  parentElement n p := parent p n;
  remove := unlink;
  setAttribute self a v p :=
    (Return tt,
     {| tree := tree p; parent := parent p; text := text p;
        comments := comments p;
        attributes := (El.node_id self, a, v) :: attributes p;
        reactions := reactions p |});
  thenFinally id self placeholder p :=
    {| tree := tree p; parent := parent p; text := text p;
       comments := comments p; attributes := attributes p;
       reactions := reactions p ++ [(id, self, placeholder)] |};
  shuck e := e
}.

Definition blank : page :=
  {| tree := fun _ => []; parent := fun _ => None; text := []; comments := [];
     attributes := []; reactions := [] |}.

Definition getAttribute (self : El.element) (a : string) (p : page) : option string :=
  option_map snd
    (find (fun x => Nat.eqb (fst (fst x)) (El.node_id self) && String.eqb (snd (fst x)) a)
       (attributes p)).

(** The text and comment nodes that have not been made yet are nowhere on the
    page. *)
Definition well_formed (p : page) : Prop :=
  (forall i, List.length (text p) <= i ->
     parent p (Text i) = None /\ forall e, ~ In (Text i) (tree p e))
  /\ (forall i, List.length (comments p) <= i ->
        parent p (Comment i) = None /\ forall e, ~ In (Comment i) (tree p e)).

Definition ul : El.element :=
  {| El.node_id := 7; El.tag := "ul"; El.className := "ul menu" |}.

Definition li : El.element :=
  {| El.node_id := 3; El.tag := "li"; El.className := "li" |}.

(** The text nodes number [from], [from + 1], ..., [count] of them. *)
Definition text_nodes (from count : nat) : list node := map Text (seq from count).

(** Where the next child goes: at the end of the children [before] of
    [self], or before the comment [ref] that follows them. *)
Definition anchored (self : El.element) (ref : option node)
    (before after : list node) (p : page) : Prop :=
  match ref with
  | None => childNodes self p = before
  | Some r =>
      childNodes self p = before ++ r :: after
      /\ parent p r = Some self
      /\ ~ In r before
      /\ exists j, r = Comment j
  end.

(** From [p] to [p']: only text nodes were made and put under [self]. *)
Record text_step (self : El.element) (p p' : page) : Prop := {
  ts_text : List.length (text p) <= List.length (text p');
  ts_comments : comments p' = comments p;
  ts_attributes : attributes p' = attributes p;
  ts_reactions : reactions p' = reactions p;
  ts_tree : forall e, e <> El.node_id self -> tree p' e = tree p e;
  ts_parent :
    forall m, (forall i, List.length (text p) <= i -> m <> Text i) ->
              parent p' m = parent p m
}.

(** ** [append] and [el] *)

Section Append.
Context {S : Type} `{Browser S}.

(** [insertionPoint && insertionPoint.parentElement !== self] *)
Definition detached (self : El.element) (insertionPoint : option node) (s : S) : bool :=
  match insertionPoint with
  | Some n =>
      match parentElement n s with
      | Some p => negb (same_element p self)
      | None => true
      end
  | None => false
  end.

(** The function [append] inside [el], for the element [self]. *)
Fixpoint append (self : El.element) (c : child S) (insertionPoint : option node)
    (s : S) {struct c} : completion unit * S :=
  if detached self insertionPoint s then
    (Throw (Error "append insertion point is no longer attached to the element"), s)
  else
    match c with
    | Undefined | Null => (Return tt, s)
    | Str t =>
        let '(textNode, s1) := createTextNode t s in
        insertBefore self textNode insertionPoint s1
    | Elem e => insertBefore self (Element (shuck e)) insertionPoint s
    | Promise id =>
        let '(promisePlaceholder, s1) := createComment "promisePlaceholder" s in
        match insertBefore self promisePlaceholder insertionPoint s1 with
        | (Return _, s2) => (Return tt, thenFinally id self promisePlaceholder s2)
        | (Throw e, s2) => (Throw e, s2)
        end
    | Fun f =>
        match f self s with
        | (Return result, s1) => append self result insertionPoint s1
        | (Throw e, s1) => (Throw e, s1)
        end
    | Arr l =>
        (fix each (l : list (child S)) (s : S) : completion unit * S :=
           match l with
           | [] => (Return tt, s)
           | grandChild :: rest =>
               match append self grandChild insertionPoint s with
               | (Return _, s1) => each rest s1
               | (Throw e, s1) => (Throw e, s1)
               end
           end) l s
    | Other t => (Throw (TypeError ("Invalid child type: " ++ typeof t)), s)
    end.

(** The [for (const grandChild of child)] loop on its own. *)
Fixpoint append_all (self : El.element) (l : list (child S))
    (insertionPoint : option node) (s : S) : completion unit * S :=
  match l with
  | [] => (Return tt, s)
  | grandChild :: rest =>
      match append self grandChild insertionPoint s with
      | (Return _, s1) => append_all self rest insertionPoint s1
      | (Throw e, s1) => (Throw e, s1)
      end
  end.

(** The callback given to [then]: it runs when the promise is fulfilled with
    [value]. *)
Definition on_fulfilled (self : El.element) (promisePlaceholder : node)
    (value : child S) (s : S) : completion unit * S :=
  if detached self (Some promisePlaceholder) s then (Return tt, s)
  else append self value (Some promisePlaceholder) s.

(** The callback given to [finally]: it runs after [on_fulfilled], and also
    when the promise is rejected. *)
Definition on_finally (self : El.element) (promisePlaceholder : node) (s : S) : S :=
  if detached self (Some promisePlaceholder) s then s
  else remove promisePlaceholder s.

(** [el(descriptor, ...children)]: the root set-up, then [append(children)],
    then [return self].  Observing [self] with the bookmark observer changes
    nothing as long as no observer is among the children. *)
Definition el (d : El.document) (descriptor : El.jsval) (children : list (child S))
    (s : S) : completion El.element * El.document * S :=
  match El.el d descriptor with
  | (El.Return self, d1) =>
      match append self (Arr children) None s with
      | (Return _, s1) => (Return self, d1, s1)
      | (Throw e, s1) => (Throw e, d1, s1)
      end
  | (El.Throw e, d1) => (Throw (of_el_exn e), d1, s)
  end.

(** [attr(attribute, value)]: a function child that sets the attribute on the
    element it is called with and returns [undefined]. *)
Definition attr (attribute value : string) : child S :=
  Fun (fun self s =>
         match setAttribute self attribute value s with
         | (Return _, s1) => (Return Undefined, s1)
         | (Throw e, s1) => (Throw e, s1)
         end).

(** ** Specification vocabulary *)

(** The children that are left when nested arrays are spliced in place and
    [null] and [undefined] are dropped. *)
Fixpoint leaves (c : child S) : list (child S) :=
  match c with
  | Undefined | Null => []
  | Arr l =>
      (fix all (l : list (child S)) : list (child S) :=
         match l with
         | [] => []
         | x :: rest => leaves x ++ all rest
         end) l
  | _ => [c]
  end.

Definition flatten (l : list (child S)) : list (child S) := flat_map leaves l.

(** The strings of a child, arrays spliced. *)
Fixpoint texts (c : child S) : list string :=
  match c with
  | Str t => [t]
  | Arr l =>
      (fix all (l : list (child S)) : list string :=
         match l with
         | [] => []
         | x :: rest => texts x ++ all rest
         end) l
  | _ => []
  end.

(** Strings, [null], [undefined], and arrays of these. *)
Fixpoint textual (c : child S) : bool :=
  match c with
  | Undefined | Null | Str _ => true
  | Arr l =>
      (fix all (l : list (child S)) : bool :=
         match l with
         | [] => true
         | x :: rest => textual x && all rest
         end) l
  | _ => false
  end.

(** [m] and then, if it returned, [k]. *)
Definition and_then (m : completion unit * S) (k : S -> completion unit * S)
  : completion unit * S :=
  match m with
  | (Return _, s1) => k s1
  | (Throw e, s1) => (Throw e, s1)
  end.

Section child_induction.
Variable P : child S -> Prop.
Hypothesis HUndefined : P Undefined.
Hypothesis HNull : P Null.
Hypothesis HStr : forall t, P (Str t).
Hypothesis HElem : forall e, P (Elem e).
Hypothesis HPromise : forall id, P (Promise id).
Hypothesis HFun : forall f, P (Fun f).
Hypothesis HArr : forall l, Forall P l -> P (Arr l).
Hypothesis HOther : forall t, P (Other t).

Fixpoint child_nested_ind (c : child S) : P c :=
  match c with
  | Undefined => HUndefined
  | Null => HNull
  | Str t => HStr t
  | Elem e => HElem e
  | Promise id => HPromise id
  | Fun f => HFun f
  | Arr l =>
      HArr l ((fix all (l : list (child S)) : Forall P l :=
                 match l with
                 | [] => Forall_nil P
                 | x :: rest => Forall_cons x (child_nested_ind x) (all rest)
                 end) l)
  | Other t => HOther t
  end.
End child_induction.

End Append.

(** ** Re-rendering *)

(** A number for every node, the same for nodes that are [===]. *)
Definition code (n : node) : nat :=
  match n with
  | Element e => 3 * El.node_id e
  | Text i => 3 * i + 1
  | Comment i => 3 * i + 2
  end.

(** The node after [c] in a child list. *)
Fixpoint next_in (c : nat) (kids : list nat) : option nat :=
  match kids with
  | x :: rest =>
      if Nat.eqb x c then hd_error rest else next_in c rest
  | [] => None
  end.

(** The links that [getNodesBetween] follows among the children of [self]. *)
Definition links (self : El.element) (p : page) : Dom.document :=
  {| Dom.parentNode := fun c =>
       if existsb (Nat.eqb c) (map code (childNodes self p))
       then Some (code (Element self)) else None;
     Dom.nextSibling := fun c => next_in c (map code (childNodes self p)) |}.

Definition node_of (self : El.element) (p : page) (c : nat) : list node :=
  match find (fun n => Nat.eqb (code n) c) (childNodes self p) with
  | Some n => [n]
  | None => []
  end.

Definition of_dom_exn (e : Dom.exn) : exn :=
  match e with
  | Dom.TypeError m => TypeError m
  | Dom.Error m => Error m
  end.

(** The body of the [metaObserver] that [append] makes for an observer child,
    run with [value] for [child.value]: when both markers are children of
    [self], the nodes between them are removed and the value is appended
    before the end marker.  [fuel] bounds the walk of [getNodesBetween]. *)
Definition render (fuel : nat) (self : El.element)
    (observerStartNode observerEndNode : node) (value : child page) (p : page)
  : option (completion unit * page) :=
  match parent p observerStartNode, parent p observerEndNode with
  | Some a, Some b =>
      if same_element a self && same_element b self then
        match Dom.getNodesBetween fuel (links self p)
                (Dom.JNode (code observerStartNode))
                (Dom.JNode (code observerEndNode)) with
        | Some (Dom.Return oldChildren) =>
            let p1 := fold_left (fun q oldChild => unlink oldChild q)
                        (flat_map (node_of self p) oldChildren) p in
            Some (append self value (Some observerEndNode) p1)
        | Some (Dom.Throw e) => Some (Throw (of_dom_exn e), p)
        | None => None
        end
      else Some (Return tt, p)
  | _, _ => Some (Return tt, p)
  end.

(** The children of [self] are distinct nodes, and [self] is their parent. *)
Definition consistent (self : El.element) (p : page) : Prop :=
  NoDup (map code (childNodes self p))
  /\ forall n, In n (childNodes self p) -> parent p n = Some self.

(** A page on which [ul] has the two markers of an observer as children,
    with one text node between them. *)
Definition marked : page :=
  let '(observerStartNode, p1) := createComment "observerStart" blank in
  let '(observerEndNode, p2) := createComment "observerEnd" p1 in
  let '(_, p3) := insertBefore ul observerStartNode None p2 in
  let '(_, p4) := insertBefore ul observerEndNode None p3 in
  snd (append ul (Str "old") (Some observerEndNode) p4).

(** ** Properties that hold in every browser *)

Section AppendProperties.
Context {S : Type} `{Browser S}.


Lemma leaves_Arr (l : list (child S)) : leaves (Arr l) = flatten l.
Proof.
  unfold flatten. simpl. induction l as [|x l IH]; simpl; [reflexivity|].
  rewrite IH. reflexivity.
Qed.

Lemma texts_Arr (l : list (child S)) : texts (Arr l) = flat_map texts l.
Proof.
  simpl. induction l as [|x l IH]; simpl; [reflexivity|]. rewrite IH. reflexivity.
Qed.

Lemma textual_Arr (l : list (child S)) : textual (Arr l) = forallb textual l.
Proof.
  simpl. induction l as [|x l IH]; simpl; [reflexivity|]. rewrite IH. reflexivity.
Qed.

Lemma append_Arr self l ip s :
  append self (Arr l) ip s
  = if detached self ip s then
      (Throw (Error "append insertion point is no longer attached to the element"), s)
    else append_all self l ip s.
Proof.
  simpl. destruct (detached self ip s); [reflexivity|].
  revert s. induction l as [|x l IH]; intros s; [reflexivity|].
  simpl. destruct (append self x ip s) as [[u|e] s1]; [|reflexivity].
  apply IH.
Qed.

Lemma append_all_app self l1 l2 ip s :
  append_all self (l1 ++ l2) ip s
  = and_then (append_all self l1 ip s) (append_all self l2 ip).
Proof.
  revert s. induction l1 as [|x l1 IH]; intros s; simpl.
  - reflexivity.
  - destruct (append self x ip s) as [[u|e] s1]; [apply IH|reflexivity].
Qed.

Lemma append_all_one self (c : child S) s :
  append_all self [c] None s = append self c None s.
Proof.
  cbn [append_all]. destruct (append self c None s) as [[[]|e] s1]; reflexivity.
Qed.

Lemma append_leaves self c :
  forall s, append self c None s = append_all self (leaves c) None s.
Proof.
  induction c as [| |t|e|id|f|l IH|t] using child_nested_ind; intros s;
    try reflexivity;
    try (match goal with
         | |- _ = append_all _ (leaves ?c) _ _ =>
             change (leaves c) with [c]; rewrite append_all_one; reflexivity
         end).
  rewrite append_Arr, leaves_Arr. cbn [detached]. revert s.
  induction IH as [|x l Hx Hl IHl]; intros s; [reflexivity|].
  unfold flatten. cbn [flat_map]. fold (flatten l).
  rewrite append_all_app. cbn [append_all]. rewrite Hx.
  unfold and_then.
  destruct (append_all self (leaves x) None s) as [[u|e] s1]; [apply IHl|reflexivity].
Qed.

Lemma el_children d descriptor children s :
  el d descriptor children s
  = match El.el d descriptor with
    | (El.Return self, d1) =>
        match append_all self children None s with
        | (Return _, s1) => (Return self, d1, s1)
        | (Throw e, s1) => (Throw e, d1, s1)
        end
    | (El.Throw e, d1) => (Throw (of_el_exn e), d1, s)
    end.
Proof.
  unfold el. destruct (El.el d descriptor) as [[self|e] d1]; [|reflexivity].
  rewrite append_Arr. reflexivity.
Qed.

(** X7.  Arrays of children are spliced in place, at any depth, and [null] and
    [undefined] children are skipped: [el(descriptor, ...children)] does
    exactly what [el] does with the flattened list of the remaining
    children. *)
Theorem children_are_spliced d descriptor (children : list (child S)) s :
  el d descriptor children s = el d descriptor (flatten children) s.
Proof.
  rewrite !el_children.
  destruct (El.el d descriptor) as [[self|e] d1]; [|reflexivity].
  pose proof (append_leaves self (Arr children) s) as E.
  rewrite append_Arr, leaves_Arr in E. cbn [detached] in E. rewrite E.
  reflexivity.
Qed.

(** X8.  [el] fails fast.  When the descriptor is rejected (a selector that matches
    nothing, a descriptor that is neither a string nor an element) no child is
    looked at: no child function is called and the page is untouched.  When a
    child is of a type that cannot be appended, [el] throws
    [TypeError('Invalid child type: ...')]: the children before it have been
    appended, the children after it are not processed. *)
Theorem el_fails_fast d descriptor s :
  (forall e d1 children,
     El.el d descriptor = (El.Throw e, d1) ->
     el d descriptor children s = (Throw (of_el_exn e), d1, s))
  /\ (forall (before after : list (child S)) t,
        el d descriptor (before ++ Other t :: after) s
        = match el d descriptor before s with
          | (Return _, d1, s1) =>
              (Throw (TypeError ("Invalid child type: " ++ typeof t)), d1, s1)
          | failed => failed
          end).
Proof.
  split.
  - intros e d1 children E. unfold el. rewrite E. reflexivity.
  - intros l1 l2 t. rewrite !el_children.
    destruct (El.el d descriptor) as [[self|e] d1]; [|reflexivity].
    rewrite append_all_app. unfold and_then.
    destruct (append_all self l1 None s) as [[u|e] s1]; reflexivity.
Qed.

(** X9.  Appending in two calls: [el(descriptor, ...first, ...second)] does the
    same as [el(el(descriptor, ...first), ...second)]. *)
Theorem el_appends_in_two_calls d descriptor (first second : list (child S)) s :
  el d descriptor (first ++ second) s
  = match el d descriptor first s with
    | (Return self, d1, s1) => el d1 (El.JElement self) second s1
    | failed => failed
    end.
Proof.
  rewrite !el_children.
  destruct (El.el d descriptor) as [[self|e] d1]; [|reflexivity].
  rewrite append_all_app. unfold and_then.
  destruct (append_all self first None s) as [[u|e] s1]; [|reflexivity].
  rewrite el_children. reflexivity.
Qed.

(** X10.  [attr(attribute, value)] as a child sets the attribute on the element and
    appends nothing: no text node is made and nothing is inserted for it.  The
    remaining children are appended afterwards; if [setAttribute] throws, they
    are not. *)
Theorem attr_sets_the_attribute d descriptor attribute value
    (rest : list (child S)) s :
  el d descriptor (attr attribute value :: rest) s
  = match El.el d descriptor with
    | (El.Return self, d1) =>
        match setAttribute self attribute value s with
        | (Return _, s1) => el d1 (El.JElement self) rest s1
        | (Throw e, s1) => (Throw e, d1, s1)
        end
    | (El.Throw e, d1) => (Throw (of_el_exn e), d1, s)
    end.
Proof.
  rewrite el_children.
  destruct (El.el d descriptor) as [[self|e] d1]; [|reflexivity].
  cbn [append_all]. unfold attr. cbn [append detached].
  destruct (setAttribute self attribute value s) as [[u|e] s1]; [|reflexivity].
  cbn [append detached]. rewrite el_children. reflexivity.
Qed.

End AppendProperties.

(** ** Properties on the page *)

Lemma text_step_refl self p : text_step self p p.
Proof. constructor; reflexivity || (intros; reflexivity). Qed.

Lemma text_step_trans self p1 p2 p3 :
  text_step self p1 p2 -> text_step self p2 p3 -> text_step self p1 p3.
Proof.
  intros [A0 A1 A2 A3 A4 A5] [B0 B1 B2 B3 B4 B5].
  constructor; try congruence.
  - lia.
  - intros e He. rewrite B4, A4 by exact He. reflexivity.
  - intros m Hm. rewrite B5, A5; [reflexivity|exact Hm|].
    intros i Hi. apply Hm. lia.
Qed.

Lemma node_eqb_comment m j : node_eqb m (Comment j) = true <-> m = Comment j.
Proof.
  destruct m as [e|i|i]; simpl; split; try discriminate.
  - intros E. apply Nat.eqb_eq in E. subst. reflexivity.
  - intros [= ->]. apply Nat.eqb_refl.
Qed.

Lemma node_eqb_text m k : node_eqb m (Text k) = true <-> m = Text k.
Proof.
  destruct m as [e|i|i]; simpl; split; try discriminate.
  - intros E. apply Nat.eqb_eq in E. subst. reflexivity.
  - intros [= ->]. apply Nat.eqb_refl.
Qed.

Lemma put_before_comment n j before after :
  ~ In (Comment j) before ->
  put_before n (Comment j) (before ++ Comment j :: after)
  = Some (before ++ n :: Comment j :: after).
Proof.
  induction before as [|m before IH]; intros Hnot; simpl.
  - rewrite Nat.eqb_refl. reflexivity.
  - destruct (node_eqb m (Comment j)) eqn:E.
    + apply node_eqb_comment in E. subst m. exfalso. apply Hnot. left. reflexivity.
    + rewrite IH; [reflexivity|]. intros Hin. apply Hnot. right. exact Hin.
Qed.

Lemma filter_out_comment j before after :
  ~ In (Comment j) before -> ~ In (Comment j) after ->
  filter (fun m => negb (node_eqb m (Comment j))) (before ++ Comment j :: after)
  = before ++ after.
Proof.
  intros Hb Ha.
  assert (Hkeep : forall l, ~ In (Comment j) l ->
            filter (fun m => negb (node_eqb m (Comment j))) l = l).
  { induction l as [|m l IH]; intros Hl; simpl; [reflexivity|].
    destruct (node_eqb m (Comment j)) eqn:E.
    - apply node_eqb_comment in E. subst m. exfalso. apply Hl. left. reflexivity.
    - simpl. rewrite IH; [reflexivity|]. intros Hin. apply Hl. right. exact Hin. }
  rewrite filter_app. simpl. rewrite Nat.eqb_refl. simpl.
  rewrite (Hkeep before Hb), (Hkeep after Ha). reflexivity.
Qed.

Lemma anchored_attached self ref before after p :
  anchored self ref before after p -> detached self ref p = false.
Proof.
  destruct ref as [r|]; [|reflexivity].
  intros (_ & Hp & _). unfold detached. cbn [parentElement page_browser].
  rewrite Hp. unfold same_element. rewrite Nat.eqb_refl. reflexivity.
Qed.

(** One string: a new text node, put at the anchor. *)
Lemma append_text self ref before after t p :
  well_formed p -> anchored self ref before after p ->
  exists p',
    append self (Str t) ref p = (Return tt, p')
    /\ anchored self ref (before ++ [Text (List.length (text p))]) after p'
    /\ text p' = text p ++ [t]
    /\ text_step self p p'
    /\ well_formed p'.
Proof.
  intros Hwf Ha. set (k := List.length (text p)).
  destruct (proj1 Hwf k (Nat.le_refl _)) as [Hpk Htk].
  cbn [append]. rewrite (anchored_attached _ _ _ _ _ Ha).
  cbn [createTextNode page_browser insertBefore]. fold k.
  set (p1 := {| tree := tree p; parent := parent p; text := text p ++ [t];
                comments := comments p; attributes := attributes p;
                reactions := reactions p |}).
  assert (Hun : unlink (Text k) p1 = p1) by (unfold unlink; simpl; rewrite Hpk; reflexivity).
  assert (Hwf' : forall l p',
            tree p' = set_tree (El.node_id self) l (tree p) ->
            parent p' = set_parent (Text k) (Some self) (parent p) ->
            text p' = text p ++ [t] -> comments p' = comments p ->
            (forall x, In x l -> x = Text k \/ In x (tree p (El.node_id self))) ->
            well_formed p').
  { intros l p' Et Ep Ex Ec Hl. split.
    - intros i Hi. rewrite Ex, length_app in Hi. simpl in Hi. fold k in Hi.
      destruct (proj1 Hwf i ltac:(fold k; lia)) as [Hpi Hti].
      rewrite Ep, Et. unfold set_parent, set_tree. simpl.
      replace (Nat.eqb i k) with false by (symmetry; apply Nat.eqb_neq; lia).
      split; [exact Hpi|]. intros e.
      destruct (Nat.eqb e (El.node_id self)); [|apply Hti].
      intros Hin. apply Hl in Hin. destruct Hin as [Hin|Hin].
      + injection Hin as ->. lia.
      + exact (Hti _ Hin).
    - intros i Hi. rewrite Ec in Hi.
      destruct (proj2 Hwf i Hi) as [Hpi Hti].
      rewrite Ep, Et. unfold set_parent, set_tree. simpl.
      split; [exact Hpi|]. intros e.
      destruct (Nat.eqb e (El.node_id self)); [|apply Hti].
      intros Hin. apply Hl in Hin. destruct Hin as [Hin|Hin].
      + discriminate.
      + exact (Hti _ Hin). }
  assert (Hstep : forall l,
            text_step self p (place self (Text k) l p1)).
  { intros l. constructor; try reflexivity.
    - simpl. rewrite length_app. lia.
    - intros e He. simpl. unfold set_tree.
      apply Nat.eqb_neq in He. rewrite He. reflexivity.
    - intros m Hm. simpl. unfold set_parent.
      destruct (node_eqb m (Text k)) eqn:E; [|reflexivity].
      apply node_eqb_text in E. exfalso. exact (Hm k (Nat.le_refl _) E). }
  destruct ref as [r|]; unfold page_insertBefore.
  - destruct Ha as (Ht & Hp & Hnot & j & ->).
    change (parent p1 (Comment j)) with (parent p (Comment j)). rewrite Hp.
    unfold same_element at 1. rewrite Nat.eqb_refl.
    cbn [negb node_eqb]. rewrite Hun.
    change (tree p1 (El.node_id self)) with (childNodes self p). rewrite Ht.
    rewrite (put_before_comment _ _ _ _ Hnot).
    eexists. split; [reflexivity|]. split; [|split; [reflexivity|split]].
    + unfold anchored, childNodes. simpl. unfold set_tree, set_parent.
      rewrite Nat.eqb_refl. simpl.
      split; [rewrite <- app_assoc; reflexivity|]. split; [exact Hp|].
      split; [|exists j; reflexivity].
      intros Hin. apply in_app_or in Hin. destruct Hin as [Hin|[Hin|[]]];
        [exact (Hnot Hin)|discriminate].
    + apply Hstep.
    + apply (Hwf' (before ++ Text k :: Comment j :: after)); try reflexivity.
      intros x Hx. unfold childNodes in Ht. rewrite Ht.
      apply in_app_or in Hx. destruct Hx as [Hx|[Hx|Hx]].
      * right. apply in_or_app. left. exact Hx.
      * left. symmetry. exact Hx.
      * right. apply in_or_app. right. exact Hx.
  - rewrite Hun. unfold anchored in Ha.
    change (tree p1 (El.node_id self)) with (childNodes self p). rewrite Ha.
    eexists. split; [reflexivity|]. split; [|split; [reflexivity|split]].
    + unfold anchored, childNodes. simpl. unfold set_tree.
      rewrite Nat.eqb_refl. reflexivity.
    + apply Hstep.
    + apply (Hwf' (before ++ [Text k])); try reflexivity.
      intros x Hx. unfold childNodes in Ha. rewrite Ha.
      apply in_app_or in Hx. destruct Hx as [Hx|[Hx|[]]].
      * right. exact Hx.
      * left. symmetry. exact Hx.
Qed.

Lemma text_nodes_app from n m :
  text_nodes from (n + m) = text_nodes from n ++ text_nodes (from + n) m.
Proof. unfold text_nodes. rewrite seq_app, map_app. reflexivity. Qed.

Lemma stays self ref before after p :
  well_formed p -> anchored self ref before after p ->
  anchored self ref (before ++ text_nodes (List.length (text p)) 0) after p
  /\ text p = text p ++ []
  /\ text_step self p p
  /\ well_formed p.
Proof.
  intros Hwf Ha. unfold text_nodes. simpl. rewrite !app_nil_r.
  split; [exact Ha|]. split; [reflexivity|].
  split; [apply text_step_refl|exact Hwf].
Qed.

(** Textual children: one text node per string, in order, at the anchor. *)
Lemma append_textual self ref after (c : child page) :
  textual c = true ->
  forall before p,
    well_formed p -> anchored self ref before after p ->
    exists p',
      append self c ref p = (Return tt, p')
      /\ anchored self ref
           (before ++ text_nodes (List.length (text p)) (List.length (texts c)))
           after p'
      /\ text p' = text p ++ texts c
      /\ text_step self p p'
      /\ well_formed p'.
Proof.
  induction c as [| |t|e|id|f|l IH|t] using child_nested_ind; intros Ht;
    try discriminate; intros before p Hwf Ha.
  - exists p. cbn [append]. rewrite (anchored_attached _ _ _ _ _ Ha).
    split; [reflexivity|]. exact (stays self ref before after p Hwf Ha).
  - exists p. cbn [append]. rewrite (anchored_attached _ _ _ _ _ Ha).
    split; [reflexivity|]. exact (stays self ref before after p Hwf Ha).
  - exact (append_text self ref before after t p Hwf Ha).
  - rewrite append_Arr, (anchored_attached _ _ _ _ _ Ha), texts_Arr.
    rewrite textual_Arr in Ht. revert before p Hwf Ha.
    induction IH as [|x l Hx Hl IHl]; intros before p Hwf Ha.
    + exists p. split; [reflexivity|].
      exact (stays self ref before after p Hwf Ha).
    + cbn [forallb] in Ht. apply andb_true_iff in Ht. destruct Ht as [Tx Tl].
      destruct (Hx Tx before p Hwf Ha) as (p1 & E1 & A1 & X1 & S1 & W1).
      destruct (IHl Tl _ p1 W1 A1) as (p2 & E2 & A2 & X2 & S2 & W2).
      exists p2. cbn [append_all flat_map]. rewrite E1, E2.
      split; [reflexivity|]. split; [|split; [|split]].
      * rewrite length_app, text_nodes_app, app_assoc.
        rewrite X1, length_app in A2. exact A2.
      * rewrite X2, X1, app_assoc. reflexivity.
      * exact (text_step_trans _ _ _ _ S1 S2).
      * exact W2.
Qed.

Lemma append_all_textual self ref after (l : list (child page)) before p :
  forallb textual l = true ->
  well_formed p -> anchored self ref before after p ->
  exists p',
    append_all self l ref p = (Return tt, p')
    /\ anchored self ref
         (before ++ text_nodes (List.length (text p))
                      (List.length (flat_map texts l)))
         after p'
    /\ text p' = text p ++ flat_map texts l
    /\ text_step self p p'
    /\ well_formed p'.
Proof.
  intros Ht Hwf Ha.
  destruct (append_textual self ref after (Arr l)
              ltac:(rewrite textual_Arr; exact Ht) before p Hwf Ha)
    as (p' & E & A & X & St & W).
  rewrite append_Arr, (anchored_attached _ _ _ _ _ Ha) in E.
  rewrite texts_Arr in A, X.
  exists p'. split; [exact E|]. split; [exact A|]. split; [exact X|].
  split; [exact St|exact W].
Qed.

(** A promise: a new comment node at the end, and the callbacks registered. *)
Lemma append_promise self id p :
  well_formed p ->
  exists p',
    append self (Promise id) None p = (Return tt, p')
    /\ childNodes self p'
       = childNodes self p ++ [Comment (List.length (comments p))]
    /\ parent p' (Comment (List.length (comments p))) = Some self
    /\ text p' = text p
    /\ comments p' = comments p ++ ["promisePlaceholder"%string]
    /\ reactions p'
       = reactions p ++ [(id, self, Comment (List.length (comments p)))]
    /\ well_formed p'.
Proof.
  intros Hwf. set (k := List.length (comments p)).
  destruct (proj2 Hwf k (Nat.le_refl _)) as [Hpk Htk].
  cbn [append detached createComment page_browser insertBefore thenFinally].
  fold k. unfold page_insertBefore, unlink. cbn [parent]. rewrite Hpk.
  eexists. split; [reflexivity|].
  unfold childNodes. cbn [tree parent text comments reactions place].
  unfold set_tree, set_parent. rewrite Nat.eqb_refl.
  cbn [node_eqb]. rewrite Nat.eqb_refl.
  repeat (split; [reflexivity|]).
  split.
  - intros i Hi. cbn [text] in Hi. destruct (proj1 Hwf i Hi) as [Hpi Hti].
    cbn [parent tree node_eqb]. split; [exact Hpi|].
    intros e. destruct (Nat.eqb e (El.node_id self)); [|apply Hti].
    intros Hin. apply in_app_or in Hin. destruct Hin as [Hin|[Hin|[]]].
    + exact (Hti _ Hin).
    + discriminate.
  - intros i Hi. cbn [comments] in Hi. rewrite length_app in Hi. simpl in Hi.
    fold k in Hi.
    destruct (proj2 Hwf i ltac:(fold k; lia)) as [Hpi Hti].
    cbn [parent tree node_eqb].
    replace (Nat.eqb i k) with false by (symmetry; apply Nat.eqb_neq; lia).
    split; [exact Hpi|].
    intros e. destruct (Nat.eqb e (El.node_id self)); [|apply Hti].
    intros Hin. apply in_app_or in Hin. destruct Hin as [Hin|[Hin|[]]].
    + exact (Hti _ Hin).
    + injection Hin as ->. lia.
Qed.

(** X11.  On a page, children that are strings (possibly in nested arrays, possibly
    with [null] and [undefined] among them) become text nodes: [el] makes one
    text node per string, in order, and puts them after the children that the
    element already has.  The comments, the attributes and the children of the
    other elements are as before. *)
Theorem strings_become_text_nodes d descriptor (children : list (child page))
    (p : page) self d1 :
  well_formed p ->
  forallb textual children = true ->
  El.el d descriptor = (El.Return self, d1) ->
  exists p',
    el d descriptor children p = (Return self, d1, p')
    /\ childNodes self p'
       = childNodes self p
         ++ text_nodes (List.length (text p))
                       (List.length (flat_map texts children))
    /\ text p' = text p ++ flat_map texts children
    /\ text_step self p p'.
Proof.
  intros Hwf Ht Hroot. rewrite el_children, Hroot.
  destruct (append_all_textual self None [] children (childNodes self p) p
              Ht Hwf eq_refl) as (p' & E & A & X & St & _).
  exists p'. rewrite E. split; [reflexivity|].
  split; [exact A|]. split; [exact X|exact St].
Qed.

(** X12.  A promise child is rendered in place.  [el] puts a comment where the
    promise stands among the children and registers the callbacks.  When the
    promise is fulfilled, the value is appended before the comment and the
    comment is removed, so that the text nodes of the value stand between
    those of the children before and after the promise.  When the promise is
    rejected only the comment is removed.  If the comment is no longer a child
    of the element by then, neither callback changes the page. *)
Theorem promise_is_rendered_in_place d descriptor
    (first second : list (child page)) (id : nat) (value : child page)
    (p : page) self d1 :
  well_formed p ->
  forallb textual first = true -> forallb textual second = true ->
  textual value = true ->
  El.el d descriptor = (El.Return self, d1) ->
  let n1 := List.length (flat_map texts first) in
  let n2 := List.length (flat_map texts second) in
  let k := List.length (text p) in
  let placeholder := Comment (List.length (comments p)) in
  exists p1 p2,
    el d descriptor (first ++ Promise id :: second) p = (Return self, d1, p1)
    /\ childNodes self p1
       = childNodes self p ++ text_nodes k n1 ++ placeholder
                           :: text_nodes (k + n1) n2
    /\ reactions p1 = reactions p ++ [(id, self, placeholder)]
    /\ on_fulfilled self placeholder value p1 = (Return tt, p2)
    /\ childNodes self (on_finally self placeholder p2)
       = childNodes self p ++ text_nodes k n1
         ++ text_nodes (k + n1 + n2) (List.length (texts value))
         ++ text_nodes (k + n1) n2
    /\ childNodes self (on_finally self placeholder p1)
       = childNodes self p ++ text_nodes k n1 ++ text_nodes (k + n1) n2
    /\ forall q, detached self (Some placeholder) q = true ->
         on_fulfilled self placeholder value q = (Return tt, q)
         /\ on_finally self placeholder q = q.
Proof.
  intros Hwf T1 T2 Tv Hroot n1 n2 k placeholder.
  set (j := List.length (comments p)) in *. subst placeholder.
  rewrite el_children, Hroot, append_all_app. cbn [append_all].
  destruct (append_all_textual self None [] first (childNodes self p) p
              T1 Hwf eq_refl) as (pa & Ea & Aa & Xa & Sa & Wa).
  rewrite Ea. cbn [and_then].
  destruct (append_promise self id pa Wa) as (pb & Eb & Cb & Pb & Xb & Kb & Rb & Wb).
  rewrite (ts_comments _ _ _ Sa) in Cb, Pb, Rb. fold j in Cb, Pb, Rb.
  rewrite Eb.
  destruct (append_all_textual self None [] second (childNodes self pb) pb
              T2 Wb eq_refl) as (pc & Ec & Ac & Xc & Sc & Wc).
  rewrite Ec. unfold anchored in Aa, Ac.
  assert (Hk1 : List.length (text pb) = k + n1).
  { rewrite Xb, Xa, length_app. reflexivity. }
  assert (Hc : childNodes self pc
               = (childNodes self p ++ text_nodes k n1)
                 ++ Comment j :: text_nodes (k + n1) n2).
  { rewrite Ac, Cb, Aa, Hk1, <- !app_assoc. reflexivity. }
  assert (Hfresh : ~ In (Comment j) (childNodes self p ++ text_nodes k n1)).
  { intros Hin. apply in_app_or in Hin. destruct Hin as [Hin|Hin].
    - exact (proj2 (proj2 Hwf j (Nat.le_refl _)) _ Hin).
    - unfold text_nodes in Hin. apply in_map_iff in Hin.
      destruct Hin as [x [Hx _]]. discriminate. }
  assert (Hafter : forall a b, ~ In (Comment j) (text_nodes a b)).
  { intros a b Hin. unfold text_nodes in Hin. apply in_map_iff in Hin.
    destruct Hin as [x [Hx _]]. discriminate. }
  assert (Hp : parent pc (Comment j) = Some self).
  { rewrite (ts_parent _ _ _ Sc) by (intros; discriminate). exact Pb. }
  assert (Hanch : anchored self (Some (Comment j))
                    (childNodes self p ++ text_nodes k n1)
                    (text_nodes (k + n1) n2) pc).
  { split; [exact Hc|]. split; [exact Hp|]. split; [exact Hfresh|].
    exists j. reflexivity. }
  destruct (append_textual self (Some (Comment j)) (text_nodes (k + n1) n2)
              value Tv _ pc Wc Hanch) as (pd & Ed & Ad & Xd & Sd & Wd).
  assert (Hk2 : List.length (text pc) = k + n1 + n2).
  { rewrite Xc, length_app, Hk1. reflexivity. }
  rewrite Hk2 in Ad.
  assert (Hfin : forall before q,
            childNodes self q = before ++ Comment j :: text_nodes (k + n1) n2 ->
            parent q (Comment j) = Some self ->
            ~ In (Comment j) before ->
            childNodes self (on_finally self (Comment j) q)
            = before ++ text_nodes (k + n1) n2).
  { intros before q Hq Hpq Hb. unfold on_finally.
    assert (Hat : detached self (Some (Comment j)) q = false).
    { unfold detached. cbn [parentElement page_browser]. rewrite Hpq.
      unfold same_element. rewrite Nat.eqb_refl. reflexivity. }
    rewrite Hat. cbn [remove page_browser]. unfold unlink. rewrite Hpq.
    unfold childNodes. cbn [tree]. unfold set_tree. rewrite Nat.eqb_refl.
    unfold childNodes in Hq. rewrite Hq.
    apply filter_out_comment; [exact Hb|apply Hafter]. }
  exists pc, pd. split; [reflexivity|].
  split; [rewrite Hc, <- app_assoc; reflexivity|].
  split; [rewrite (ts_reactions _ _ _ Sc), Rb, (ts_reactions _ _ _ Sa); reflexivity|].
  split.
  { unfold on_fulfilled. rewrite (anchored_attached _ _ _ _ _ Hanch). exact Ed. }
  split.
  { destruct Ad as (Hd & Hpd & Hnd & _).
    rewrite (Hfin _ pd Hd Hpd Hnd), <- !app_assoc. reflexivity. }
  split.
  { rewrite (Hfin _ pc Hc Hp Hfresh), <- !app_assoc. reflexivity. }
  intros q Hq. unfold on_fulfilled, on_finally. rewrite Hq. split; reflexivity.
Qed.

Lemma next_in_spec : forall pre x post,
  ~ In x pre -> next_in x (pre ++ x :: post) = hd_error post.
Proof.
  induction pre as [|y pre IH]; intros x post Hnot; simpl.
  - rewrite Nat.eqb_refl. reflexivity.
  - destruct (Nat.eqb y x) eqn:E.
    + apply Nat.eqb_eq in E. subst y. exfalso. apply Hnot. left. reflexivity.
    + apply IH. intros Hin. apply Hnot. right. exact Hin.
Qed.

Lemma nth_error_split_at {A : Type} (l : list A) i x :
  nth_error l i = Some x ->
  exists pre post, l = pre ++ x :: post /\ List.length pre = i.
Proof.
  intros H. apply nth_error_split in H. exact H.
Qed.

Lemma links_children self p :
  NoDup (map code (childNodes self p)) ->
  Dom.child_list (links self p) (code (Element self)) (map code (childNodes self p)).
Proof.
  intros Hnd. split; [exact Hnd|].
  intros i n Hi. unfold links. cbn [Dom.parentNode Dom.nextSibling]. split.
  - assert (Hin : In n (map code (childNodes self p))) by (eapply nth_error_In; eauto).
    assert (E : existsb (Nat.eqb n) (map code (childNodes self p)) = true).
    { apply existsb_exists. exists n. split; [exact Hin|apply Nat.eqb_refl]. }
    rewrite E. reflexivity.
  - destruct (nth_error_split_at _ _ _ Hi) as (pre & post & E & Hlen).
    subst i. rewrite E in Hnd |- *. rewrite next_in_spec.
    + symmetry. rewrite nth_error_app2 by lia.
      replace (S (List.length pre) - List.length pre) with 1 by lia.
      destruct post; reflexivity.
    + intros Hin. apply NoDup_remove_2 in Hnd. apply Hnd.
      apply in_or_app. left. exact Hin.
Qed.


Lemma node_eqb_code m n : node_eqb m n = true <-> code m = code n.
Proof.
  destruct m as [x|i|i], n as [y|j|j]; simpl; unfold same_element;
    rewrite ?Nat.eqb_eq; split; intros E; try discriminate; try lia;
    try (f_equal; lia).
Qed.

Lemma find_code l n :
  NoDup (map code l) -> In n l ->
  find (fun m => Nat.eqb (code m) (code n)) l = Some n.
Proof.
  induction l as [|x l IH]; intros Hnd Hin; [destruct Hin|].
  simpl in *. inversion Hnd as [|? ? Hx Hl]; subst.
  destruct Hin as [->|Hin]; [rewrite Nat.eqb_refl; reflexivity|].
  destruct (Nat.eqb (code x) (code n)) eqn:E.
  - apply Nat.eqb_eq in E. exfalso. apply Hx. rewrite E. apply in_map. exact Hin.
  - apply IH; assumption.
Qed.

Lemma nodes_of_codes self p l :
  NoDup (map code (childNodes self p)) -> incl l (childNodes self p) ->
  flat_map (node_of self p) (map code l) = l.
Proof.
  intros Hnd. induction l as [|n l IH]; intros Hin; [reflexivity|].
  simpl. unfold node_of at 1.
  rewrite (find_code _ n Hnd (Hin n (or_introl eq_refl))). simpl.
  f_equal. apply IH. intros x Hx. apply Hin. right. exact Hx.
Qed.

Lemma filter_out_node n pre post :
  NoDup (map code (pre ++ n :: post)) ->
  filter (fun m => negb (node_eqb m n)) (pre ++ n :: post) = pre ++ post.
Proof.
  intros Hnd.
  assert (Hkeep : forall l, ~ In (code n) (map code l) ->
            filter (fun m => negb (node_eqb m n)) l = l).
  { induction l as [|m l IH]; intros Hl; simpl; [reflexivity|].
    destruct (node_eqb m n) eqn:E.
    - apply node_eqb_code in E. exfalso. apply Hl. left. exact E.
    - simpl. rewrite IH; [reflexivity|]. intros Hin. apply Hl. right. exact Hin. }
  rewrite map_app in Hnd. simpl in Hnd.
  pose proof (NoDup_remove_2 _ _ _ Hnd) as Hnot.
  rewrite filter_app. simpl.
  assert (Hnn : node_eqb n n = true) by (apply node_eqb_code; reflexivity).
  rewrite Hnn. simpl.
  rewrite (Hkeep pre), (Hkeep post); [reflexivity| |];
    intros Hin; apply Hnot; apply in_or_app; [right|left]; exact Hin.
Qed.

Lemma unlink_all_keeps_none n : forall l q,
  parent q n = None ->
  parent (fold_left (fun q oldChild => unlink oldChild q) l q) n = None.
Proof.
  induction l as [|x l IH]; intros q Hq; [exact Hq|].
  cbn [fold_left]. apply IH. unfold unlink.
  destruct (parent q x); [|exact Hq].
  cbn [parent]. unfold set_parent.
  destruct (node_eqb n x); [reflexivity|exact Hq].
Qed.

(** Removing the nodes [old], one after the other, from the children of
    [self]. *)
Lemma unlink_run self : forall old pre post p,
  childNodes self p = pre ++ old ++ post ->
  NoDup (map code (pre ++ old ++ post)) ->
  (forall n, In n (pre ++ old ++ post) -> parent p n = Some self) ->
  well_formed p ->
  let p' := fold_left (fun q oldChild => unlink oldChild q) old p in
  childNodes self p' = pre ++ post
  /\ (forall n, In n (pre ++ post) -> parent p' n = Some self)
  /\ (forall n, In n old -> parent p' n = None)
  /\ text p' = text p /\ comments p' = comments p
  /\ well_formed p'.
Proof.
  induction old as [|n old IH]; intros pre post p Hc Hnd Hpar Hwf.
  - simpl in *. split; [exact Hc|]. split; [exact Hpar|].
    split; [intros n []|]. split; [reflexivity|]. split; [reflexivity|exact Hwf].
  - cbn [fold_left].
    assert (Hn : parent p n = Some self).
    { apply Hpar. apply in_or_app. right. left. reflexivity. }
    set (p1 := unlink n p).
    assert (E1 : p1 = {| tree := set_tree (El.node_id self)
                                   (filter (fun m => negb (node_eqb m n))
                                      (tree p (El.node_id self))) (tree p);
                         parent := set_parent n None (parent p);
                         text := text p; comments := comments p;
                         attributes := attributes p; reactions := reactions p |}).
    { unfold p1, unlink. rewrite Hn. reflexivity. }
    assert (Hc1 : childNodes self p1 = pre ++ old ++ post).
    { rewrite E1. unfold childNodes. cbn [tree]. unfold set_tree.
      rewrite Nat.eqb_refl. unfold childNodes in Hc. rewrite Hc.
      apply (filter_out_node n pre (old ++ post)). exact Hnd. }
    assert (Hnd1 : NoDup (map code (pre ++ old ++ post))).
    { rewrite map_app in Hnd |- *. simpl in Hnd.
      rewrite map_app in Hnd |- *. exact (NoDup_remove_1 _ _ _ Hnd). }
    assert (Hnot : ~ In (code n) (map code (pre ++ old ++ post))).
    { rewrite map_app in Hnd |- *. simpl in Hnd.
      exact (NoDup_remove_2 _ _ _ Hnd). }
    assert (Hother : forall m, In m (pre ++ old ++ post) -> node_eqb m n = false).
    { intros m Hm. destruct (node_eqb m n) eqn:E; [|reflexivity].
      apply node_eqb_code in E. exfalso. apply Hnot. rewrite <- E.
      apply in_map. exact Hm. }
    assert (Hpar1 : forall m, In m (pre ++ old ++ post) -> parent p1 m = Some self).
    { intros m Hm. rewrite E1. cbn [parent]. unfold set_parent.
      rewrite (Hother m Hm). apply Hpar.
      apply in_app_or in Hm. apply in_or_app. destruct Hm as [Hm|Hm]; [left|right; right];
        exact Hm. }
    assert (Hwf1 : well_formed p1).
    { rewrite E1. split; intros i Hi; cbn [text comments parent tree] in *.
      - destruct (proj1 Hwf i Hi) as [Hpi Hti]. unfold set_parent, set_tree.
        split; [destruct (node_eqb (Text i) n); [reflexivity|exact Hpi]|].
        intros e. destruct (Nat.eqb e (El.node_id self)); [|apply Hti].
        intros Hin. apply filter_In in Hin. exact (Hti _ (proj1 Hin)).
      - destruct (proj2 Hwf i Hi) as [Hpi Hti]. unfold set_parent, set_tree.
        split; [destruct (node_eqb (Comment i) n); [reflexivity|exact Hpi]|].
        intros e. destruct (Nat.eqb e (El.node_id self)); [|apply Hti].
        intros Hin. apply filter_In in Hin. exact (Hti _ (proj1 Hin)). }
    destruct (IH pre post p1 Hc1 Hnd1 Hpar1 Hwf1) as (C & P & O & T & K & W).
    split; [exact C|]. split; [exact P|]. split; [|split; [|split]].
    + intros m [<-|Hm]; [|exact (O m Hm)].
      apply unlink_all_keeps_none. rewrite E1. cbn [parent]. unfold set_parent.
      replace (node_eqb n n) with true; [reflexivity|].
      symmetry. apply node_eqb_code. reflexivity.
    + rewrite T, E1. reflexivity.
    + rewrite K, E1. reflexivity.
    + exact W.
Qed.


Lemma NoDup_drop_middle {A : Type} (l1 l2 l3 : list A) :
  NoDup (l1 ++ l2 ++ l3) -> NoDup (l1 ++ l3).
Proof.
  induction l2 as [|x l2 IH]; intros Hnd; [exact Hnd|].
  apply IH. simpl in Hnd. exact (NoDup_remove_1 _ _ _ Hnd).
Qed.

Lemma between_markers fuel self p a b before old after :
  NoDup (map code (childNodes self p)) ->
  childNodes self p = before ++ Comment a :: old ++ Comment b :: after ->
  List.length old < fuel ->
  Dom.getNodesBetween fuel (links self p)
    (Dom.JNode (code (Comment a))) (Dom.JNode (code (Comment b)))
  = Some (Dom.Return (map code old)).
Proof.
  intros Hnd Hc Hfuel.
  pose proof (links_children self p Hnd) as Hkids.
  rewrite Hc in Hkids. rewrite map_app in Hkids. cbn [map] in Hkids.
  rewrite map_app in Hkids. cbn [map] in Hkids.
  destruct (Dom.children_between _ _ _ _ _ _ _ Hkids) as [Hsame [Hpath Hnot]].
  rewrite Dom.same_parent_dispatch by exact Hsame.
  rewrite (Dom.walk_reaches _ _ _ _ Hpath Hnot [] fuel)
    by (rewrite length_map; exact Hfuel).
  reflexivity.
Qed.

(** X13.  A re-rendering replaces what stands between the two markers of an
    observer, and nothing else.  When the markers are children of the element,
    with the nodes [old] between them, the body of the meta-observer removes
    the nodes [old] (found by [getNodesBetween]) and puts the text nodes of
    the new value between the markers; the children before the start marker
    and after the end marker stay where they are.  When one of the markers has
    no parent, the page is left as it is. *)
Theorem rendering_replaces_between_markers (fuel : nat) (self : El.element)
    (a b : nat) (before old after : list node) (value : child page) (p : page) :
  well_formed p -> consistent self p ->
  childNodes self p = before ++ Comment a :: old ++ Comment b :: after ->
  textual value = true ->
  List.length old < fuel ->
  (exists p',
     render fuel self (Comment a) (Comment b) value p = Some (Return tt, p')
     /\ childNodes self p'
        = before ++ Comment a
            :: text_nodes (List.length (text p)) (List.length (texts value))
            ++ Comment b :: after
     /\ (forall n, In n old -> parent p' n = None)
     /\ text p' = text p ++ texts value)
  /\ (forall q s e,
        parent q s = None \/ parent q e = None ->
        render fuel self s e value q = Some (Return tt, q)).
Proof.
  intros Hwf [Hnd Hpar] Hc Tv Hfuel. split.
  - assert (Ha : parent p (Comment a) = Some self).
    { apply Hpar. rewrite Hc. apply in_or_app. right. left. reflexivity. }
    assert (Hb : parent p (Comment b) = Some self).
    { apply Hpar. rewrite Hc. apply in_or_app. right. right.
      apply in_or_app. right. left. reflexivity. }
    unfold render. rewrite Ha, Hb. unfold same_element. rewrite Nat.eqb_refl.
    cbn [andb].
    rewrite (between_markers fuel self p a b before old after Hnd Hc Hfuel).
    rewrite (nodes_of_codes self p old Hnd).
    2:{ intros x Hx. rewrite Hc. apply in_or_app. right. right.
        apply in_or_app. left. exact Hx. }
    assert (Hc' : childNodes self p
                  = (before ++ [Comment a]) ++ old ++ (Comment b :: after)).
    { rewrite Hc, <- app_assoc. reflexivity. }
    rewrite Hc' in Hnd.
    destruct (unlink_run self old (before ++ [Comment a]) (Comment b :: after) p
                Hc' Hnd ltac:(rewrite <- Hc'; exact Hpar) Hwf)
      as (C & P & O & T & K & W).
    set (p1 := fold_left (fun q oldChild => unlink oldChild q) old p) in *.
    assert (Hanch : anchored self (Some (Comment b)) (before ++ [Comment a]) after p1).
    { split; [exact C|]. split.
      - apply P. apply in_or_app. right. left. reflexivity.
      - split; [|exists b; reflexivity].
        intros Hin. rewrite !map_app in Hnd.
        apply NoDup_drop_middle in Hnd. cbn [map] in Hnd.
        apply NoDup_remove_2 in Hnd. apply Hnd.
        apply in_or_app. left.
        pose proof (in_map code _ _ Hin) as Hin'. rewrite map_app in Hin'.
        exact Hin'. }
    destruct (append_textual self (Some (Comment b)) after value Tv _ p1 W Hanch)
      as (p' & E & A & X & St & _).
    exists p'. rewrite E. split; [reflexivity|].
    destruct A as (A1 & _). rewrite T in A1, X.
    split; [rewrite A1, <- !app_assoc; reflexivity|].
    split; [|exact X].
    intros n Hn. rewrite (ts_parent _ _ _ St); [exact (O n Hn)|].
    intros i Hi ->. rewrite T in Hi.
    apply (proj2 (proj1 Hwf i Hi) (El.node_id self)).
    unfold childNodes in Hc. rewrite Hc. apply in_or_app. right. right.
    apply in_or_app. left. exact Hn.
  - intros q s e [Hq|Hq]; unfold render; rewrite Hq.
    + reflexivity.
    + destruct (parent q s); reflexivity.
Qed.

Lemma strings_become_text_nodes_witness :
  exists p',
    el El.empty_document (El.JString "ul menu")
       [Str "a"; Arr [Null; Str "b"]; Undefined] blank
    = (Return ul, {| El.querySelector := fun _ => El.Return None; El.next_id := 8 |}, p')
    /\ childNodes ul p' = [Text 0; Text 1]
    /\ text p' = ["a"; "b"]%string.
Proof.
  destruct (strings_become_text_nodes El.empty_document (El.JString "ul menu")
              [Str "a"; Arr [Null; Str "b"]; Undefined] blank ul
              {| El.querySelector := fun _ => El.Return None; El.next_id := 8 |})
    as (p' & E & C & T & _).
  - split; intros i _; split; [reflexivity|intros e []|reflexivity|intros e []].
  - reflexivity.
  - reflexivity.
  - exists p'. split; [exact E|]. split; [exact C|exact T].
Defined.

Lemma blank_well_formed : well_formed blank.
Proof.
  split; intros i _; (split; [reflexivity|intros e []]).
Qed.

Lemma promise_is_rendered_in_place_witness :
  exists p1 p2,
    el El.empty_document (El.JString "ul menu")
       [Str "a"; Promise 5; Str "c"] blank
    = (Return ul, {| El.querySelector := fun _ => El.Return None; El.next_id := 8 |}, p1)
    /\ childNodes ul p1 = [Text 0; Comment 0; Text 1]
    /\ on_fulfilled ul (Comment 0) (Arr [Str "b1"; Str "b2"]) p1 = (Return tt, p2)
    /\ childNodes ul (on_finally ul (Comment 0) p2)
       = [Text 0; Text 2; Text 3; Text 1].
Proof.
  destruct (promise_is_rendered_in_place El.empty_document (El.JString "ul menu")
              [Str "a"] [Str "c"] 5 (Arr [Str "b1"; Str "b2"]) blank ul
              {| El.querySelector := fun _ => El.Return None; El.next_id := 8 |}
              blank_well_formed eq_refl eq_refl eq_refl eq_refl)
    as (p1 & p2 & E & C & _ & F & G & _).
  exists p1, p2. split; [exact E|]. split; [exact C|]. split; [exact F|exact G].
Defined.

(** A list with nested arrays, [null] and [undefined], and what it leaves on
    the page. *)
Example spliced_children :
  let '(r, _, p) :=
    el El.empty_document (El.JString "ul menu")
       [Str "a"; Arr [Null; Str "b"; Arr [Str "c"; Undefined]]; Arr []] blank in
  r = Return ul
  /\ childNodes ul p = [Text 0; Text 1; Text 2]
  /\ text p = ["a"; "b"; "c"]%string.
Proof. vm_compute. repeat split. Qed.

Example attr_then_text :
  let '(r, _, p) :=
    el El.empty_document (El.JString "ul menu")
       [attr "id" "main"; Str "a"; attr "id" "nav"] blank in
  r = Return ul
  /\ childNodes ul p = [Text 0]
  /\ getAttribute ul "id" p = Some "nav"%string.
Proof. vm_compute. repeat split. Qed.

(** An element that is appended twice is moved, not copied. *)
Example element_child_moves :
  let '(_, _, p) :=
    el El.empty_document (El.JString "ul menu") [Elem li; Str "a"; Elem li] blank in
  childNodes ul p = [Text 0; Element li].
Proof. vm_compute. reflexivity. Qed.

Lemma el_fails_fast_witness :
  el El.empty_document (El.JString "#menu")
     [Fun (fun self p => (Return (Str "never"), blank))] blank
  = (Throw (Error (El.not_found_msg "#menu")), El.empty_document, blank)
  /\ (let '(r, _, p) := el El.empty_document (El.JString "ul menu")
                           [Str "a"; Other TBoolean; Str "b"] blank in
      r = Throw (TypeError "Invalid child type: boolean")
      /\ childNodes ul p = [Text 0] /\ text p = ["a"%string]).
Proof.
  destruct (el_fails_fast (S := page) El.empty_document (El.JString "#menu") blank)
    as [Hroot _].
  destruct (el_fails_fast (S := page) El.empty_document (El.JString "ul menu") blank)
    as [_ Hchild].
  split.
  - apply (Hroot (El.Error (El.not_found_msg "#menu")) El.empty_document).
    reflexivity.
  - pose proof (Hchild [Str "a"] [Str "b"] TBoolean) as E. cbn [app] in E.
    rewrite E. vm_compute. repeat split.
Defined.

Lemma marked_children :
  childNodes ul marked = [] ++ Comment 0 :: [Text 0] ++ Comment 1 :: [].
Proof. reflexivity. Qed.

Lemma marked_well_formed : well_formed marked.
Proof.
  split; intros i Hi; vm_compute in Hi.
  - split.
    + destruct i as [|i]; [lia|reflexivity].
    + intros e Hin. unfold marked in Hin. cbn in Hin.
      unfold set_tree in Hin.
      destruct (Nat.eqb e 7); simpl in Hin;
        repeat (destruct Hin as [Hin|Hin]; try discriminate; try (injection Hin as <-; lia)); try contradiction.
  - split.
    + destruct i as [|[|i]]; try lia; reflexivity.
    + intros e Hin. unfold marked in Hin. cbn in Hin.
      unfold set_tree in Hin.
      destruct (Nat.eqb e 7); simpl in Hin;
        repeat (destruct Hin as [Hin|Hin]; try discriminate; try (injection Hin as <-; lia)); try contradiction.
Qed.

Lemma marked_consistent : consistent ul marked.
Proof.
  split.
  - vm_compute. repeat constructor; simpl; intuition discriminate.
  - intros n Hin. rewrite marked_children in Hin. simpl in Hin.
    destruct Hin as [<-|[<-|[<-|[]]]]; reflexivity.
Qed.

Lemma rendering_replaces_between_markers_witness :
  exists p',
    render 2 ul (Comment 0) (Comment 1) (Arr [Str "new"; Str "er"]) marked
    = Some (Return tt, p')
    /\ childNodes ul p' = [Comment 0; Text 1; Text 2; Comment 1]
    /\ parent p' (Text 0) = None.
Proof.
  destruct (rendering_replaces_between_markers 2 ul 0 1 [] [Text 0] []
              (Arr [Str "new"; Str "er"]) marked
              marked_well_formed marked_consistent marked_children eq_refl
              ltac:(simpl; lia))
    as [(p' & E & C & O & _) _].
  exists p'. split; [exact E|]. split; [exact C|].
  apply O. left. reflexivity.
Defined.

End Children.
